(** * Library Management System API: loan lifecycle, catalogue updates and paging

    A shallow embedding of [app/api.py] (FastAPI handlers over a MySQL
    store).  Tables are lists of typed rows, every SQL statement issued by
    the handlers is a function on the database, and the handlers themselves
    are written in a small state-and-exception monad that mirrors
    [execute_query] / [execute_transaction]: one connection, one statement,
    one commit (or one rollback) per call. *)

From Stdlib Require Import ZArith List String Ascii Bool Lia Permutation.
Import ListNotations.

Open Scope string_scope.
Open Scope list_scope.
Open Scope Z_scope.

(** ** SQL column types *)

Definition date := Z.       (* DATE, as a day number *)
Definition datetime := Z.   (* DATETIME / TIMESTAMP *)
Definition decimal := Z.    (* DECIMAL, as a scaled integer *)

(** [loan_status] ENUM, as listed by the [status] pattern of [get_loans]. *)
Inductive LoanStatus := Active | Returned | Overdue | Lost | Damaged.

Definition LoanStatus_eqb (a b : LoanStatus) : bool :=
  match a, b with
  | Active, Active | Returned, Returned | Overdue, Overdue
  | Lost, Lost | Damaged, Damaged => true
  | _, _ => false
  end.

(** ** Tables

    The SQL schema is not part of the Python sources.  The columns are the
    ones the statements of [api.py] name; a column is nullable exactly when
    [BookResponse] / [MemberResponse] declare it [Optional]. *)

(** Modelled from the spec: the [books] table.  [total_copies] and
    [available_copies] are integer columns, [isbn] is a unique key. *)
Record Book := mkBook {
  b_book_id : Z;
  b_isbn : string;
  b_title : string;
  b_subtitle : option string;
  b_publication_date : option date;
  b_edition : Z;
  b_pages : option Z;
  b_language : string;
  b_book_condition : string;
  b_location_shelf : option string;
  b_total_copies : Z;
  b_available_copies : Z;
  b_price : option decimal;
  b_publisher_id : option Z;
  b_category_id : Z;
  b_created_at : datetime;
  b_updated_at : datetime
}.

(** Modelled from the spec: the [members] table.  [membership_number] and
    [email] are unique keys and [is_active] is a flag that a new row has set. *)
Record Member := mkMember {
  m_member_id : Z;
  m_membership_number : string;
  m_first_name : string;
  m_last_name : string;
  m_date_of_birth : option date;
  m_gender : option string;
  m_email : option string;
  m_phone_number : option string;
  m_address : option string;
  m_city : option string;
  m_postal_code : option string;
  m_membership_type : string;
  m_membership_start_date : date;
  m_membership_expiry_date : date;
  m_is_active : bool;
  m_max_books_allowed : Z;
  m_created_at : datetime;
  m_updated_at : datetime
}.

(** Modelled from the spec: the [loan_transactions] table.  A row inserted
    without a [loan_status] is [Active] and has no [return_date]. *)
Record Loan := mkLoan {
  lt_transaction_id : Z;
  lt_member_id : Z;
  lt_book_id : Z;
  lt_staff_id : option Z;
  lt_loan_date : date;
  lt_due_date : date;
  lt_return_date : option date;
  lt_loan_status : LoanStatus;
  lt_notes : option string;
  lt_updated_at : datetime
}.

Record BookAuthor := mkBookAuthor {
  ba_book_id : Z;
  ba_author_id : Z;
  ba_author_role : option string
}.

Record Author := mkAuthor {
  a_author_id : Z;
  a_first_name : string;
  a_last_name : string
}.

Record Category := mkCategory {
  c_category_id : Z;
  c_category_name : string
}.

Record Publisher := mkPublisher {
  p_publisher_id : Z;
  p_publisher_name : string
}.

(** The database: the tables, their AUTO_INCREMENT counters and the id of
    the latest INSERT, which [LAST_INSERT_ID()] reports to the session that
    made it. *)
Record DB := mkDB {
  books : list Book;
  members : list Member;
  loan_transactions : list Loan;
  book_authors : list BookAuthor;
  authors : list Author;
  categories : list Category;
  publishers : list Publisher;
  next_book_id : Z;
  next_member_id : Z;
  next_transaction_id : Z;
  last_insert_id : Z
}.

Definition empty_db : DB := mkDB [] [] [] [] [] [] [] 1 1 1 0.

Definition with_books (d : DB) (bs : list Book) : DB :=
  mkDB bs (members d) (loan_transactions d) (book_authors d) (authors d)
       (categories d) (publishers d) (next_book_id d) (next_member_id d)
       (next_transaction_id d) (last_insert_id d).

Definition with_members (d : DB) (ms : list Member) : DB :=
  mkDB (books d) ms (loan_transactions d) (book_authors d) (authors d)
       (categories d) (publishers d) (next_book_id d) (next_member_id d)
       (next_transaction_id d) (last_insert_id d).

Definition with_loan_transactions (d : DB) (ls : list Loan) : DB :=
  mkDB (books d) (members d) ls (book_authors d) (authors d)
       (categories d) (publishers d) (next_book_id d) (next_member_id d)
       (next_transaction_id d) (last_insert_id d).

Definition with_book_authors (d : DB) (bas : list BookAuthor) : DB :=
  mkDB (books d) (members d) (loan_transactions d) bas (authors d)
       (categories d) (publishers d) (next_book_id d) (next_member_id d)
       (next_transaction_id d) (last_insert_id d).

(** ** Exceptions, faults and the handler monad *)

Inductive exn :=
| IntegrityError (msg : string)      (* mysql.connector.IntegrityError *)
| OperationalError (msg : string)    (* any other mysql.connector.Error *)
| HTTPException (status_code : Z) (detail : string)
| KeyError (key : string).

(** What the environment does to the next statement: nothing, a pool that
    hands out no connection, or a server error while the statement runs. *)
Inductive fault := NoFault | ConnectionFailed | StatementFailed (msg : string).

Record Clock := mkClock { today : date; now : datetime }.

Record World := mkWorld {
  db : DB;
  clock : Clock;
  faults : list fault
}.

Definition M (A : Type) : Type := World -> (exn + A) * World.

Definition ret {A} (a : A) : M A := fun w => (inr a, w).

Definition raise {A} (e : exn) : M A := fun w => (inl e, w).

Definition bind {A B} (m : M A) (k : A -> M B) : M B :=
  fun w => match m w with
           | (inl e, w') => (inl e, w')
           | (inr a, w') => k a w'
           end.

Definition try_except {A} (m : M A) (handler : exn -> option (M A)) : M A :=
  fun w => match m w with
           | (inl e, w') =>
               match handler e with
               | Some h => h w'
               | None => (inl e, w')
               end
           | (inr a, w') => (inr a, w')
           end.

Declare Scope handler_scope.
Delimit Scope handler_scope with handler.
Notation "x <- m ;; k" := (bind m (fun x => k))
  (at level 100, m at next level, right associativity) : handler_scope.
Notation "m ;;; k" := (bind m (fun _ => k))
  (at level 100, right associativity) : handler_scope.
Open Scope handler_scope.

(** ** The persistence gateway *)

(** A statement: [cursor.execute] followed by the fetch the caller asked
    for.  It sees the server clock ([NOW()], [CURDATE()]) and either raises
    or yields a result and the database it leaves. *)
Definition Stmt (A : Type) : Type := Clock -> DB -> exn + (A * DB).

Definition query {A} (f : DB -> A) : Stmt A := fun _ d => inr (f d, d).

Definition next_fault (w : World) : fault :=
  match faults w with
  | [] => NoFault
  | f :: _ => f
  end.

Definition consume_fault (w : World) : World :=
  mkWorld (db w) (clock w) (tl (faults w)).

Definition commit (w : World) (d : DB) : World :=
  mkWorld d (clock w) (tl (faults w)).

Definition database_error (msg : string) : exn :=
  HTTPException 500 (String.append "Database error: " msg).

Definition internal_server_error : exn :=
  HTTPException 500 "Internal server error".

(** [execute_query]: own connection, one statement, commit; on any error
    rollback and [HTTPException(500)]. *)
Definition execute_query {A} (q : Stmt A) : M A :=
  fun w =>
    match next_fault w with
    | ConnectionFailed => (inl internal_server_error, consume_fault w)
    | StatementFailed msg => (inl (database_error msg), consume_fault w)
    | NoFault =>
        match q (clock w) (db w) with
        | inr (result, d') => (inr result, commit w d')
        | inl (IntegrityError msg) | inl (OperationalError msg) =>
            (inl (database_error msg), consume_fault w)
        | inl _ => (inl internal_server_error, consume_fault w)
        end
    end.

(** The loop of [execute_transaction]: the statements run in order on the
    one connection; the first error leaves the loop. *)
Fixpoint run_statements {A} (qs : list (Stmt A)) (c : Clock) (fs : list fault)
    (d : DB) : (exn + (list A * DB)) * list fault :=
  match qs with
  | [] => (inr ([], d), fs)
  | q :: qs' =>
      match fs with
      | StatementFailed msg :: fs' => (inl (OperationalError msg), fs')
      | _ =>
          match q c d with
          | inl e => (inl e, tl fs)
          | inr (r, d1) =>
              match run_statements qs' c (tl fs) d1 with
              | (inr (rs, d2), fs2) => (inr (r :: rs, d2), fs2)
              | (inl e, fs2) => (inl e, fs2)
              end
          end
      end
  end.

(** [execute_transaction]: every statement or none. *)
Definition execute_transaction {A} (qs : list (Stmt A)) : M (list A) :=
  fun w =>
    match next_fault w with
    | ConnectionFailed => (inl internal_server_error, consume_fault w)
    | _ =>
        match run_statements qs (clock w) (faults w) (db w) with
        | (inr (results, d'), fs) => (inr results, mkWorld d' (clock w) fs)
        | (inl (IntegrityError msg), fs) | (inl (OperationalError msg), fs) =>
            (inl (database_error msg), mkWorld (db w) (clock w) fs)
        | (inl _, fs) =>
            (inl internal_server_error, mkWorld (db w) (clock w) fs)
        end
    end.

(** ** HTTP responses *)

(** The [data] member of [StandardResponse]: a JSON object of integers. *)
Definition JsonObject := list (string * Z).

Record PaginationResponse := mkPagination {
  pg_page : Z;
  pg_limit : Z;
  pg_total : Z;
  pg_pages : Z
}.

Record BookResponse := mkBookResponse {
  br_book : Book;
  br_category_name : option string;
  br_publisher_name : option string;
  br_authors : option string
}.

Inductive Content :=
| StandardResponse (message : string) (data : option JsonObject)
| BookListResponse (data : list BookResponse) (pagination : PaginationResponse)
| ErrorContent (message : string)       (* {"success": false, "message": ...} *)
| RequestValidationError.               (* FastAPI's own 422 body *)

Record Response := mkResponse {
  status_code : Z;
  content : Content
}.

(** The two [exception_handler]s of the application. *)
Definition http_exception_handler (e : exn) : Response :=
  match e with
  | HTTPException s d => mkResponse s (ErrorContent d)
  | _ => mkResponse 500 (ErrorContent "Internal server error")
  end.

(** A route: request validation (422 before the handler runs), the handler,
    and the route's success status. *)
Definition route (success_status : Z) (valid : bool) (handler : M Content)
    (w : World) : Response * World :=
  if valid then
    match handler w with
    | (inr c, w') => (mkResponse success_status c, w')
    | (inl e, w') => (http_exception_handler e, w')
    end
  else (mkResponse 422 RequestValidationError, w).

(** ** Loan management *)

Record LoanCreate := mkLoanCreate {
  lc_member_id : Z;
  lc_book_id : Z;
  lc_staff_id : option Z;
  lc_loan_date : date;        (* [date.today] when the body has none *)
  lc_due_date : date;
  lc_notes : option string
}.

(** [Field(..., gt=0)] on both ids and [validate_due_date]. *)
Definition validate_due_date (v : date) (loan_date : date) : bool :=
  negb (v <=? loan_date).

Definition LoanCreate_valid (loan : LoanCreate) : bool :=
  (0 <? lc_member_id loan) && (0 <? lc_book_id loan)
  && validate_due_date (lc_due_date loan) (lc_loan_date loan).

Definition find_book (book_id : Z) (d : DB) : option Book :=
  find (fun b => b_book_id b =? book_id) (books d).

Definition find_member (member_id : Z) (d : DB) : option Member :=
  find (fun m => m_member_id m =? member_id) (members d).

(** SELECT available_copies FROM books WHERE book_id = %s *)
Definition select_available_copies (book_id : Z) : Stmt (option Z) :=
  query (fun d => option_map b_available_copies (find_book book_id d)).

(** SELECT is_active, max_books_allowed FROM members WHERE member_id = %s *)
Definition select_member_status (member_id : Z) : Stmt (option (bool * Z)) :=
  query (fun d =>
    option_map (fun m => (m_is_active m, m_max_books_allowed m))
               (find_member member_id d)).

Definition loan_is_active (l : Loan) : bool := LoanStatus_eqb (lt_loan_status l) Active.

Definition active_loan_of_member (member_id : Z) (l : Loan) : bool :=
  (lt_member_id l =? member_id) && loan_is_active l.

Definition active_loan_of_book (book_id : Z) (l : Loan) : bool :=
  (lt_book_id l =? book_id) && loan_is_active l.

Definition count_rows {A} (p : A -> bool) (rows : list A) : Z :=
  Z.of_nat (List.length (filter p rows)).

(** SELECT COUNT( * ) FROM loan_transactions
    WHERE member_id = %s AND loan_status = "Active" *)
Definition count_active_loans_of_member (member_id : Z) : Stmt Z :=
  query (fun d => count_rows (active_loan_of_member member_id) (loan_transactions d)).

(** SELECT COUNT( * ) FROM loan_transactions
    WHERE book_id = %s AND loan_status = "Active" *)
Definition count_active_loans_of_book (book_id : Z) : Stmt Z :=
  query (fun d => count_rows (active_loan_of_book book_id) (loan_transactions d)).

(** INSERT INTO loan_transactions
    (member_id, book_id, staff_id, loan_date, due_date, notes) *)
Definition insert_loan (loan : LoanCreate) : Stmt Z :=
  fun c d =>
    let row := mkLoan (next_transaction_id d) (lc_member_id loan) (lc_book_id loan)
                      (lc_staff_id loan) (lc_loan_date loan) (lc_due_date loan)
                      None Active (lc_notes loan) (now c) in
    inr (1, mkDB (books d) (members d) (loan_transactions d ++ [row])
                 (book_authors d) (authors d) (categories d) (publishers d)
                 (next_book_id d) (next_member_id d)
                 (next_transaction_id d + 1) (next_transaction_id d)).

Definition set_available_copies (b : Book) (n : Z) : Book :=
  mkBook (b_book_id b) (b_isbn b) (b_title b) (b_subtitle b)
         (b_publication_date b) (b_edition b) (b_pages b) (b_language b)
         (b_book_condition b) (b_location_shelf b) (b_total_copies b) n
         (b_price b) (b_publisher_id b) (b_category_id b) (b_created_at b)
         (b_updated_at b).

Definition add_available_copies (delta book_id : Z) (b : Book) : Book :=
  if b_book_id b =? book_id
  then set_available_copies b (b_available_copies b + delta)
  else b.

(** UPDATE books SET available_copies = available_copies - 1 WHERE book_id = %s
    -- the one place a copy is taken off a book; the trigger the handler's
    comment mentions belongs to the schema and is not modelled. *)
Definition decrement_available_copies (book_id : Z) : Stmt Z :=
  fun _ d =>
    inr (count_rows (fun b => b_book_id b =? book_id) (books d),
         with_books d (map (add_available_copies (-1) book_id) (books d))).

(** UPDATE books SET available_copies = available_copies + 1 WHERE book_id = %s *)
Definition increment_available_copies (book_id : Z) : Stmt Z :=
  fun _ d =>
    inr (count_rows (fun b => b_book_id b =? book_id) (books d),
         with_books d (map (add_available_copies 1 book_id) (books d))).

(** SELECT * FROM loan_transactions
    WHERE transaction_id = %s AND loan_status = 'Active' *)
Definition select_active_loan (transaction_id : Z) : Stmt (option Loan) :=
  query (fun d =>
    find (fun l => (lt_transaction_id l =? transaction_id) && loan_is_active l)
         (loan_transactions d)).

Definition mark_returned (c : Clock) (transaction_id : Z) (l : Loan) : Loan :=
  if lt_transaction_id l =? transaction_id
  then mkLoan (lt_transaction_id l) (lt_member_id l) (lt_book_id l)
              (lt_staff_id l) (lt_loan_date l) (lt_due_date l)
              (Some (today c)) Returned (lt_notes l) (now c)
  else l.

(** UPDATE loan_transactions SET loan_status = 'Returned',
    return_date = CURDATE(), updated_at = NOW() WHERE transaction_id = %s *)
Definition update_loan_returned (transaction_id : Z) : Stmt Z :=
  fun c d =>
    inr (count_rows (fun l => lt_transaction_id l =? transaction_id)
                    (loan_transactions d),
         with_loan_transactions d
           (map (mark_returned c transaction_id) (loan_transactions d))).

(** [create_loan]: the three checks, then the INSERT and the UPDATE, each in
    its own [execute_query]. *)
Definition create_loan (loan : LoanCreate) : M Content :=
  book <- execute_query (select_available_copies (lc_book_id loan)) ;;
  if match book with
     | None => true
     | Some available_copies => available_copies <=? 0
     end
  then raise (HTTPException 400 "Book is not available for loan")
  else
    member <- execute_query (select_member_status (lc_member_id loan)) ;;
    match member with
    | None => raise (HTTPException 404 "Member not found")
    | Some (member_is_active, max_books_allowed) =>
        if negb member_is_active
        then raise (HTTPException 400 "Member account is not active")
        else
          current_loans <-
            execute_query (count_active_loans_of_member (lc_member_id loan)) ;;
          if current_loans >=? max_books_allowed
          then raise (HTTPException 400
                        "Member has reached maximum book loan limit")
          else
            (execute_query (insert_loan loan) ;;;
             execute_query (decrement_available_copies (lc_book_id loan)) ;;;
             ret (StandardResponse "Book loan created successfully" None))
    end.

(** [return_book]: look the Active loan up, mark it Returned, give the copy
    back; three [execute_query] calls. *)
Definition return_book (transaction_id : Z) : M Content :=
  loan <- execute_query (select_active_loan transaction_id) ;;
  match loan with
  | None => raise (HTTPException 404 "Active loan not found")
  | Some l =>
      (execute_query (update_loan_returned transaction_id) ;;;
       execute_query (increment_available_copies (lt_book_id l)) ;;;
       ret (StandardResponse "Book returned successfully" None))
  end.

(** POST /api/loans, status 201. *)
Definition post_loans (loan : LoanCreate) : World -> Response * World :=
  route 201 (LoanCreate_valid loan) (create_loan loan).

(** PUT /api/loans/{transaction_id}/return, status 200. *)
Definition put_loans_return (transaction_id : Z) : World -> Response * World :=
  route 200 true (return_book transaction_id).

(** ** Request models *)

(** A member of an update body: absent, an explicit [null], or a value.
    [dict(exclude_unset=True)] drops the first, the handlers' test
    [value is not None] drops the second. *)
Inductive Field (A : Type) := Unset | Null | SetTo (a : A).
Arguments Unset {A}.
Arguments Null {A}.
Arguments SetTo {A} a.

Definition supplied {A} (f : Field A) : bool :=
  match f with SetTo _ => true | _ => false end.

(** The column after [SET column = %s] when the field made it into
    [update_fields], the old value otherwise. *)
Definition written {A} (f : Field A) (old : A) : A :=
  match f with SetTo v => v | _ => old end.

Definition written_nullable {A} (f : Field A) (old : option A) : option A :=
  match f with SetTo v => Some v | _ => old end.

(** Checks of [Field(...)] constraints; [None] passes every one of them. *)
Definition optional {A} (p : A -> bool) (o : option A) : bool :=
  match o with None => true | Some v => p v end.

Definition field_ok {A} (p : A -> bool) (f : Field A) : bool :=
  match f with SetTo v => p v | _ => true end.

(** [min_length] and [max_length] count characters.  A string is held as
    the bytes of its UTF-8 text, in which every character has one byte that
    is not a continuation byte (10xxxxxx). *)
Definition continuation_byte (c : ascii) : bool :=
  let n := nat_of_ascii c in (Nat.leb 128 n && Nat.ltb n 192)%bool.

Fixpoint characters (s : string) : nat :=
  match s with
  | EmptyString => 0
  | String c rest =>
      if continuation_byte c then characters rest else S (characters rest)
  end.

Definition min_length (n : nat) (s : string) : bool := Nat.leb n (characters s).
Definition max_length (n : nat) (s : string) : bool := Nat.leb (characters s) n.

Definition one_of (alternatives : list string) (s : string) : bool :=
  existsb (String.eqb s) alternatives.

Definition book_condition_pattern : string -> bool :=
  one_of ["New"; "Good"; "Fair"; "Poor"; "Damaged"].
Definition gender_pattern : string -> bool :=
  one_of ["Male"; "Female"; "Other"].
Definition membership_type_pattern : string -> bool :=
  one_of ["Regular"; "Student"; "Senior"; "Premium"].

(** An element of [authors: List[Dict[str, Any]]], read with
    [author["author_id"]] and [author.get("role", "Primary Author")].  The
    id is an integer or the key is absent ([None]); the role is absent, an
    explicit [null] or a string.  Entries whose [author_id] is [null] or no
    integer are not among the bodies considered. *)
Record AuthorRef := mkAuthorRef {
  ar_author_id : option Z;
  ar_role : Field string
}.

(** [author.get("role", "Primary Author")]: the default stands in for an
    absent key only; an explicit [null] is handed on and stored as NULL. *)
Definition author_role (author : AuthorRef) : option string :=
  match ar_role author with
  | Unset => Some "Primary Author"
  | Null => None
  | SetTo role => Some role
  end.

Record BookCreate := mkBookCreate {
  bc_isbn : string;
  bc_title : string;
  bc_subtitle : option string;
  bc_publication_date : option date;
  bc_edition : option Z;
  bc_pages : option Z;
  bc_language : option string;
  bc_book_condition : option string;
  bc_location_shelf : option string;
  bc_total_copies : Z;
  bc_available_copies : option Z;
  bc_price : option decimal;
  bc_publisher_id : option Z;
  bc_category_id : Z;
  bc_authors : option (list AuthorRef)
}.

(** [BookBase.validate_available_copies] *)
Definition validate_available_copies (v : option Z) (total_copies : Z) : bool :=
  match v with
  | Some n => negb (n >? total_copies)
  | None => true
  end.

Definition BookCreate_valid (book : BookCreate) : bool :=
  min_length 10 (bc_isbn book) && max_length 17 (bc_isbn book)
  && min_length 1 (bc_title book) && max_length 200 (bc_title book)
  && optional (max_length 200) (bc_subtitle book)
  && optional (fun n => 1 <=? n) (bc_edition book)
  && optional (fun n => 0 <? n) (bc_pages book)
  && optional (max_length 30) (bc_language book)
  && optional book_condition_pattern (bc_book_condition book)
  && optional (max_length 20) (bc_location_shelf book)
  && (1 <=? bc_total_copies book)
  && optional (fun n => 0 <=? n) (bc_available_copies book)
  && optional (fun n => 0 <=? n) (bc_price book)
  && (0 <? bc_category_id book)
  && validate_available_copies (bc_available_copies book) (bc_total_copies book).

Record BookUpdate := mkBookUpdate {
  bu_isbn : Field string;
  bu_title : Field string;
  bu_subtitle : Field string;
  bu_publication_date : Field date;
  bu_edition : Field Z;
  bu_pages : Field Z;
  bu_language : Field string;
  bu_book_condition : Field string;
  bu_location_shelf : Field string;
  bu_total_copies : Field Z;
  bu_available_copies : Field Z;
  bu_price : Field decimal;
  bu_publisher_id : Field Z;
  bu_category_id : Field Z;
  bu_authors : Field (list AuthorRef)
}.

Definition BookUpdate_valid (book : BookUpdate) : bool :=
  field_ok (fun s => min_length 10 s && max_length 17 s) (bu_isbn book)
  && field_ok (fun s => min_length 1 s && max_length 200 s) (bu_title book)
  && field_ok (max_length 200) (bu_subtitle book)
  && field_ok (fun n => 1 <=? n) (bu_edition book)
  && field_ok (fun n => 0 <? n) (bu_pages book)
  && field_ok (max_length 30) (bu_language book)
  && field_ok book_condition_pattern (bu_book_condition book)
  && field_ok (max_length 20) (bu_location_shelf book)
  && field_ok (fun n => 1 <=? n) (bu_total_copies book)
  && field_ok (fun n => 0 <=? n) (bu_available_copies book)
  && field_ok (fun n => 0 <=? n) (bu_price book)
  && field_ok (fun n => 0 <? n) (bu_category_id book).

Record MemberCreate := mkMemberCreate {
  mc_membership_number : string;
  mc_first_name : string;
  mc_last_name : string;
  mc_date_of_birth : option date;
  mc_gender : option string;
  mc_email : option string;
  mc_phone_number : option string;
  mc_address : option string;
  mc_city : option string;
  mc_postal_code : option string;
  mc_membership_type : option string;
  mc_membership_start_date : date;
  mc_membership_expiry_date : date;
  mc_max_books_allowed : option Z
}.

Record MemberUpdate := mkMemberUpdate {
  mu_membership_number : Field string;
  mu_first_name : Field string;
  mu_last_name : Field string;
  mu_date_of_birth : Field date;
  mu_gender : Field string;
  mu_email : Field string;
  mu_phone_number : Field string;
  mu_address : Field string;
  mu_city : Field string;
  mu_postal_code : Field string;
  mu_membership_type : Field string;
  mu_membership_start_date : Field date;
  mu_membership_expiry_date : Field date;
  mu_is_active : Field bool;
  mu_max_books_allowed : Field Z
}.

(** [MemberBase.validate_expiry_date] and [MemberBase.validate_birth_date] *)
Definition validate_expiry_date (v start_date : date) : bool :=
  negb (v <=? start_date).

Definition validate_birth_date (v : option date) (today : date) : bool :=
  match v with
  | Some d => negb (d >? today)
  | None => true
  end.

(** ** Python string helpers: [str.lower] and [needle in haystack] *)

Definition lower_ascii (c : ascii) : ascii :=
  let n := nat_of_ascii c in
  if (Nat.leb 65 n && Nat.leb n 90)%bool then ascii_of_nat (n + 32) else c.

Fixpoint lower (s : string) : string :=
  match s with
  | EmptyString => EmptyString
  | String c s' => String (lower_ascii c) (lower s')
  end.

Fixpoint contains (needle haystack : string) : bool :=
  (prefix needle haystack
   || match haystack with
      | EmptyString => false
      | String _ rest => contains needle rest
      end)%bool.

Fixpoint for_each {A} (items : list A) (body : A -> M unit) : M unit :=
  match items with
  | [] => ret tt
  | x :: rest => body x ;;; for_each rest body
  end.

(** MySQL error 1062 for a unique key. *)
Definition duplicate_entry (value key : string) : exn :=
  IntegrityError
    (String.append "1062 (23000): Duplicate entry '"
       (String.append value (String.append "' for key '" (String.append key "'")))).

(** MySQL error 1048 for a column that is NOT NULL. *)
Definition cannot_be_null (column : string) : exn :=
  IntegrityError
    (String.append "1048 (23000): Column '" (String.append column "' cannot be null")).

(** ** Book endpoints *)

(** INSERT INTO books (isbn, title, ..., category_id) VALUES (...) *)
Definition insert_book (book : BookCreate) (available_copies : Z) : Stmt Z :=
  fun c d =>
    match bc_edition book, bc_language book, bc_book_condition book with
    | None, _, _ => inl (cannot_be_null "edition")
    | _, None, _ => inl (cannot_be_null "language")
    | _, _, None => inl (cannot_be_null "book_condition")
    | Some edition, Some language, Some book_condition =>
        if existsb (fun b => String.eqb (b_isbn b) (bc_isbn book)) (books d)
        then inl (duplicate_entry (bc_isbn book) "isbn")
        else
          let row := mkBook (next_book_id d) (bc_isbn book) (bc_title book)
                       (bc_subtitle book) (bc_publication_date book)
                       edition (bc_pages book) language book_condition
                       (bc_location_shelf book) (bc_total_copies book)
                       available_copies (bc_price book) (bc_publisher_id book)
                       (bc_category_id book) (now c) (now c) in
          inr (1, mkDB (books d ++ [row]) (members d) (loan_transactions d)
                       (book_authors d) (authors d) (categories d) (publishers d)
                       (next_book_id d + 1) (next_member_id d)
                       (next_transaction_id d) (next_book_id d))
    end.

(** SELECT LAST_INSERT_ID(), in an [execute_query] of its own: the
    statement runs on a connection fresh from the pool, and the pool
    ([pool_reset_session: True]) resets the session of every connection it
    takes back, so the value is that of a session that has inserted
    nothing. *)
Definition select_last_insert_id : Stmt Z := query (fun _ => 0).

(** INSERT INTO book_authors (book_id, author_id, author_role) *)
Definition insert_book_author (book_id author_id : Z) (role : option string)
    : Stmt Z :=
  fun _ d =>
    inr (1, with_book_authors d
              (book_authors d ++ [mkBookAuthor book_id author_id role])).

Definition insert_author_links (book_id : Z) (refs : list AuthorRef) : M unit :=
  for_each refs (fun author =>
    match ar_author_id author with
    | None => raise (KeyError "author_id")
    | Some author_id =>
        execute_query
          (insert_book_author book_id author_id (author_role author)) ;;;
        ret tt
    end).

(** [create_book]: the whole body sits in [try: ... except
    mysql.connector.IntegrityError]. *)
Definition create_book (book : BookCreate) : M Content :=
  try_except
    (let available_copies :=
       match bc_available_copies book with
       | Some n => n
       | None => bc_total_copies book
       end in
     execute_transaction [insert_book book available_copies] ;;;
     book_id <- execute_query select_last_insert_id ;;
     match bc_authors book with
     | Some (a :: rest) => insert_author_links book_id (a :: rest)
     | _ => ret tt
     end ;;;
     ret (StandardResponse "Book created successfully"
            (Some [("book_id", book_id)])))
    (fun e =>
       match e with
       | IntegrityError msg =>
           Some (if contains "isbn" (lower msg)
                 then raise (HTTPException 409 "Book with this ISBN already exists")
                 else raise (HTTPException 400 "Data integrity error"))
       | _ => None
       end).

(** SELECT book_id FROM books WHERE book_id = %s *)
Definition select_book_id (book_id : Z) : Stmt (option Z) :=
  query (fun d => option_map b_book_id (find_book book_id d)).

(** The loop over [book.dict(exclude_unset=True).items()]: one entry of
    [update_fields] per field other than [authors] that is set and not None. *)
Definition placeholder {A} (column : string) (f : Field A) : list string :=
  if supplied f then [String.append column " = %s"] else [].

Definition book_update_fields (book : BookUpdate) : list string :=
  placeholder "isbn" (bu_isbn book) ++ placeholder "title" (bu_title book)
  ++ placeholder "subtitle" (bu_subtitle book)
  ++ placeholder "publication_date" (bu_publication_date book)
  ++ placeholder "edition" (bu_edition book)
  ++ placeholder "pages" (bu_pages book)
  ++ placeholder "language" (bu_language book)
  ++ placeholder "book_condition" (bu_book_condition book)
  ++ placeholder "location_shelf" (bu_location_shelf book)
  ++ placeholder "total_copies" (bu_total_copies book)
  ++ placeholder "available_copies" (bu_available_copies book)
  ++ placeholder "price" (bu_price book)
  ++ placeholder "publisher_id" (bu_publisher_id book)
  ++ placeholder "category_id" (bu_category_id book).

(** The row after [SET <update_fields>, updated_at = NOW()]. *)
Definition set_book_fields (book : BookUpdate) (c : Clock) (b : Book) : Book :=
  mkBook (b_book_id b)
         (written (bu_isbn book) (b_isbn b))
         (written (bu_title book) (b_title b))
         (written_nullable (bu_subtitle book) (b_subtitle b))
         (written_nullable (bu_publication_date book) (b_publication_date b))
         (written (bu_edition book) (b_edition b))
         (written_nullable (bu_pages book) (b_pages b))
         (written (bu_language book) (b_language b))
         (written (bu_book_condition book) (b_book_condition b))
         (written_nullable (bu_location_shelf book) (b_location_shelf b))
         (written (bu_total_copies book) (b_total_copies b))
         (written (bu_available_copies book) (b_available_copies b))
         (written_nullable (bu_price book) (b_price b))
         (written_nullable (bu_publisher_id book) (b_publisher_id b))
         (written (bu_category_id book) (b_category_id b))
         (b_created_at b)
         (now c).

(** UPDATE books SET <update_fields>, updated_at = NOW() WHERE book_id = %s *)
Definition update_books_set (book : BookUpdate) (book_id : Z) : Stmt Z :=
  fun c d =>
    let hit b := b_book_id b =? book_id in
    let clash :=
      match bu_isbn book with
      | SetTo isbn =>
          (existsb hit (books d)
           && existsb (fun b => negb (hit b) && String.eqb (b_isbn b) isbn)
                      (books d))%bool
      | _ => false
      end in
    if clash
    then inl (duplicate_entry (written (bu_isbn book) EmptyString) "isbn")
    else
      inr (count_rows hit (books d),
           with_books d
             (map (fun b => if hit b then set_book_fields book c b else b)
                  (books d))).

(** DELETE FROM book_authors WHERE book_id = %s *)
Definition delete_book_authors (book_id : Z) : Stmt Z :=
  fun _ d =>
    inr (count_rows (fun ba => ba_book_id ba =? book_id) (book_authors d),
         with_book_authors d
           (filter (fun ba => negb (ba_book_id ba =? book_id)) (book_authors d))).

(** [update_book] *)
Definition update_book (book_id : Z) (book : BookUpdate) : M Content :=
  existing_book <- execute_query (select_book_id book_id) ;;
  match existing_book with
  | None => raise (HTTPException 404 "Book not found")
  | Some _ =>
      match book_update_fields book with
      | [] => ret tt
      | _ :: _ => execute_query (update_books_set book book_id) ;;; ret tt
      end ;;;
      match bu_authors book with
      | SetTo refs =>
          execute_query (delete_book_authors book_id) ;;;
          insert_author_links book_id refs
      | _ => ret tt
      end ;;;
      ret (StandardResponse "Book updated successfully" None)
  end.

(** DELETE FROM books WHERE book_id = %s; the rows of [book_authors] go
    with it (ON DELETE CASCADE, as the handler's comment says). *)
Definition delete_from_books (book_id : Z) : Stmt Z :=
  fun _ d =>
    inr (count_rows (fun b => b_book_id b =? book_id) (books d),
         with_book_authors
           (with_books d (filter (fun b => negb (b_book_id b =? book_id)) (books d)))
           (filter (fun ba => negb (ba_book_id ba =? book_id)) (book_authors d))).

(** [delete_book] *)
Definition delete_book (book_id : Z) : M Content :=
  existing_book <- execute_query (select_book_id book_id) ;;
  match existing_book with
  | None => raise (HTTPException 404 "Book not found")
  | Some _ =>
      active_loans <- execute_query (count_active_loans_of_book book_id) ;;
      if active_loans >? 0
      then raise (HTTPException 400 "Cannot delete book with active loans")
      else
        (execute_query (delete_from_books book_id) ;;;
         ret (StandardResponse "Book deleted successfully" None))
  end.

(** ** Member endpoints *)

Definition same_email (e : string) (m : Member) : bool :=
  match m_email m with
  | Some e' => String.eqb e' e
  | None => false
  end.

(** INSERT INTO members (membership_number, ..., max_books_allowed) *)
Definition insert_member (member : MemberCreate) : Stmt Z :=
  fun c d =>
    match mc_membership_type member, mc_max_books_allowed member with
    | None, _ => inl (cannot_be_null "membership_type")
    | _, None => inl (cannot_be_null "max_books_allowed")
    | Some membership_type, Some max_books_allowed =>
        if existsb (fun m => String.eqb (m_membership_number m)
                                        (mc_membership_number member))
                   (members d)
        then inl (duplicate_entry (mc_membership_number member) "membership_number")
        else if match mc_email member with
                | Some e => existsb (same_email e) (members d)
                | None => false
                end
        then inl (duplicate_entry
                    (match mc_email member with Some e => e | None => EmptyString end)
                    "email")
        else
          let row := mkMember (next_member_id d) (mc_membership_number member)
                       (mc_first_name member) (mc_last_name member)
                       (mc_date_of_birth member) (mc_gender member)
                       (mc_email member) (mc_phone_number member)
                       (mc_address member) (mc_city member)
                       (mc_postal_code member) membership_type
                       (mc_membership_start_date member)
                       (mc_membership_expiry_date member)
                       true max_books_allowed (now c) (now c) in
          inr (1, mkDB (books d) (members d ++ [row]) (loan_transactions d)
                       (book_authors d) (authors d) (categories d) (publishers d)
                       (next_book_id d) (next_member_id d + 1)
                       (next_transaction_id d) (next_member_id d))
    end.

(** [create_member]: the body sits in [try: ... except
    mysql.connector.IntegrityError]. *)
Definition create_member (member : MemberCreate) : M Content :=
  try_except
    (execute_query (insert_member member) ;;;
     member_id <- execute_query select_last_insert_id ;;
     ret (StandardResponse "Member created successfully"
            (Some [("member_id", member_id)])))
    (fun e =>
       match e with
       | IntegrityError msg =>
           Some (if (contains "membership_number" (lower msg)
                     || contains "email" (lower msg))%bool
                 then raise (HTTPException 409
                   "Member with this membership number or email already exists")
                 else raise (HTTPException 400 "Data integrity error"))
       | _ => None
       end).

(** SELECT member_id FROM members WHERE member_id = %s *)
Definition select_member_id (member_id : Z) : Stmt (option Z) :=
  query (fun d => option_map m_member_id (find_member member_id d)).

Definition member_update_fields (member : MemberUpdate) : list string :=
  placeholder "membership_number" (mu_membership_number member)
  ++ placeholder "first_name" (mu_first_name member)
  ++ placeholder "last_name" (mu_last_name member)
  ++ placeholder "date_of_birth" (mu_date_of_birth member)
  ++ placeholder "gender" (mu_gender member)
  ++ placeholder "email" (mu_email member)
  ++ placeholder "phone_number" (mu_phone_number member)
  ++ placeholder "address" (mu_address member)
  ++ placeholder "city" (mu_city member)
  ++ placeholder "postal_code" (mu_postal_code member)
  ++ placeholder "membership_type" (mu_membership_type member)
  ++ placeholder "membership_start_date" (mu_membership_start_date member)
  ++ placeholder "membership_expiry_date" (mu_membership_expiry_date member)
  ++ placeholder "is_active" (mu_is_active member)
  ++ placeholder "max_books_allowed" (mu_max_books_allowed member).

(** The row after [SET <update_fields>, updated_at = NOW()]. *)
Definition set_member_fields (member : MemberUpdate) (c : Clock) (m : Member)
    : Member :=
  mkMember (m_member_id m)
           (written (mu_membership_number member) (m_membership_number m))
           (written (mu_first_name member) (m_first_name m))
           (written (mu_last_name member) (m_last_name m))
           (written_nullable (mu_date_of_birth member) (m_date_of_birth m))
           (written_nullable (mu_gender member) (m_gender m))
           (written_nullable (mu_email member) (m_email m))
           (written_nullable (mu_phone_number member) (m_phone_number m))
           (written_nullable (mu_address member) (m_address m))
           (written_nullable (mu_city member) (m_city m))
           (written_nullable (mu_postal_code member) (m_postal_code m))
           (written (mu_membership_type member) (m_membership_type m))
           (written (mu_membership_start_date member) (m_membership_start_date m))
           (written (mu_membership_expiry_date member) (m_membership_expiry_date m))
           (written (mu_is_active member) (m_is_active m))
           (written (mu_max_books_allowed member) (m_max_books_allowed m))
           (m_created_at m)
           (now c).

(** UPDATE members SET <update_fields>, updated_at = NOW() WHERE member_id = %s *)
Definition update_members_set (member : MemberUpdate) (member_id : Z) : Stmt Z :=
  fun c d =>
    let hit m := m_member_id m =? member_id in
    let others p := (existsb hit (members d)
                     && existsb (fun m => negb (hit m) && p m) (members d))%bool in
    if match mu_membership_number member with
       | SetTo n => others (fun m => String.eqb (m_membership_number m) n)
       | _ => false
       end
    then inl (duplicate_entry (written (mu_membership_number member) EmptyString)
                              "membership_number")
    else if match mu_email member with
            | SetTo e => others (same_email e)
            | _ => false
            end
    then inl (duplicate_entry (written (mu_email member) EmptyString) "email")
    else
      inr (count_rows hit (members d),
           with_members d
             (map (fun m => if hit m then set_member_fields member c m else m)
                  (members d))).

(** [update_member] *)
Definition update_member (member_id : Z) (member : MemberUpdate) : M Content :=
  existing_member <- execute_query (select_member_id member_id) ;;
  match existing_member with
  | None => raise (HTTPException 404 "Member not found")
  | Some _ =>
      match member_update_fields member with
      | [] => ret tt
      | _ :: _ => execute_query (update_members_set member member_id) ;;; ret tt
      end ;;;
      ret (StandardResponse "Member updated successfully" None)
  end.

Definition deactivate (c : Clock) (member_id : Z) (m : Member) : Member :=
  if m_member_id m =? member_id
  then mkMember (m_member_id m) (m_membership_number m) (m_first_name m)
                (m_last_name m) (m_date_of_birth m) (m_gender m) (m_email m)
                (m_phone_number m) (m_address m) (m_city m) (m_postal_code m)
                (m_membership_type m) (m_membership_start_date m)
                (m_membership_expiry_date m) false (m_max_books_allowed m)
                (m_created_at m) (now c)
  else m.

(** UPDATE members SET is_active = 0, updated_at = NOW() WHERE member_id = %s *)
Definition update_members_deactivate (member_id : Z) : Stmt Z :=
  fun c d =>
    inr (count_rows (fun m => m_member_id m =? member_id) (members d),
         with_members d (map (deactivate c member_id) (members d))).

(** [delete_member]: a soft delete. *)
Definition delete_member (member_id : Z) : M Content :=
  existing_member <- execute_query (select_member_id member_id) ;;
  match existing_member with
  | None => raise (HTTPException 404 "Member not found")
  | Some _ =>
      active_loans <- execute_query (count_active_loans_of_member member_id) ;;
      if active_loans >? 0
      then raise (HTTPException 400
        "Cannot delete member with active loans. Please return all books first.")
      else
        (execute_query (update_members_deactivate member_id) ;;;
         ret (StandardResponse "Member deactivated successfully" None))
  end.

(** ** The catalogue query builder and the routes

    Three things are decided outside [api.py]: what pydantic's [EmailStr]
    accepts, what MySQL's [LIKE] matches under the column collation, and how
    the collation orders titles. *)

Section Application.

Variable email_str : string -> bool.
Variable like : string -> string -> bool.        (* value LIKE pattern *)
Variable title_le : string -> string -> bool.    (* ORDER BY b.title *)

(** [if search:] / [if category:] -- None and the empty string add no filter. *)
Definition truthy (s : option string) : option string :=
  match s with
  | Some (String c rest) => Some (String c rest)
  | _ => None
  end.

(** LEFT JOIN book_authors ba ... LEFT JOIN authors a ...: the values of
    CONCAT(a.first_name, ' ', a.last_name) on the joined rows of one book. *)
Definition joined_author_names (d : DB) (b : Book) : list (option string) :=
  match filter (fun ba => ba_book_id ba =? b_book_id b) (book_authors d) with
  | [] => [None]
  | links =>
      flat_map (fun ba =>
        match filter (fun a => a_author_id a =? ba_author_id ba) (authors d) with
        | [] => [None]
        | matched =>
            map (fun a => Some (String.append (a_first_name a)
                                  (String.append " " (a_last_name a))))
                matched
        end) links
  end.

Definition joined_category_name (d : DB) (b : Book) : option string :=
  option_map c_category_name
    (find (fun c => c_category_id c =? b_category_id b) (categories d)).

Definition joined_publisher_name (d : DB) (b : Book) : option string :=
  match b_publisher_id b with
  | Some pid =>
      option_map p_publisher_name
        (find (fun p => p_publisher_id p =? pid) (publishers d))
  | None => None
  end.

(** The WHERE clause both queries of [get_books] build, on one joined row. *)
Definition books_where (search category : option string) (available : option bool)
    (d : DB) (b : Book) (author_name : option string) : bool :=
  match truthy search with
  | Some s =>
      let search_param := String.append "%" (String.append s "%") in
      like (b_title b) search_param || like (b_isbn b) search_param
      || match author_name with
         | Some n => like n search_param
         | None => false
         end
  | None => true
  end
  && match truthy category with
     | Some name =>
         match joined_category_name d b with
         | Some c => String.eqb c name
         | None => false
         end
     | None => true
     end
  && match available with
     | Some true => b_available_copies b >? 0
     | Some false => b_available_copies b =? 0
     | None => true
     end.

(** GROUP_CONCAT(... SEPARATOR ', ') over the non-NULL names of a group. *)
Fixpoint group_concat (names : list (option string)) : option string :=
  match names with
  | [] => None
  | None :: rest => group_concat rest
  | Some n :: rest =>
      match group_concat rest with
      | Some tail => Some (String.append n (String.append ", " tail))
      | None => Some n
      end
  end.

(** WHERE ... GROUP BY b.book_id: one row per book with a joined row left. *)
Definition matching_books (search category : option string)
    (available : option bool) (d : DB) : list BookResponse :=
  flat_map (fun b =>
    match filter (books_where search category available d b)
                 (joined_author_names d b) with
    | [] => []
    | group => [mkBookResponse b (joined_category_name d b)
                               (joined_publisher_name d b) (group_concat group)]
    end) (books d).

Fixpoint insert_by_title (r : BookResponse) (rows : list BookResponse)
    : list BookResponse :=
  match rows with
  | [] => [r]
  | x :: rest =>
      if title_le (b_title (br_book r)) (b_title (br_book x))
      then r :: x :: rest
      else x :: insert_by_title r rest
  end.

Definition order_by_title (rows : list BookResponse) : list BookResponse :=
  fold_right insert_by_title [] rows.

(** books_query: ... GROUP BY b.book_id ORDER BY b.title LIMIT %s OFFSET %s *)
Definition select_books (search category : option string) (available : option bool)
    (limit offset : Z) : Stmt (list BookResponse) :=
  query (fun d =>
    firstn (Z.to_nat limit)
      (skipn (Z.to_nat offset)
         (order_by_title (matching_books search category available d)))).

(** count_query: SELECT COUNT(DISTINCT b.book_id) as total ... *)
Definition select_books_count (search category : option string)
    (available : option bool) : Stmt Z :=
  query (fun d =>
    Z.of_nat (List.length (matching_books search category available d))).

(** [get_books] *)
Definition get_books (page limit : Z) (search category : option string)
    (available : option bool) : M Content :=
  let offset := (page - 1) * limit in
  books <- execute_query (select_books search category available limit offset) ;;
  total <- execute_query (select_books_count search category available) ;;
  ret (BookListResponse books
         (mkPagination page limit total ((total + limit - 1) / limit))).

(** [Query(1, ge=1)] and [Query(10, ge=1, le=100)] *)
Definition paging_valid (page limit : Z) : bool :=
  (1 <=? page) && (1 <=? limit) && (limit <=? 100).

Definition MemberCreate_valid (today : date) (member : MemberCreate) : bool :=
  min_length 1 (mc_membership_number member)
  && max_length 20 (mc_membership_number member)
  && min_length 1 (mc_first_name member) && max_length 50 (mc_first_name member)
  && min_length 1 (mc_last_name member) && max_length 50 (mc_last_name member)
  && validate_birth_date (mc_date_of_birth member) today
  && optional gender_pattern (mc_gender member)
  && optional email_str (mc_email member)
  && optional (max_length 20) (mc_phone_number member)
  && optional (max_length 255) (mc_address member)
  && optional (max_length 50) (mc_city member)
  && optional (max_length 10) (mc_postal_code member)
  && optional membership_type_pattern (mc_membership_type member)
  && validate_expiry_date (mc_membership_expiry_date member)
                          (mc_membership_start_date member)
  && optional (fun n => 0 <? n) (mc_max_books_allowed member).

Definition MemberUpdate_valid (member : MemberUpdate) : bool :=
  field_ok (fun s => min_length 1 s && max_length 20 s) (mu_membership_number member)
  && field_ok (fun s => min_length 1 s && max_length 50 s) (mu_first_name member)
  && field_ok (fun s => min_length 1 s && max_length 50 s) (mu_last_name member)
  && field_ok gender_pattern (mu_gender member)
  && field_ok email_str (mu_email member)
  && field_ok (max_length 20) (mu_phone_number member)
  && field_ok (max_length 255) (mu_address member)
  && field_ok (max_length 50) (mu_city member)
  && field_ok (max_length 10) (mu_postal_code member)
  && field_ok membership_type_pattern (mu_membership_type member)
  && field_ok (fun n => 0 <? n) (mu_max_books_allowed member).

(** The requests of the modelled routes, as the handlers get them: path and
    query parameters converted to the types of the signatures, bodies parsed
    into their models.  [Arrival] below has the requests that do not get so
    far. *)
Inductive Request :=
| GetBooks (page limit : Z) (search category : option string)
           (available : option bool)
| PostBooks (book : BookCreate)
| PutBooks (book_id : Z) (book : BookUpdate)
| DeleteBooks (book_id : Z)
| PostMembers (member : MemberCreate)
| PutMembers (member_id : Z) (member : MemberUpdate)
| DeleteMembers (member_id : Z)
| PostLoans (loan : LoanCreate)
| PutLoansReturn (transaction_id : Z).

Definition serve (r : Request) (w : World) : Response * World :=
  match r with
  | GetBooks page limit search category available =>
      route 200 (paging_valid page limit)
            (get_books page limit search category available) w
  | PostBooks book => route 201 (BookCreate_valid book) (create_book book) w
  | PutBooks book_id book =>
      route 200 (BookUpdate_valid book) (update_book book_id book) w
  | DeleteBooks book_id => route 200 true (delete_book book_id) w
  | PostMembers member =>
      route 201 (MemberCreate_valid (today (clock w)) member)
            (create_member member) w
  | PutMembers member_id member =>
      route 200 (MemberUpdate_valid member) (update_member member_id member) w
  | DeleteMembers member_id => route 200 true (delete_member member_id) w
  | PostLoans loan => post_loans loan w
  | PutLoansReturn transaction_id => put_loans_return transaction_id w
  end.

(** A call: a request together with the clock and the faults it meets. *)
Record Call := mkCall {
  call_clock : Clock;
  call_faults : list fault;
  call_request : Request
}.

Definition step (c : Call) (d : DB) : Response * DB :=
  let (r, w) := serve (call_request c) (mkWorld d (call_clock c) (call_faults c)) in
  (r, db w).

Fixpoint run (calls : list Call) (d : DB) : DB :=
  match calls with
  | [] => d
  | c :: rest => run rest (snd (step c d))
  end.

(** The status codes a run of calls is answered with. *)
Fixpoint trace (calls : list Call) (d : DB) : list Z :=
  match calls with
  | [] => []
  | c :: rest => status_code (fst (step c d)) :: trace rest (snd (step c d))
  end.

(** A member update that does not put [max_books_allowed] below the number
    of loans the member has Active when the call arrives. *)
Definition keeps_limit (r : Request) (d : DB) : bool :=
  match r with
  | PutMembers member_id member =>
      match mu_max_books_allowed member with
      | SetTo k =>
          count_rows (active_loan_of_member member_id) (loan_transactions d) <=? k
      | _ => true
      end
  | _ => true
  end.

Fixpoint keep_limits (calls : list Call) (d : DB) : Prop :=
  match calls with
  | [] => True
  | c :: rest =>
      keeps_limit (call_request c) d = true /\ keep_limits rest (snd (step c d))
  end.

End Application.

(** ** Sequences of calls to one route *)

Fixpoint serve_all {Req : Type} (handler : Req -> World -> Response * World)
    (calls : list (Clock * list fault * Req)) (d : DB) : list Response * DB :=
  match calls with
  | [] => ([], d)
  | (c, fs, req) :: rest =>
      let (r, w) := handler req (mkWorld d c fs) in
      let (rs, d') := serve_all handler rest (db w) in
      (r :: rs, d')
  end.

(** ** Vocabulary of the specification *)

(** The failures of BorrowBook, by the names the specification gives them. *)
Inductive BorrowError :=
| InvalidInput | BookUnavailable | MemberNotFound | MemberInactive
| LoanLimitExceeded.

(** The preconditions of BorrowBook as the specification lists them, in its
    order, first failure first. *)
Definition BorrowBook_preconditions (d : DB) (loan : LoanCreate)
    : option BorrowError :=
  if negb (lc_due_date loan >? lc_loan_date loan) then Some InvalidInput
  else
    match find_book (lc_book_id loan) d with
    | None => Some BookUnavailable
    | Some b =>
        if negb (b_available_copies b >? 0) then Some BookUnavailable
        else
          match find_member (lc_member_id loan) d with
          | None => Some MemberNotFound
          | Some m =>
              if negb (m_is_active m) then Some MemberInactive
              else if negb (count_rows (active_loan_of_member (lc_member_id loan))
                                       (loan_transactions d)
                            <? m_max_books_allowed m)
              then Some LoanLimitExceeded
              else None
          end
    end.

(** How each failure reaches the client. *)
Definition borrow_error_response (e : BorrowError) : Response :=
  match e with
  | InvalidInput => mkResponse 422 RequestValidationError
  | BookUnavailable =>
      mkResponse 400 (ErrorContent "Book is not available for loan")
  | MemberNotFound => mkResponse 404 (ErrorContent "Member not found")
  | MemberInactive =>
      mkResponse 400 (ErrorContent "Member account is not active")
  | LoanLimitExceeded =>
      mkResponse 400 (ErrorContent "Member has reached maximum book loan limit")
  end.

(** LoanNotFound, as ReturnBook reports it. *)
Definition loan_not_found_response : Response :=
  mkResponse 404 (ErrorContent "Active loan not found").

(** A member of the [data] object of a response, if it has one. *)
Definition response_data_member (key : string) (r : Response) : option Z :=
  match content r with
  | StandardResponse _ (Some obj) =>
      option_map snd (find (fun kv => String.eqb (fst kv) key) obj)
  | _ => None
  end.

Definition available_copies_of (book_id : Z) (d : DB) : option Z :=
  option_map b_available_copies (find_book book_id d).

Definition active_loans_of_member (member_id : Z) (d : DB) : Z :=
  count_rows (active_loan_of_member member_id) (loan_transactions d).

(** No row of [loan_transactions] with this id is Active. *)
Definition not_active (transaction_id : Z) (d : DB) : Prop :=
  forall l, In l (loan_transactions d) ->
            lt_transaction_id l = transaction_id ->
            lt_loan_status l <> Active.

(** AUTO_INCREMENT: the ids in [loan_transactions] are below the counter. *)
Definition transaction_ids_fresh (d : DB) : Prop :=
  forall l, In l (loan_transactions d) ->
            lt_transaction_id l < next_transaction_id d.

(** The rows of [loan_transactions] that [d'] has beyond those of [d]. *)
Definition loans_added (d d' : DB) : list Loan :=
  skipn (List.length (loan_transactions d)) (loan_transactions d').

(** What a completed [return_book] has done to the database. *)
Definition returned (c : Clock) (tid book_id : Z) (d : DB) : DB :=
  with_books
    (with_loan_transactions d (map (mark_returned c tid) (loan_transactions d)))
    (map (add_available_copies 1 book_id) (books d)).

(** The row [insert_loan] adds, and what a completed [create_loan] has done
    to the database. *)
Definition loan_row (c : Clock) (loan : LoanCreate) (d : DB) : Loan :=
  mkLoan (next_transaction_id d) (lc_member_id loan) (lc_book_id loan)
         (lc_staff_id loan) (lc_loan_date loan) (lc_due_date loan)
         None Active (lc_notes loan) (now c).

Definition loan_inserted (c : Clock) (loan : LoanCreate) (d : DB) : DB :=
  mkDB (books d) (members d) (loan_transactions d ++ [loan_row c loan d])
       (book_authors d) (authors d) (categories d) (publishers d)
       (next_book_id d) (next_member_id d)
       (next_transaction_id d + 1) (next_transaction_id d).

Definition borrowed (c : Clock) (loan : LoanCreate) (d : DB) : DB :=
  with_books (loan_inserted c loan d)
             (map (add_available_copies (-1) (lc_book_id loan)) (books d)).

(** Calls that meet no fault. *)
Definition quiet {Req : Type} (calls : list (Clock * Req))
    : list (Clock * list fault * Req) :=
  map (fun call => (fst call, [], snd call)) calls.

(** ** Sample data, after the bodies of [test_books_api],
    [test_members_api] and [test_loan_system] *)

Definition sample_book : Book :=
  mkBook 1 "978-0-123456-78-9" "Test Book for API" (Some "A comprehensive guide")
         None 1 None "English" "New" None 3 3 (Some 2599) (Some 1) 1 1000 1000.

Definition sample_member : Member :=
  mkMember 1 "TEST2024001" "Test" "User" None None (Some "test.user@example.com")
           (Some "+1-555-0199") None None None "Regular" 0 365 true 2 1000 1000.

Definition sample_db : DB :=
  mkDB [sample_book] [sample_member] [] [] [] [] [] 2 2 1 0.

Definition sample_loan : LoanCreate := mkLoanCreate 1 1 None 10 24 None.

Definition sample_clock : Clock := mkClock 10 1000.

(** ** Invariants and frames *)

(** Every handler run relates the database it finds to the one it leaves. *)
Definition stable {A} (P : DB -> DB -> Prop) (m : M A) : Prop :=
  forall w, P (db w) (db (snd (m w))).

Definition stmt_stable {A} (P : DB -> DB -> Prop) (q : Stmt A) : Prop :=
  forall c d a d', q c d = inr (a, d') -> P d d'.

(** No member has more Active loans than [max_books_allowed]. *)
Definition limits_hold (d : DB) : Prop :=
  forall id m, find_member id d = Some m ->
               active_loans_of_member id d <= m_max_books_allowed m.

(** Every Active loan belongs to a member of the table. *)
Definition borrowers_exist (d : DB) : Prop :=
  forall l, In l (loan_transactions d) -> loan_is_active l = true ->
            find_member (lt_member_id l) d <> None.

Definition same_loans (d d' : DB) : Prop :=
  loan_transactions d' = loan_transactions d
  /\ next_transaction_id d' = next_transaction_id d.

Definition same_members_and_loans (d d' : DB) : Prop :=
  members d' = members d /\ same_loans d d'.

Definition keeps_transaction_ids_fresh (d d' : DB) : Prop :=
  transaction_ids_fresh d -> transaction_ids_fresh d'.

Definition same_books (d d' : DB) : Prop :=
  books d' = books d /\ next_book_id d' = next_book_id d.

(** What the member handlers leave alone. *)
Definition same_books_and_loans (d d' : DB) : Prop :=
  same_books d d' /\ same_loans d d'.

(** No book has a negative number of available copies. *)
Definition copies_nonnegative (d : DB) : Prop :=
  forall b, In b (books d) -> 0 <= b_available_copies b.

(** AUTO_INCREMENT: the keys of [books] differ and lie below the counter. *)
Definition book_ids_unique (d : DB) : Prop :=
  NoDup (map b_book_id (books d))
  /\ forall b, In b (books d) -> b_book_id b < next_book_id d.

Definition stock_invariant (d : DB) : Prop :=
  copies_nonnegative d /\ book_ids_unique d.

Definition keeps_stock_invariant (d d' : DB) : Prop :=
  stock_invariant d -> stock_invariant d'.

Definition lending_invariant (d : DB) : Prop :=
  limits_hold d /\ borrowers_exist d.

Definition keeps_lending_invariant (d d' : DB) : Prop :=
  lending_invariant d -> lending_invariant d'.

(** The limit a member update asks for covers the loans the member has. *)
Definition limit_covers_loans (member_id : Z) (member : MemberUpdate) (d : DB)
    : Prop :=
  match mu_max_books_allowed member with
  | SetTo k => active_loans_of_member member_id d <= k
  | _ => True
  end.

Definition keeps_lending_invariant_under (member_id : Z) (member : MemberUpdate)
    (d d' : DB) : Prop :=
  lending_invariant d /\ limit_covers_loans member_id member d ->
  lending_invariant d' /\ limit_covers_loans member_id member d'.

(** ** Columns, for statements about single fields of an update *)

Inductive Cell := CNull | CInt (z : Z) | CText (s : string) | CBool (b : bool).

Definition cell_of {A} (inj : A -> Cell) (o : option A) : Cell :=
  match o with Some v => inj v | None => CNull end.

Module BookColumn.
Inductive t :=
| isbn | title | subtitle | publication_date | edition | pages | language
| book_condition | location_shelf | total_copies | available_copies | price
| publisher_id | category_id.
End BookColumn.

Definition book_cell (col : BookColumn.t) (b : Book) : Cell :=
  match col with
  | BookColumn.isbn => CText (b_isbn b)
  | BookColumn.title => CText (b_title b)
  | BookColumn.subtitle => cell_of CText (b_subtitle b)
  | BookColumn.publication_date => cell_of CInt (b_publication_date b)
  | BookColumn.edition => CInt (b_edition b)
  | BookColumn.pages => cell_of CInt (b_pages b)
  | BookColumn.language => CText (b_language b)
  | BookColumn.book_condition => CText (b_book_condition b)
  | BookColumn.location_shelf => cell_of CText (b_location_shelf b)
  | BookColumn.total_copies => CInt (b_total_copies b)
  | BookColumn.available_copies => CInt (b_available_copies b)
  | BookColumn.price => cell_of CInt (b_price b)
  | BookColumn.publisher_id => cell_of CInt (b_publisher_id b)
  | BookColumn.category_id => CInt (b_category_id b)
  end.

(** Whether the body carries a value (not null, not omitted) for a column. *)
Definition book_field_supplied (col : BookColumn.t) (book : BookUpdate) : bool :=
  match col with
  | BookColumn.isbn => supplied (bu_isbn book)
  | BookColumn.title => supplied (bu_title book)
  | BookColumn.subtitle => supplied (bu_subtitle book)
  | BookColumn.publication_date => supplied (bu_publication_date book)
  | BookColumn.edition => supplied (bu_edition book)
  | BookColumn.pages => supplied (bu_pages book)
  | BookColumn.language => supplied (bu_language book)
  | BookColumn.book_condition => supplied (bu_book_condition book)
  | BookColumn.location_shelf => supplied (bu_location_shelf book)
  | BookColumn.total_copies => supplied (bu_total_copies book)
  | BookColumn.available_copies => supplied (bu_available_copies book)
  | BookColumn.price => supplied (bu_price book)
  | BookColumn.publisher_id => supplied (bu_publisher_id book)
  | BookColumn.category_id => supplied (bu_category_id book)
  end.

Module MemberColumn.
Inductive t :=
| membership_number | first_name | last_name | date_of_birth | gender | email
| phone_number | address | city | postal_code | membership_type
| membership_start_date | membership_expiry_date | is_active
| max_books_allowed.
End MemberColumn.

Definition member_cell (col : MemberColumn.t) (m : Member) : Cell :=
  match col with
  | MemberColumn.membership_number => CText (m_membership_number m)
  | MemberColumn.first_name => CText (m_first_name m)
  | MemberColumn.last_name => CText (m_last_name m)
  | MemberColumn.date_of_birth => cell_of CInt (m_date_of_birth m)
  | MemberColumn.gender => cell_of CText (m_gender m)
  | MemberColumn.email => cell_of CText (m_email m)
  | MemberColumn.phone_number => cell_of CText (m_phone_number m)
  | MemberColumn.address => cell_of CText (m_address m)
  | MemberColumn.city => cell_of CText (m_city m)
  | MemberColumn.postal_code => cell_of CText (m_postal_code m)
  | MemberColumn.membership_type => CText (m_membership_type m)
  | MemberColumn.membership_start_date => CInt (m_membership_start_date m)
  | MemberColumn.membership_expiry_date => CInt (m_membership_expiry_date m)
  | MemberColumn.is_active => CBool (m_is_active m)
  | MemberColumn.max_books_allowed => CInt (m_max_books_allowed m)
  end.

Definition member_field_supplied (col : MemberColumn.t) (member : MemberUpdate)
    : bool :=
  match col with
  | MemberColumn.membership_number => supplied (mu_membership_number member)
  | MemberColumn.first_name => supplied (mu_first_name member)
  | MemberColumn.last_name => supplied (mu_last_name member)
  | MemberColumn.date_of_birth => supplied (mu_date_of_birth member)
  | MemberColumn.gender => supplied (mu_gender member)
  | MemberColumn.email => supplied (mu_email member)
  | MemberColumn.phone_number => supplied (mu_phone_number member)
  | MemberColumn.address => supplied (mu_address member)
  | MemberColumn.city => supplied (mu_city member)
  | MemberColumn.postal_code => supplied (mu_postal_code member)
  | MemberColumn.membership_type => supplied (mu_membership_type member)
  | MemberColumn.membership_start_date => supplied (mu_membership_start_date member)
  | MemberColumn.membership_expiry_date => supplied (mu_membership_expiry_date member)
  | MemberColumn.is_active => supplied (mu_is_active member)
  | MemberColumn.max_books_allowed => supplied (mu_max_books_allowed member)
  end.

(** What an update may do to a row: keep the key, leave alone every column
    the body has no value for, and put no NULL where there was a value. *)
Definition book_row_patched (book : BookUpdate) (b b' : Book) : Prop :=
  b_book_id b' = b_book_id b
  /\ (forall col, book_field_supplied col book = false ->
                  book_cell col b' = book_cell col b)
  /\ (forall col, book_cell col b' = CNull -> book_cell col b = CNull).

Definition member_row_patched (member : MemberUpdate) (m m' : Member) : Prop :=
  m_member_id m' = m_member_id m
  /\ (forall col, member_field_supplied col member = false ->
                  member_cell col m' = member_cell col m)
  /\ (forall col, member_cell col m' = CNull -> member_cell col m = CNull).

(** A stand-in platform for concrete runs: an address is anything with an
    [@], [LIKE '%s%'] is containment, titles are ordered as byte strings. *)
Definition sample_email_str (s : string) : bool := contains "@" s.

Definition strip_percent (pattern : string) : string :=
  substring 1 (String.length pattern - 2) pattern.

Definition sample_like (value pattern : string) : bool :=
  contains (strip_percent pattern) value.

Definition sample_title_le : string -> string -> bool := String.leb.

Definition sample_serve : Request -> World -> Response * World :=
  serve sample_email_str sample_like sample_title_le.

Definition sample_run : list Call -> DB -> DB :=
  run sample_email_str sample_like sample_title_le.

Definition sample_trace : list Call -> DB -> list Z :=
  trace sample_email_str sample_like sample_title_le.

Definition sample_book_create : BookCreate :=
  mkBookCreate "978-0-123456-78-9" "Test Book for API"
               (Some "A comprehensive guide") None (Some 1) None (Some "English")
               (Some "New") None 3 (Some 3) (Some 2599) (Some 1) 1
               (Some [mkAuthorRef (Some 1) (SetTo "Primary Author")]).

Definition sample_member_create : MemberCreate :=
  mkMemberCreate "TEST2024001" "Test" "User" None None
                 (Some "test.user@example.com") (Some "+1-555-0199") None None
                 None (Some "Regular") 0 365 (Some 2).

Definition no_book_update : BookUpdate :=
  mkBookUpdate Unset Unset Unset Unset Unset Unset Unset Unset Unset Unset
               Unset Unset Unset Unset Unset.

Definition no_member_update : MemberUpdate :=
  mkMemberUpdate Unset Unset Unset Unset Unset Unset Unset Unset Unset Unset
                 Unset Unset Unset Unset Unset.

(** {"available_copies": 5} *)
Definition five_available : BookUpdate :=
  mkBookUpdate Unset Unset Unset Unset Unset Unset Unset Unset Unset Unset
               (SetTo 5) Unset Unset Unset Unset.

(** {"subtitle": null, "price": null} *)
Definition null_subtitle_and_price : BookUpdate :=
  mkBookUpdate Unset Unset Null Unset Unset Unset Unset Unset Unset Unset
               Unset Null Unset Unset Unset.

(** {"max_books_allowed": 1} *)
Definition limit_of_one : MemberUpdate :=
  mkMemberUpdate Unset Unset Unset Unset Unset Unset Unset Unset Unset Unset
                 Unset Unset Unset Unset (SetTo 1).

Definition quietly (r : Request) : Call := mkCall sample_clock [] r.

(** A member allowed two books borrows two, then has the limit set to one. *)
Definition borrowed_twice_run : list Call :=
  [quietly (PostMembers sample_member_create);
   quietly (PostBooks sample_book_create);
   quietly (PostLoans sample_loan);
   quietly (PostLoans sample_loan)].

Definition limit_lowered_run : list Call :=
  borrowed_twice_run ++ [quietly (PutMembers 1 limit_of_one)].

(** Ninety-five books and nothing else. *)
Definition shelf_book (n : nat) : Book :=
  mkBook (Z.of_nat n) "0000000000" "Untitled" None None 1 None "English" "New"
         None 1 1 None None 1 0 0.

Definition ninety_five_books : DB :=
  mkDB (map shelf_book (seq 1 95)) [] [] [] [] [] [] 96 1 1 95.

(** A book is created with three copies, then updated. *)
Definition copies_raised_run : list Call :=
  [quietly (PostBooks sample_book_create);
   quietly (PutBooks 1 five_available)].

Definition sample_borrows : list (Clock * list fault * LoanCreate) :=
  [(sample_clock, [], sample_loan); (sample_clock, [NoFault], sample_loan)].

Definition sample_returns : list (Clock * Z) :=
  [(mkClock 12 1200, 2); (mkClock 13 1300, 1)].

(** ** Vocabulary for the properties of single handlers *)

(** The status an exception leaves the application with. *)
Definition exn_status (e : exn) : Z := status_code (http_exception_handler e).

Definition raises_within {A} (codes : list Z) (m : M A) : Prop :=
  forall w e w', m w = (inl e, w') -> In (exn_status e) codes.


(** A handler that, when it raises, has written nothing; a handler that
    writes nothing when it returns. *)
Definition fails_cleanly {A} (m : M A) : Prop :=
  forall w e w', m w = (inl e, w') -> db w' = db w.

Definition read_only {A} (m : M A) : Prop :=
  forall w a w', m w = (inr a, w') -> db w' = db w.

(** Some loan of the book (of the member) is Active. *)
Definition book_on_loan (book_id : Z) (d : DB) : Prop :=
  exists l, In l (loan_transactions d) /\ lt_book_id l = book_id
            /\ lt_loan_status l = Active.

Definition member_has_loan (member_id : Z) (d : DB) : Prop :=
  exists l, In l (loan_transactions d) /\ lt_member_id l = member_id
            /\ lt_loan_status l = Active.

(** PRIMARY KEY of [loan_transactions]: no transaction id twice. *)
Definition transaction_ids_unique (d : DB) : Prop :=
  NoDup (map lt_transaction_id (loan_transactions d)).

(** The row a return leaves in place of [l]. *)
Definition returned_row (c : Clock) (l : Loan) : Loan :=
  mkLoan (lt_transaction_id l) (lt_member_id l) (lt_book_id l)
         (lt_staff_id l) (lt_loan_date l) (lt_due_date l)
         (Some (today c)) Returned (lt_notes l) (now c).

(** What may become of a row of [loan_transactions]: it stays, or it is the
    same loan marked Returned. *)
Definition loan_step (l l' : Loan) : Prop :=
  l' = l \/ exists c, l' = returned_row c l.

(** [d'] has the loans of [d], row by row and in order, each as it was or
    marked Returned, followed by the loans added since. *)
Definition loan_history_extends (d d' : DB) : Prop :=
  exists kept added,
    loan_transactions d' = kept ++ added
    /\ Forall2 loan_step (loan_transactions d) kept.

Definition loan_keys (d : DB) : Prop :=
  transaction_ids_unique d /\ transaction_ids_fresh d.

Definition keeps_loan_keys (d d' : DB) : Prop :=
  loan_keys d -> loan_keys d'.

(** The rows of [book_authors] that the loop over [authors] inserts. *)
Definition has_author_id (a : AuthorRef) : bool :=
  match ar_author_id a with Some _ => true | None => false end.

Definition author_link (book_id : Z) (a : AuthorRef) : list BookAuthor :=
  match ar_author_id a with
  | Some author_id =>
      [mkBookAuthor book_id author_id (author_role a)]
  | None => []
  end.

Definition author_links (book_id : Z) (refs : list AuthorRef) : list BookAuthor :=
  flat_map (author_link book_id) refs.

(** The value a body carries for a column, as a cell. *)
Definition sent {A} (inj : A -> Cell) (f : Field A) : Cell :=
  match f with SetTo v => inj v | _ => CNull end.

Definition book_field_cell (col : BookColumn.t) (book : BookUpdate) : Cell :=
  match col with
  | BookColumn.isbn => sent CText (bu_isbn book)
  | BookColumn.title => sent CText (bu_title book)
  | BookColumn.subtitle => sent CText (bu_subtitle book)
  | BookColumn.publication_date => sent CInt (bu_publication_date book)
  | BookColumn.edition => sent CInt (bu_edition book)
  | BookColumn.pages => sent CInt (bu_pages book)
  | BookColumn.language => sent CText (bu_language book)
  | BookColumn.book_condition => sent CText (bu_book_condition book)
  | BookColumn.location_shelf => sent CText (bu_location_shelf book)
  | BookColumn.total_copies => sent CInt (bu_total_copies book)
  | BookColumn.available_copies => sent CInt (bu_available_copies book)
  | BookColumn.price => sent CInt (bu_price book)
  | BookColumn.publisher_id => sent CInt (bu_publisher_id book)
  | BookColumn.category_id => sent CInt (bu_category_id book)
  end.

Definition member_field_cell (col : MemberColumn.t) (member : MemberUpdate)
    : Cell :=
  match col with
  | MemberColumn.membership_number => sent CText (mu_membership_number member)
  | MemberColumn.first_name => sent CText (mu_first_name member)
  | MemberColumn.last_name => sent CText (mu_last_name member)
  | MemberColumn.date_of_birth => sent CInt (mu_date_of_birth member)
  | MemberColumn.gender => sent CText (mu_gender member)
  | MemberColumn.email => sent CText (mu_email member)
  | MemberColumn.phone_number => sent CText (mu_phone_number member)
  | MemberColumn.address => sent CText (mu_address member)
  | MemberColumn.city => sent CText (mu_city member)
  | MemberColumn.postal_code => sent CText (mu_postal_code member)
  | MemberColumn.membership_type => sent CText (mu_membership_type member)
  | MemberColumn.membership_start_date =>
      sent CInt (mu_membership_start_date member)
  | MemberColumn.membership_expiry_date =>
      sent CInt (mu_membership_expiry_date member)
  | MemberColumn.is_active => sent CBool (mu_is_active member)
  | MemberColumn.max_books_allowed => sent CInt (mu_max_books_allowed member)
  end.


(** ** Loan listing *)

(** A row of [GET /api/loans]. *)
Record LoanListRow := mkLoanListRow {
  lr_transaction_id : Z;
  lr_loan_date : date;
  lr_due_date : date;
  lr_return_date : option date;
  lr_loan_status : string;
  lr_member_name : string;
  lr_membership_number : string;
  lr_title : string;
  lr_isbn : string;
  lr_display_status : string
}.

(** [StandardResponse(message=..., data={"loans": ..., "pagination": ...})] *)
Record LoanListResponse := mkLoanListResponse {
  ll_message : string;
  ll_loans : list LoanListRow;
  ll_pagination : PaginationResponse
}.

Definition LoanStatus_name (s : LoanStatus) : string :=
  match s with
  | Active => "Active"
  | Returned => "Returned"
  | Overdue => "Overdue"
  | Lost => "Lost"
  | Damaged => "Damaged"
  end.

Definition loan_status_pattern : string -> bool :=
  one_of ["Active"; "Returned"; "Overdue"; "Lost"; "Damaged"].

(** CASE WHEN lt.due_date < CURDATE() AND lt.loan_status = 'Active' THEN 'Overdue'
         WHEN DATEDIFF(lt.due_date, CURDATE()) <= 3 AND lt.loan_status = 'Active'
           THEN 'Due Soon'
         ELSE lt.loan_status END *)
Definition display_status (c : Clock) (l : Loan) : string :=
  if (lt_due_date l <? today c) && loan_is_active l then "Overdue"
  else if (lt_due_date l - today c <=? 3) && loan_is_active l then "Due Soon"
  else LoanStatus_name (lt_loan_status l).

(** FROM loan_transactions lt JOIN members m ON lt.member_id = m.member_id
    JOIN books b ON lt.book_id = b.book_id *)
Definition joined_loans (d : DB) : list (Loan * Member * Book) :=
  flat_map (fun l =>
    flat_map (fun m =>
      map (fun b => (l, m, b))
          (filter (fun b => b_book_id b =? lt_book_id l) (books d)))
      (filter (fun m => m_member_id m =? lt_member_id l) (members d)))
    (loan_transactions d).

Definition loan_list_row (c : Clock) (j : Loan * Member * Book) : LoanListRow :=
  let '(l, m, b) := j in
  mkLoanListRow (lt_transaction_id l) (lt_loan_date l) (lt_due_date l)
                (lt_return_date l) (LoanStatus_name (lt_loan_status l))
                (String.append (m_first_name m)
                   (String.append " " (m_last_name m)))
                (m_membership_number m) (b_title b) (b_isbn b)
                (display_status c l).

(** [if member_id:] -- None and 0 add no filter; [if status:] -- None adds
    none, and a status that passed the pattern is one of the five names. *)
Definition loans_where (member_id : option Z) (status : option string)
    (l : Loan) : bool :=
  match member_id with
  | Some id => if id =? 0 then true else lt_member_id l =? id
  | None => true
  end
  && match truthy status with
     | Some s => String.eqb (LoanStatus_name (lt_loan_status l)) s
     | None => true
     end.

Definition matching_loans (member_id : option Z) (status : option string)
    (d : DB) : list (Loan * Member * Book) :=
  filter (fun j => loans_where member_id status (fst (fst j))) (joined_loans d).

(** ORDER BY lt.loan_date DESC; rows with the same date stay in table order. *)
Fixpoint insert_by_loan_date (r : Loan * Member * Book)
    (rows : list (Loan * Member * Book)) : list (Loan * Member * Book) :=
  match rows with
  | [] => [r]
  | x :: rest =>
      if lt_loan_date (fst (fst x)) <=? lt_loan_date (fst (fst r))
      then r :: x :: rest
      else x :: insert_by_loan_date r rest
  end.

Definition order_by_loan_date_desc (rows : list (Loan * Member * Book))
    : list (Loan * Member * Book) :=
  fold_right insert_by_loan_date [] rows.

(** loans_query: ... ORDER BY lt.loan_date DESC LIMIT %s OFFSET %s *)
Definition select_loans (member_id : option Z) (status : option string)
    (limit offset : Z) : Stmt (list LoanListRow) :=
  fun c d =>
    inr (map (loan_list_row c)
           (firstn (Z.to_nat limit)
              (skipn (Z.to_nat offset)
                 (order_by_loan_date_desc (matching_loans member_id status d)))),
         d).

(** count_query: SELECT COUNT( * ) as total ... *)
Definition select_loans_count (member_id : option Z) (status : option string)
    : Stmt Z :=
  query (fun d => Z.of_nat (List.length (matching_loans member_id status d))).

(** [get_loans] *)
Definition get_loans (page limit : Z) (member_id : option Z)
    (status : option string) : M LoanListResponse :=
  let offset := (page - 1) * limit in
  loans <- execute_query (select_loans member_id status limit offset) ;;
  total <- execute_query (select_loans_count member_id status) ;;
  ret (mkLoanListResponse "Loans retrieved successfully" loans
         (mkPagination page limit total ((total + limit - 1) / limit))).

(** [Query(1, ge=1)], [Query(10, ge=1, le=100)] and the pattern of [status]. *)
Definition get_loans_valid (page limit : Z) (status : option string) : bool :=
  paging_valid page limit && optional loan_status_pattern status.

(** ** Health check *)

Record HealthReport := mkHealthReport {
  hr_status : string;
  hr_database : string;
  hr_timestamp : datetime
}.

(** SELECT 1 as status *)
Definition select_one : Stmt (option Z) := query (fun _ => Some 1).

(** [health_check]: the bare [except:] catches whatever [execute_query]
    raises.  [datetime.now()] is read off the one clock of the world, as
    [date.today()] is in the validators. *)
Definition health_check : M HealthReport :=
  db_status <-
    try_except
      (result <- execute_query select_one ;;
       ret (match result with Some _ => "healthy" | None => "unhealthy" end))
      (fun _ => Some (ret "unhealthy")) ;;
  fun w =>
    ret (mkHealthReport
           (if String.eqb db_status "healthy" then "healthy" else "unhealthy")
           db_status (now (clock w))) w.

(** Every stored loan is Active or Returned. *)
Definition loans_active_or_returned (d : DB) : Prop :=
  forall l, In l (loan_transactions d) ->
            lt_loan_status l = Active \/ lt_loan_status l = Returned.

Definition keeps_loans_active_or_returned (d d' : DB) : Prop :=
  loans_active_or_returned d -> loans_active_or_returned d'.

(** ** Members listing and statistics *)

(** Modelled from the spec: the [fines] table -- a fine belongs to a member
    and has an amount, a paid amount and a payment status, Paid or Unpaid.
    No statement of [api.py] writes to it, so it is a parameter of the two
    handlers that read it. *)
Inductive PaymentStatus := Paid | Unpaid.

Record Fine := mkFine {
  f_member_id : Z;
  f_amount : decimal;
  f_paid_amount : decimal;
  f_payment_status : PaymentStatus
}.

Definition is_unpaid (f : Fine) : bool :=
  match f_payment_status f with Unpaid => true | Paid => false end.

(** [MemberResponse]: the columns of [members] and the two aggregates. *)
Record MemberResponse := mkMemberResponse {
  mr_member : Member;
  mr_active_loans : Z;
  mr_outstanding_fines : decimal
}.

Record MemberListResponse := mkMemberListResponse {
  ml_data : list MemberResponse;
  ml_pagination : PaginationResponse
}.

(** [data] of [GET /api/stats]; [float(outstanding_fines['total'])] is kept
    as the decimal it converts. *)
Record Stats := mkStats {
  total_books : Z;
  available_books : Z;
  total_members : Z;
  active_loans : Z;
  overdue_loans : Z;
  outstanding_fines : decimal
}.

(** The right side of a LEFT JOIN for one left row: the matching rows, or
    one row of NULLs when there is none. *)
Definition left_join {A} (matched : list A) : list (option A) :=
  match matched with
  | [] => [None]
  | _ :: _ => map Some matched
  end.

Definition sum_of {A} (f : A -> Z) (rows : list A) : Z :=
  fold_right (fun r acc => f r + acc) 0 rows.

Section Fines.

Variable like : string -> string -> bool.       (* value LIKE pattern *)
Variable text_eq : string -> string -> bool.    (* [=] under the collation *)
Variable name_le : string -> string -> bool.    (* ORDER BY under the collation *)
Variable fines : list Fine.

(** FROM members m
    LEFT JOIN loan_transactions lt
      ON m.member_id = lt.member_id AND lt.loan_status = 'Active'
    LEFT JOIN fines f
      ON m.member_id = f.member_id AND f.payment_status = 'Unpaid'
    -- the joined rows of one member. *)
Definition member_joined_rows (d : DB) (m : Member)
    : list (option Loan * option Fine) :=
  list_prod
    (left_join (filter (active_loan_of_member (m_member_id m))
                       (loan_transactions d)))
    (left_join (filter (fun f => (f_member_id f =? m_member_id m) && is_unpaid f)
                       fines)).

(** COUNT(lt.transaction_id) *)
Definition count_transaction_ids (rows : list (option Loan * option Fine)) : Z :=
  count_rows (fun r => match fst r with Some _ => true | None => false end) rows.

(** COALESCE(SUM(CASE WHEN f.payment_status = 'Unpaid' THEN f.amount
                      ELSE 0 END), 0) *)
Definition sum_unpaid_amounts (rows : list (option Loan * option Fine)) : decimal :=
  sum_of (fun r => match snd r with
                   | Some f => if is_unpaid f then f_amount f else 0
                   | None => 0
                   end) rows.

(** The WHERE clause of both queries of [get_members]. *)
Definition members_where (search membership_type : option string)
    (is_active : option bool) (m : Member) : bool :=
  match truthy search with
  | Some s =>
      let search_param := String.append "%" (String.append s "%") in
      like (m_first_name m) search_param || like (m_last_name m) search_param
      || like (m_membership_number m) search_param
      || match m_email m with
         | Some e => like e search_param
         | None => false
         end
  | None => true
  end
  && match truthy membership_type with
     | Some t => text_eq (m_membership_type m) t
     | None => true
     end
  && match is_active with
     | Some flag => Bool.eqb (m_is_active m) flag
     | None => true
     end.

(** GROUP BY m.member_id: one row per member that passes the WHERE. *)
Definition matching_members (search membership_type : option string)
    (is_active : option bool) (d : DB) : list MemberResponse :=
  map (fun m => mkMemberResponse m
                  (count_transaction_ids (member_joined_rows d m))
                  (sum_unpaid_amounts (member_joined_rows d m)))
      (filter (members_where search membership_type is_active) (members d)).

(** ORDER BY m.last_name, m.first_name *)
Definition member_le (a b : Member) : bool :=
  if name_le (m_last_name a) (m_last_name b)
  then if name_le (m_last_name b) (m_last_name a)
       then name_le (m_first_name a) (m_first_name b)
       else true
  else false.

Fixpoint insert_by_name (r : MemberResponse) (rows : list MemberResponse)
    : list MemberResponse :=
  match rows with
  | [] => [r]
  | x :: rest =>
      if member_le (mr_member r) (mr_member x)
      then r :: x :: rest
      else x :: insert_by_name r rest
  end.

Definition order_by_name (rows : list MemberResponse) : list MemberResponse :=
  fold_right insert_by_name [] rows.

(** members_query: ... GROUP BY m.member_id ORDER BY m.last_name,
    m.first_name LIMIT %s OFFSET %s *)
Definition select_members (search membership_type : option string)
    (is_active : option bool) (limit offset : Z) : Stmt (list MemberResponse) :=
  query (fun d =>
    firstn (Z.to_nat limit)
      (skipn (Z.to_nat offset)
         (order_by_name (matching_members search membership_type is_active d)))).

(** count_query: SELECT COUNT( * ) as total FROM members m WHERE ... *)
Definition select_members_count (search membership_type : option string)
    (is_active : option bool) : Stmt Z :=
  query (fun d =>
    count_rows (members_where search membership_type is_active) (members d)).

(** [get_members] *)
Definition get_members (page limit : Z) (search membership_type : option string)
    (is_active : option bool) : M MemberListResponse :=
  let offset := (page - 1) * limit in
  members <- execute_query
               (select_members search membership_type is_active limit offset) ;;
  total <- execute_query
             (select_members_count search membership_type is_active) ;;
  ret (mkMemberListResponse members
         (mkPagination page limit total ((total + limit - 1) / limit))).

(** The six statements of [get_dashboard_stats]; SUM over no row is NULL,
    which [or 0] and COALESCE turn into 0. *)
Definition count_books : Stmt Z :=
  query (fun d => Z.of_nat (List.length (books d))).

Definition sum_available_copies : Stmt (option Z) :=
  query (fun d => match books d with
                  | [] => None
                  | bs => Some (sum_of b_available_copies bs)
                  end).

Definition count_active_members : Stmt Z :=
  query (fun d => count_rows m_is_active (members d)).

Definition count_active_loans : Stmt Z :=
  query (fun d => count_rows loan_is_active (loan_transactions d)).

Definition count_overdue_loans : Stmt Z :=
  fun c d =>
    inr (count_rows (fun l => loan_is_active l && (lt_due_date l <? today c))
                    (loan_transactions d), d).

Definition sum_outstanding_fines : Stmt decimal :=
  query (fun _ =>
    sum_of (fun f => f_amount f - f_paid_amount f) (filter is_unpaid fines)).

(** [get_dashboard_stats] *)
Definition get_dashboard_stats : M Stats :=
  books_total <- execute_query count_books ;;
  available <- execute_query sum_available_copies ;;
  members_total <- execute_query count_active_members ;;
  loans_active <- execute_query count_active_loans ;;
  loans_overdue <- execute_query count_overdue_loans ;;
  fines_total <- execute_query sum_outstanding_fines ;;
  ret (mkStats books_total
               (match available with Some n => n | None => 0 end)
               members_total loans_active loans_overdue fines_total).

End Fines.

(** ** More sample data *)

(** The sample database after the sample loan, after the return of that
    loan, and after the sample member was deactivated. *)
Definition sample_loan_row : Loan :=
  mkLoan 1 1 1 None 10 24 None Active None 1000.

Definition lent_db : DB :=
  db (snd (post_loans sample_loan (mkWorld sample_db sample_clock []))).

Definition returned_db : DB :=
  db (snd (put_loans_return 1 (mkWorld lent_db (mkClock 12 1200) []))).

Definition deactivated_db : DB :=
  db (snd (route 200 true (delete_member 1) (mkWorld sample_db sample_clock []))).

(** A second book, and the same body with an author entry that has no
    [author_id]. *)
Definition second_book_create : BookCreate :=
  mkBookCreate "978-0-123456-79-6" "Second Book" None None (Some 1) None
               (Some "English") (Some "Good") None 4 None None None 1
               (Some [mkAuthorRef (Some 1) Unset]).


Definition second_member_create : MemberCreate :=
  mkMemberCreate "TEST2024002" "Second" "User" (Some 5) None
                 (Some "second.user@example.com") None None None
                 None (Some "Student") 0 365 (Some 3).

(** {"title": "Retitled",
     "authors": [{"author_id": 7}, {"author_id": 8, "role": null}]} *)
Definition retitled : BookUpdate :=
  mkBookUpdate Unset (SetTo "Retitled") Unset Unset Unset Unset Unset Unset
               Unset Unset Unset Unset Unset Unset
               (SetTo [mkAuthorRef (Some 7) Unset; mkAuthorRef (Some 8) Null]).

(** {"is_active": true} *)
Definition reactivated : MemberUpdate :=
  mkMemberUpdate Unset Unset Unset Unset Unset Unset Unset Unset Unset Unset
                 Unset Unset Unset (SetTo true) Unset.

(** ** The specification's order of checks, with request validation *)

(** BorrowBook's checks as amended: the validation of the request --
    [member_id > 0], [book_id > 0] and [dueDate > loanDate] -- comes first
    and fails with InvalidInput; the other preconditions follow in the
    specification's order. *)
Definition BorrowBook_checks (d : DB) (loan : LoanCreate) : option BorrowError :=
  if negb (0 <? lc_member_id loan) || negb (0 <? lc_book_id loan)
  then Some InvalidInput
  else BorrowBook_preconditions d loan.

(** {"member_id": 0, "book_id": 1, "loan_date": day 10, "due_date": day 24} *)
Definition member_zero_loan : LoanCreate := mkLoanCreate 0 1 None 10 24 None.

(** A body whose book is not in the sample database. *)
Definition missing_book_loan : LoanCreate := mkLoanCreate 1 9 None 10 24 None.

(** ** Requests that do not reach a handler *)






Section Arrivals.

Variable email_str : string -> bool.
Variable like : string -> string -> bool.
Variable title_le : string -> string -> bool.


End Arrivals.

(** * Properties *)

(** ** The gateway *)

Lemma execute_query_inr {A} (q : Stmt A) (w w' : World) (a : A) :
  execute_query q w = (inr a, w') ->
  exists d', q (clock w) (db w) = inr (a, d') /\ w' = commit w d'.
Proof.
  unfold execute_query.
  destruct (next_fault w); try discriminate.
  destruct (q (clock w) (db w)) as [e | [r d']].
  - destruct e; discriminate.
  - intros H; inversion H; subst; eauto.
Qed.

Lemma execute_query_inl {A} (q : Stmt A) (w w' : World) (e : exn) :
  execute_query q w = (inl e, w') ->
  w' = consume_fault w /\ exists detail, e = HTTPException 500 detail.
Proof.
  unfold execute_query, internal_server_error, database_error.
  destruct (next_fault w).
  - destruct (q (clock w) (db w)) as [e0 | [r d']].
    + destruct e0; intros H; inversion H; subst; eauto.
    + discriminate.
  - intros H; inversion H; subst; eauto.
  - intros H; inversion H; subst; eauto.
Qed.

Lemma execute_query_quiet {A} (q : Stmt A) (d d' : DB) (c : Clock) (a : A) :
  q c d = inr (a, d') ->
  execute_query q (mkWorld d c []) = (inr a, mkWorld d' c []).
Proof.
  intros H. unfold execute_query, next_fault, commit; simpl. now rewrite H.
Qed.

Lemma bind_inr {A B} (m : M A) (k : A -> M B) (w w' : World) (b : B) :
  bind m k w = (inr b, w') ->
  exists a w1, m w = (inr a, w1) /\ k a w1 = (inr b, w').
Proof.
  unfold bind. destruct (m w) as [[e | a] w1]; [discriminate | eauto].
Qed.

Lemma bind_inl {A B} (m : M A) (k : A -> M B) (w w' : World) (e : exn) :
  bind m k w = (inl e, w') ->
  m w = (inl e, w') \/ exists a w1, m w = (inr a, w1) /\ k a w1 = (inl e, w').
Proof.
  unfold bind. destruct (m w) as [[e0 | a] w1]; intros H.
  - left. inversion H; subst. reflexivity.
  - right. exists a, w1. split; [reflexivity | exact H].
Qed.

(** ** Borrowing: the order of the checks *)

(** For a body whose ids are positive, in a call that meets no fault,
    [POST /api/loans] checks the preconditions in the order of the
    specification, the first failure decides the response, and a failed
    precondition leaves the world as it was; when every precondition holds
    the response is 201. *)
Lemma borrow_preconditions_in_order (d : DB) (c : Clock) (loan : LoanCreate)
    (Hmember : 0 < lc_member_id loan) (Hbook : 0 < lc_book_id loan) :
  match BorrowBook_preconditions d loan with
  | Some e =>
      post_loans loan (mkWorld d c []) = (borrow_error_response e, mkWorld d c [])
  | None => status_code (fst (post_loans loan (mkWorld d c []))) = 201
  end.
Proof.
  unfold BorrowBook_preconditions, post_loans, route, LoanCreate_valid,
    validate_due_date.
  apply Z.ltb_lt in Hmember, Hbook. rewrite Hmember, Hbook. simpl andb.
  rewrite Z.gtb_ltb, <- Z.leb_antisym.
  destruct (lc_due_date loan <=? lc_loan_date loan); simpl; [reflexivity |].
  unfold create_loan, bind, execute_query, next_fault, select_available_copies,
    select_member_status, count_active_loans_of_member, query, commit; simpl.
  destruct (find_book (lc_book_id loan) d) as [b |]; simpl; [| reflexivity].
  rewrite Z.gtb_ltb, <- Z.leb_antisym.
  destruct (b_available_copies b <=? 0); simpl; [reflexivity |].
  destruct (find_member (lc_member_id loan) d) as [m |]; simpl; [| reflexivity].
  destruct (m_is_active m); simpl; [| reflexivity].
  rewrite Z.geb_leb, Z.ltb_antisym, negb_involutive.
  destruct (m_max_books_allowed m <=? _); simpl; reflexivity.
Qed.

(** ** Returning *)

Lemma find_none_iff {A} (p : A -> bool) (l : list A) :
  (forall x, In x l -> p x = false) -> find p l = None.
Proof.
  induction l as [| a l IH]; simpl; intros H; [reflexivity |].
  rewrite (H a (or_introl eq_refl)). apply IH. intros x Hx. apply H. now right.
Qed.

Lemma loan_is_active_true (l : Loan) :
  loan_is_active l = true <-> lt_loan_status l = Active.
Proof. unfold loan_is_active. destruct (lt_loan_status l); simpl; split; congruence. Qed.

Lemma select_active_loan_none (tid : Z) (d : DB) (c : Clock) :
  not_active tid d -> select_active_loan tid c d = inr (None, d).
Proof.
  intros H. unfold select_active_loan, query. f_equal. f_equal.
  apply find_none_iff. intros l Hl.
  destruct (lt_transaction_id l =? tid) eqn:E; simpl; [| reflexivity].
  apply Z.eqb_eq in E. specialize (H l Hl E).
  destruct (loan_is_active l) eqn:Ea; [| reflexivity].
  apply loan_is_active_true in Ea. contradiction.
Qed.

Lemma return_book_inr (tid : Z) (w w' : World) (r : Content) :
  return_book tid w = (inr r, w') ->
  exists l,
    find (fun l => (lt_transaction_id l =? tid) && loan_is_active l)
         (loan_transactions (db w)) = Some l
    /\ db w' = returned (clock w) tid (lt_book_id l) (db w)
    /\ r = StandardResponse "Book returned successfully" None.
Proof.
  unfold return_book. intros H.
  apply bind_inr in H as (loan & w1 & H1 & H).
  apply execute_query_inr in H1 as (d1 & H1 & ->).
  unfold select_active_loan, query in H1. inversion H1; subst; clear H1.
  destruct (find _ _) as [l |] eqn:El; [| discriminate].
  apply bind_inr in H as (n1 & w2 & H2 & H).
  apply execute_query_inr in H2 as (d2 & H2 & ->).
  apply bind_inr in H as (n2 & w3 & H3 & H).
  apply execute_query_inr in H3 as (d3 & H3 & ->).
  unfold ret in H. inversion H; subst; clear H.
  unfold update_loan_returned in H2. inversion H2; subst; clear H2.
  unfold increment_available_copies in H3. inversion H3; subst; clear H3.
  exists l. repeat split.
Qed.

Lemma return_book_inl (tid : Z) (w w' : World) (e : exn) :
  return_book tid w = (inl e, w') ->
  exists s detail, e = HTTPException s detail /\ (s = 404 \/ s = 500).
Proof.
  unfold return_book. intros H.
  apply bind_inl in H as [H | (loan & w1 & H1 & H)].
  { apply execute_query_inl in H as (_ & detail & ->). eauto. }
  destruct loan as [l |].
  2:{ unfold raise in H. inversion H; subst. eauto. }
  apply bind_inl in H as [H | (n1 & w2 & H2 & H)].
  { apply execute_query_inl in H as (_ & detail & ->). eauto. }
  apply bind_inl in H as [H | (n2 & w3 & H3 & H)].
  { apply execute_query_inl in H as (_ & detail & ->). eauto. }
  discriminate.
Qed.

Lemma returned_not_active (c : Clock) (tid book_id : Z) (d : DB) :
  not_active tid (returned c tid book_id d).
Proof.
  unfold not_active, returned; simpl. intros l Hl Hid.
  apply in_map_iff in Hl as (l0 & <- & _).
  unfold mark_returned in *.
  destruct (lt_transaction_id l0 =? tid) eqn:E; simpl in *; [discriminate |].
  apply Z.eqb_neq in E. contradiction.
Qed.

Lemma put_loans_return_200 (tid : Z) (w w' : World) (r : Response) :
  put_loans_return tid w = (r, w') -> status_code r = 200 ->
  exists l,
    find (fun l => (lt_transaction_id l =? tid) && loan_is_active l)
         (loan_transactions (db w)) = Some l
    /\ db w' = returned (clock w) tid (lt_book_id l) (db w).
Proof.
  unfold put_loans_return, route.
  destruct (return_book tid w) as [[e | c] w1] eqn:E; intros H Hs;
    inversion H; subst; clear H.
  - apply return_book_inl in E as (s & detail & -> & [-> | ->]);
      simpl in Hs; discriminate.
  - apply return_book_inr in E as (l & Hl & Hd & _). eauto.
Qed.

(** A statement that raises or a query leaves the database alone. *)
Lemma return_book_not_active_db (tid : Z) (w : World) :
  not_active tid (db w) -> db (snd (return_book tid w)) = db w.
Proof.
  intros Hn. unfold return_book, bind.
  destruct (execute_query (select_active_loan tid) w) as [[e | loan] w1] eqn:E.
  - apply execute_query_inl in E as (-> & _). reflexivity.
  - apply execute_query_inr in E as (d1 & H1 & ->).
    rewrite (select_active_loan_none tid (db w) (clock w) Hn) in H1.
    inversion H1; subst. reflexivity.
Qed.

(** C5.  When no row with the given id is Active -- because there is none,
    because its status is another one, or because an earlier
    [PUT /api/loans/{id}/return] answered 200 -- the call answers 404
    "Active loan not found" and the world is unchanged; whatever faults the
    call meets, the database (every [available_copies] with it) stays as it
    was. *)
Theorem return_requires_active_loan (d : DB) (c : Clock) (tid : Z)
    (H : not_active tid d
         \/ exists w0 r0 w1, put_loans_return tid w0 = (r0, w1)
                             /\ status_code r0 = 200 /\ db w1 = d) :
  put_loans_return tid (mkWorld d c []) = (loan_not_found_response, mkWorld d c [])
  /\ forall fs, db (snd (put_loans_return tid (mkWorld d c fs))) = d.
Proof.
  assert (Hn : not_active tid d).
  { destruct H as [H | (w0 & r0 & w1 & H0 & Hs & <-)]; [exact H |].
    destruct (put_loans_return_200 tid w0 w1 r0 H0 Hs) as (l & _ & ->).
    apply returned_not_active. }
  split.
  - unfold put_loans_return, route, return_book, bind.
    rewrite (execute_query_quiet _ d d c None (select_active_loan_none tid d c Hn)).
    reflexivity.
  - intros fs. unfold put_loans_return, route.
    pose proof (return_book_not_active_db tid (mkWorld d c fs) Hn) as Hd.
    destruct (return_book tid (mkWorld d c fs)) as [[e | r] w1]; exact Hd.
Qed.

(** ** Borrowing: what a call does *)

Lemma create_loan_inr (loan : LoanCreate) (w w' : World) (r : Content) :
  create_loan loan w = (inr r, w') ->
  db w' = borrowed (clock w) loan (db w)
  /\ r = StandardResponse "Book loan created successfully" None
  /\ (exists b, find_book (lc_book_id loan) (db w) = Some b
                /\ 0 < b_available_copies b)
  /\ (exists m, find_member (lc_member_id loan) (db w) = Some m
                /\ m_is_active m = true
                /\ active_loans_of_member (lc_member_id loan) (db w)
                   < m_max_books_allowed m).
Proof.
  unfold create_loan. intros H.
  apply bind_inr in H as (book & w1 & H1 & H).
  apply execute_query_inr in H1 as (d1 & H1 & ->).
  unfold select_available_copies, query in H1. inversion H1; subst; clear H1.
  destruct (find_book (lc_book_id loan) (db w)) as [b |] eqn:Eb; simpl in H;
    [| discriminate].
  destruct (b_available_copies b <=? 0) eqn:Ea; [discriminate |].
  apply Z.leb_gt in Ea.
  apply bind_inr in H as (member & w2 & H2 & H).
  apply execute_query_inr in H2 as (d2 & H2 & ->).
  unfold select_member_status, query in H2. simpl in H2.
  inversion H2; subst; clear H2.
  destruct (find_member (lc_member_id loan) (db w)) as [m |] eqn:Em; simpl in H;
    [| discriminate].
  destruct (m_is_active m) eqn:Eact; simpl in H; [| discriminate].
  apply bind_inr in H as (n & w3 & H3 & H).
  apply execute_query_inr in H3 as (d3 & H3 & ->).
  unfold count_active_loans_of_member, query in H3. simpl in H3.
  inversion H3; subst; clear H3.
  destruct (_ >=? _) eqn:Ec; [discriminate |].
  rewrite Z.geb_leb in Ec. apply Z.leb_gt in Ec.
  apply bind_inr in H as (n1 & w4 & H4 & H).
  apply execute_query_inr in H4 as (d4 & H4 & ->).
  apply bind_inr in H as (n2 & w5 & H5 & H).
  apply execute_query_inr in H5 as (d5 & H5 & ->).
  unfold ret in H. inversion H; subst; clear H.
  unfold insert_loan in H4. simpl in H4. inversion H4; subst; clear H4.
  unfold decrement_available_copies in H5. simpl in H5.
  inversion H5; subst; clear H5.
  repeat split; eauto.
Qed.

Lemma create_loan_inl (loan : LoanCreate) (w w' : World) (e : exn) :
  create_loan loan w = (inl e, w') ->
  exists s detail, e = HTTPException s detail /\ (s = 400 \/ s = 404 \/ s = 500).
Proof.
  unfold create_loan. intros H.
  apply bind_inl in H as [H | (book & w1 & H1 & H)].
  { apply execute_query_inl in H as (_ & detail & ->). eauto 6. }
  destruct (match book with None => true | Some n => n <=? 0 end).
  { unfold raise in H. inversion H; subst. eauto 6. }
  apply bind_inl in H as [H | (member & w2 & H2 & H)].
  { apply execute_query_inl in H as (_ & detail & ->). eauto 6. }
  destruct member as [[act mx] |].
  2:{ unfold raise in H. inversion H; subst. eauto 6. }
  destruct (negb act).
  { unfold raise in H. inversion H; subst. eauto 6. }
  apply bind_inl in H as [H | (n & w3 & H3 & H)].
  { apply execute_query_inl in H as (_ & detail & ->). eauto 6. }
  destruct (n >=? mx).
  { unfold raise in H. inversion H; subst. eauto 6. }
  apply bind_inl in H as [H | (n1 & w4 & H4 & H)].
  { apply execute_query_inl in H as (_ & detail & ->). eauto 6. }
  apply bind_inl in H as [H | (n2 & w5 & H5 & H)].
  { apply execute_query_inl in H as (_ & detail & ->). eauto 6. }
  discriminate.
Qed.

Lemma post_loans_201 (loan : LoanCreate) (w w' : World) (r : Response) :
  post_loans loan w = (r, w') -> status_code r = 201 ->
  exists c, create_loan loan w = (inr c, w') /\ r = mkResponse 201 c
            /\ LoanCreate_valid loan = true.
Proof.
  unfold post_loans, route.
  destruct (LoanCreate_valid loan); [| intros H Hs; inversion H; subst; discriminate].
  destruct (create_loan loan w) as [[e | c] w1] eqn:E; intros H Hs;
    inversion H; subst; clear H.
  - apply create_loan_inl in E as (s & detail & -> & [-> | [-> | ->]]);
      simpl in Hs; discriminate.
  - eauto.
Qed.

(** Every [POST /api/loans] that answers 201 answers with the message
    "Book loan created successfully" and no [data] at all. *)
Lemma borrow_success_response (loan : LoanCreate) (w : World)
    (H : status_code (fst (post_loans loan w)) = 201) :
  fst (post_loans loan w)
  = mkResponse 201 (StandardResponse "Book loan created successfully" None).
Proof.
  destruct (post_loans loan w) as [r w'] eqn:E. simpl in *.
  destruct (post_loans_201 loan w w' r E H) as (c & Hc & -> & _).
  apply create_loan_inr in Hc as (_ & -> & _). reflexivity.
Qed.

(** C3.  The code does not return the identity of the new loan.
    [POST /api/loans] for the sample loan answers 201 and stores the loan
    under transaction id 1, but the response is
    [StandardResponse(message=...)] with [data] left at None: no
    [transaction_id] reaches the client.  Nor does it in any other call:
    whatever the body, the database and the faults, the response of the
    route has no [transaction_id].  ([create_book] and [create_member] do
    put the id they have read into [data].) *)
Theorem borrow_response_lacks_transaction_id :
  (let out := post_loans sample_loan (mkWorld sample_db sample_clock []) in
   fst out
   = mkResponse 201 (StandardResponse "Book loan created successfully" None)
   /\ map lt_transaction_id (loan_transactions (db (snd out))) = [1]
   /\ response_data_member "transaction_id" (fst out) = None)
  /\ (forall loan w,
        response_data_member "transaction_id" (fst (post_loans loan w)) = None).
Proof.
  split; [vm_compute; repeat split; reflexivity |].
  intros loan w. unfold post_loans, route.
  destruct (LoanCreate_valid loan); [| reflexivity].
  destruct (create_loan loan w) as [[e | c] w'] eqn:E.
  - destruct e; reflexivity.
  - apply create_loan_inr in E as (_ & -> & _). reflexivity.
Qed.

(** C2 fails on the code: the INSERT and the UPDATE of [create_loan] are two
    [execute_query] calls, each with its own commit.  When the fifth
    statement of the call fails, the client gets 500, the Active row stays
    in [loan_transactions] and [available_copies] is still 3. *)
Theorem borrow_interrupted_keeps_loan_row :
  let w := mkWorld sample_db sample_clock
             [NoFault; NoFault; NoFault; NoFault;
              StatementFailed "2013: Lost connection to MySQL server during query"] in
  status_code (fst (post_loans sample_loan w)) = 500
  /\ loan_transactions (db (snd (post_loans sample_loan w)))
     = [loan_row sample_clock sample_loan sample_db]
  /\ active_loans_of_member 1 (db (snd (post_loans sample_loan w))) = 1
  /\ available_copies_of 1 (db (snd (post_loans sample_loan w))) = Some 3.
Proof. vm_compute. repeat split; reflexivity. Qed.

Lemma return_requires_active_loan_witness :
  let lent := db (snd (post_loans sample_loan (mkWorld sample_db sample_clock []))) in
  let back := db (snd (put_loans_return 1 (mkWorld lent sample_clock []))) in
  available_copies_of 1 lent = Some 2
  /\ available_copies_of 1 back = Some 3
  /\ put_loans_return 1 (mkWorld back sample_clock [])
     = (loan_not_found_response, mkWorld back sample_clock []).
Proof.
  intros lent back.
  split; [reflexivity | split; [reflexivity |]].
  apply (return_requires_active_loan back sample_clock 1).
  right. exists (mkWorld lent sample_clock []).
  eexists _, _. split; [reflexivity | split; reflexivity].
Defined.

(** ** Borrowing and returning the same loans *)

Lemma find_book_add_available_copies (delta book_id id : Z) (bs : list Book) :
  find (fun b => b_book_id b =? id) (map (add_available_copies delta book_id) bs)
  = option_map (add_available_copies delta book_id)
               (find (fun b => b_book_id b =? id) bs).
Proof.
  induction bs as [| b bs IH]; simpl; [reflexivity |].
  assert (Hid : b_book_id (add_available_copies delta book_id b) = b_book_id b).
  { unfold add_available_copies. now destruct (b_book_id b =? book_id). }
  rewrite Hid. destruct (b_book_id b =? id); [reflexivity | exact IH].
Qed.

Lemma available_copies_of_borrowed (c : Clock) (loan : LoanCreate) (d : DB) :
  available_copies_of (lc_book_id loan) (borrowed c loan d)
  = option_map (fun n => n - 1) (available_copies_of (lc_book_id loan) d).
Proof.
  unfold available_copies_of, find_book, borrowed; simpl.
  rewrite find_book_add_available_copies.
  destruct (find _ (books d)) as [b |] eqn:E; simpl; [| reflexivity].
  apply find_some in E as [_ E]. unfold add_available_copies. rewrite E.
  reflexivity.
Qed.

Lemma available_copies_of_returned (c : Clock) (tid book_id : Z) (d : DB) :
  available_copies_of book_id (returned c tid book_id d)
  = option_map (fun n => n + 1) (available_copies_of book_id d).
Proof.
  unfold available_copies_of, find_book, returned; simpl.
  rewrite find_book_add_available_copies.
  destruct (find _ (books d)) as [b |] eqn:E; simpl; [| reflexivity].
  apply find_some in E as [_ E]. unfold add_available_copies. rewrite E.
  reflexivity.
Qed.

Lemma find_app_l {A} (p : A -> bool) (l1 l2 : list A) :
  find p (l1 ++ l2) = match find p l1 with
                      | Some x => Some x
                      | None => find p l2
                      end.
Proof.
  induction l1 as [| a l1 IH]; simpl; [reflexivity |].
  destruct (p a); [reflexivity | exact IH].
Qed.

(** Marking one loan Returned does not disturb the lookup of another. *)
Lemma find_active_mark_returned_other (c : Clock) (tid tid' : Z) (ls : list Loan) :
  tid' <> tid ->
  find (fun l => (lt_transaction_id l =? tid') && loan_is_active l)
       (map (mark_returned c tid) ls)
  = find (fun l => (lt_transaction_id l =? tid') && loan_is_active l) ls.
Proof.
  intros Hne. induction ls as [| l ls IH]; simpl; [reflexivity |].
  destruct (lt_transaction_id l =? tid) eqn:E.
  - assert (F : (lt_transaction_id l =? tid') = false).
    { apply Z.eqb_eq in E. apply Z.eqb_neq. lia. }
    assert (G : lt_transaction_id (mark_returned c tid l) = lt_transaction_id l).
    { unfold mark_returned. now rewrite E. }
    rewrite G, F. simpl. exact IH.
  - assert (G : mark_returned c tid l = l).
    { unfold mark_returned. now rewrite E. }
    rewrite G. destruct (_ && _); [reflexivity | exact IH].
Qed.

Lemma put_loans_return_quiet (c : Clock) (tid : Z) (d : DB) (l : Loan) :
  find (fun l => (lt_transaction_id l =? tid) && loan_is_active l)
       (loan_transactions d) = Some l ->
  put_loans_return tid (mkWorld d c [])
  = (mkResponse 200 (StandardResponse "Book returned successfully" None),
     mkWorld (returned c tid (lt_book_id l) d) c []).
Proof.
  intros H. unfold put_loans_return, route, return_book, bind, execute_query,
    next_fault, select_active_loan, query; simpl.
  rewrite H. reflexivity.
Qed.

(** Returning loans of one book, each Active and no id twice: every call
    answers 200 and each gives one copy back. *)
Lemma return_all_gives_copies_back (book_id : Z) (returns : list (Clock * Z)) :
  forall d,
    NoDup (map snd returns) ->
    (forall tid, In tid (map snd returns) ->
       exists l, find (fun l => (lt_transaction_id l =? tid) && loan_is_active l)
                      (loan_transactions d) = Some l
                 /\ lt_book_id l = book_id) ->
    Forall (fun r => status_code r = 200)
           (fst (serve_all put_loans_return (quiet returns) d))
    /\ available_copies_of book_id
         (snd (serve_all put_loans_return (quiet returns) d))
       = option_map (fun n => n + Z.of_nat (List.length returns))
                    (available_copies_of book_id d).
Proof.
  induction returns as [| [c tid] returns IH]; intros d Hnd Hall.
  - simpl. split; [constructor |].
    destruct (available_copies_of book_id d); simpl; [f_equal; lia | reflexivity].
  - simpl map in Hnd. inversion Hnd as [| ? ? Hnotin Hnd']; subst.
    destruct (Hall tid (or_introl eq_refl)) as (l & Hl & Hb).
    cbn [quiet map serve_all fst snd].
    fold (quiet returns).
    rewrite (put_loans_return_quiet c tid d l Hl). cbn [db].
    rewrite Hb.
    specialize (IH (returned c tid book_id d) Hnd').
    destruct (serve_all put_loans_return (quiet returns)
                (returned c tid book_id d)) as [rs d2] eqn:E.
    cbn [fst snd] in *.
    destruct IH as [IH1 IH2].
    { intros tid' Hin. destruct (Hall tid' (or_intror Hin)) as (l' & Hl' & Hb').
      exists l'. split; [| exact Hb'].
      unfold returned; simpl. rewrite find_active_mark_returned_other; [exact Hl' |].
      intros ->. contradiction. }
    split; [constructor; [reflexivity | exact IH1] |].
    rewrite IH2, available_copies_of_returned.
    destruct (available_copies_of book_id d); simpl; [f_equal; lia | reflexivity].
Qed.

Lemma find_is_some {A} (p : A -> bool) (l : list A) (x : A) :
  In x l -> p x = true -> exists y, find p l = Some y.
Proof.
  intros Hin Hp. destruct (find p l) as [y |] eqn:E; [eauto |].
  rewrite (find_none p l E x Hin) in Hp. discriminate.
Qed.

Lemma transaction_ids_fresh_borrowed (c : Clock) (loan : LoanCreate) (d : DB) :
  transaction_ids_fresh d -> transaction_ids_fresh (borrowed c loan d).
Proof.
  unfold transaction_ids_fresh, borrowed; simpl. intros H l Hl.
  apply in_app_or in Hl as [Hl | [<- | []]].
  - specialize (H l Hl). lia.
  - simpl. lia.
Qed.

(** What a run of successful borrows of one book leaves behind. *)
Lemma borrow_all_adds_loans (book_id : Z)
    (borrows : list (Clock * list fault * LoanCreate)) :
  forall (d : DB) (b : Book),
    transaction_ids_fresh d ->
    find_book book_id d = Some b ->
    Forall (fun call => lc_book_id (snd call) = book_id) borrows ->
    Forall (fun r => status_code r = 201) (fst (serve_all post_loans borrows d)) ->
    exists created,
      loan_transactions (snd (serve_all post_loans borrows d))
      = loan_transactions d ++ created
      /\ List.length created = List.length borrows
      /\ Forall (fun l => lt_book_id l = book_id /\ lt_loan_status l = Active
                          /\ next_transaction_id d <= lt_transaction_id l) created
      /\ NoDup (map lt_transaction_id created)
      /\ available_copies_of book_id (snd (serve_all post_loans borrows d))
         = Some (b_available_copies b - Z.of_nat (List.length borrows)).
Proof.
  induction borrows as [| [[c fs] loan] borrows IH]; intros d b Hfresh Hb Hbook Hok.
  - exists []. simpl. rewrite app_nil_r. repeat split; try constructor.
    unfold available_copies_of. rewrite Hb. simpl. f_equal. lia.
  - apply Forall_cons_iff in Hbook as [Hloan Hbook']. simpl in Hloan. subst book_id.
    cbn [serve_all] in *.
    destruct (post_loans loan (mkWorld d c fs)) as [r w] eqn:E.
    destruct (serve_all post_loans borrows (db w)) as [rs d2] eqn:E2.
    cbn [fst snd] in *.
    apply Forall_cons_iff in Hok as [Hr Hrs].
    destruct (post_loans_201 loan _ w r E Hr) as (cnt & Hc & _ & _).
    apply create_loan_inr in Hc as (Hd & _). cbn [db clock] in Hd.
    assert (Hb' : find_book (lc_book_id loan) (db w)
                  = Some (add_available_copies (-1) (lc_book_id loan) b)).
    { rewrite Hd. unfold find_book, borrowed; simpl.
      rewrite find_book_add_available_copies. unfold find_book in Hb.
      now rewrite Hb. }
    assert (Hfresh' : transaction_ids_fresh (db w)).
    { rewrite Hd. now apply transaction_ids_fresh_borrowed. }
    specialize (IH (db w) _ Hfresh' Hb' Hbook').
    rewrite E2 in IH. cbn [fst snd] in IH.
    destruct (IH Hrs) as (created & Hls & Hlen & Hall & Hnd & Hav).
    exists (loan_row c loan d :: created).
    assert (Hnext : next_transaction_id (db w) = next_transaction_id d + 1)
      by (rewrite Hd; reflexivity).
    repeat split.
    + rewrite Hls, Hd. unfold borrowed; simpl. now rewrite <- app_assoc.
    + simpl. now rewrite Hlen.
    + constructor; [simpl; repeat split; lia |].
      eapply Forall_impl; [| exact Hall]. simpl. intros l (? & ? & ?).
      repeat split; try assumption. lia.
    + simpl. constructor; [| exact Hnd].
      intros Hin. apply in_map_iff in Hin as (l & Hid & Hl).
      rewrite Forall_forall in Hall. destruct (Hall l Hl) as (_ & _ & Hge). lia.
    + rewrite Hav. f_equal.
      assert (Hbid : b_book_id b = lc_book_id loan).
      { unfold find_book in Hb. apply find_some in Hb as [_ Hb].
        now apply Z.eqb_eq in Hb. }
      cbn [List.length]. rewrite Nat2Z.inj_succ.
      unfold add_available_copies. rewrite Hbid, Z.eqb_refl.
      unfold set_available_copies. cbn [b_available_copies]. lia.
Qed.

(** C7.  Start from a database whose transaction ids lie below the
    AUTO_INCREMENT counter and a book with k available copies.  After N
    calls of [POST /api/loans] for that book that all answer 201 the book
    has k - N available copies; returning the N loans those calls inserted,
    in any order, answers 200 every time and leaves the book with exactly k
    available copies again. *)
Theorem borrow_then_return_restores_copies (d : DB) (book_id : Z) (b : Book)
    (borrows : list (Clock * list fault * LoanCreate))
    (returns : list (Clock * Z))
    (Hfresh : transaction_ids_fresh d)
    (Hbook : find_book book_id d = Some b)
    (Hsame : Forall (fun call => lc_book_id (snd call) = book_id) borrows)
    (Hok : Forall (fun r => status_code r = 201)
                  (fst (serve_all post_loans borrows d)))
    (Hreturns : Permutation (map snd returns)
                  (map lt_transaction_id
                     (loans_added d (snd (serve_all post_loans borrows d))))) :
  let d1 := snd (serve_all post_loans borrows d) in
  let d2 := snd (serve_all put_loans_return (quiet returns) d1) in
  available_copies_of book_id d1
  = Some (b_available_copies b - Z.of_nat (List.length borrows))
  /\ Forall (fun r => status_code r = 200)
            (fst (serve_all put_loans_return (quiet returns) d1))
  /\ available_copies_of book_id d2 = Some (b_available_copies b).
Proof.
  intros d1 d2.
  destruct (borrow_all_adds_loans book_id borrows d b Hfresh Hbook Hsame Hok)
    as (created & Hls & Hcount & Hall & Hnd & Hav).
  fold d1 in Hls, Hav, Hreturns.
  assert (Hadded : loans_added d d1 = created).
  { unfold loans_added. rewrite Hls, skipn_app, skipn_all, Nat.sub_diag. reflexivity. }
  rewrite Hadded in Hreturns.
  assert (Hlen : List.length returns = List.length borrows).
  { apply Permutation_length in Hreturns. rewrite !length_map in Hreturns.
    now rewrite Hreturns. }
  split; [exact Hav |].
  destruct (return_all_gives_copies_back book_id returns d1) as [H1 H2].
  { eapply Permutation_NoDup; [apply Permutation_sym; exact Hreturns | exact Hnd]. }
  { intros tid Hin.
    apply (Permutation_in _ Hreturns) in Hin.
    apply in_map_iff in Hin as (l0 & Hid & Hl0).
    rewrite Forall_forall in Hall.
    destruct (Hall l0 Hl0) as (_ & Hactive & Hge).
    rewrite Hls, find_app_l.
    rewrite (find_none_iff _ (loan_transactions d)).
    - destruct (find_is_some
                  (fun l => (lt_transaction_id l =? tid) && loan_is_active l)
                  created l0 Hl0) as (y & Hy).
      { rewrite Hid, Z.eqb_refl. simpl. now apply loan_is_active_true. }
      exists y. split; [exact Hy |].
      apply find_some in Hy as [Hy _]. now destruct (Hall y Hy).
    - intros l Hl. specialize (Hfresh l Hl).
      assert (F : (lt_transaction_id l =? tid) = false) by (apply Z.eqb_neq; lia).
      now rewrite F. }
  split; [exact H1 |].
  unfold d2. rewrite H2, Hav. simpl. f_equal. lia.
Qed.

(** ** Frames: what a handler built from stable statements preserves *)

Section Frames.

Variable P : DB -> DB -> Prop.
Hypothesis P_refl : forall d, P d d.
Hypothesis P_trans : forall d1 d2 d3, P d1 d2 -> P d2 d3 -> P d1 d3.

Lemma stable_ret {A} (a : A) : stable P (ret a).
Proof. intros w. apply P_refl. Qed.

Lemma stable_raise {A} (e : exn) : stable P (@raise A e).
Proof. intros w. apply P_refl. Qed.

Lemma stable_bind {A B} (m : M A) (k : A -> M B) :
  stable P m -> (forall a, stable P (k a)) -> stable P (bind m k).
Proof.
  intros Hm Hk w. unfold bind. specialize (Hm w).
  destruct (m w) as [[e | a] w1]; simpl in *; [exact Hm |].
  eapply P_trans; [exact Hm | apply Hk].
Qed.

Lemma stable_execute_query {A} (q : Stmt A) :
  stmt_stable P q -> stable P (execute_query q).
Proof.
  intros Hq w. unfold execute_query.
  destruct (next_fault w); simpl; try apply P_refl.
  destruct (q (clock w) (db w)) as [e | [a d']] eqn:E.
  - destruct e; simpl; apply P_refl.
  - simpl. eapply Hq, E.
Qed.

Lemma stmt_stable_query {A} (f : DB -> A) : stmt_stable P (query f).
Proof. intros c d a d' H. inversion H; subst. apply P_refl. Qed.

Lemma run_statements_stable {A} (qs : list (Stmt A)) :
  (forall q, In q qs -> stmt_stable P q) ->
  forall c fs d rs d' fs',
    run_statements qs c fs d = (inr (rs, d'), fs') -> P d d'.
Proof.
  induction qs as [| q qs IH]; intros Hqs c fs d rs d' fs' H; simpl in H.
  - inversion H; subst. apply P_refl.
  - assert (Hrun : match q c d with
                   | inl e => (inl e, tl fs)
                   | inr (r, d1) =>
                       match run_statements qs c (tl fs) d1 with
                       | (inr (rs, d2), fs2) => (inr (r :: rs, d2), fs2)
                       | (inl e, fs2) => (inl e, fs2)
                       end
                   end = (inr (rs, d'), fs')).
    { destruct fs as [| [| | msg] fs0]; try exact H. discriminate. }
    clear H.
    destruct (q c d) as [e | [r d1]] eqn:E; [discriminate |].
    destruct (run_statements qs c (tl fs) d1) as [[e | [rs1 d2]] fs2] eqn:E2;
      [discriminate |].
    inversion Hrun; subst.
    eapply P_trans.
    + eapply (Hqs q (or_introl eq_refl)), E.
    + eapply IH; [| exact E2]. intros q' Hq'. apply Hqs. now right.
Qed.

Lemma stable_execute_transaction {A} (qs : list (Stmt A)) :
  (forall q, In q qs -> stmt_stable P q) -> stable P (execute_transaction qs).
Proof.
  intros Hqs w. unfold execute_transaction.
  destruct (run_statements qs (clock w) (faults w) (db w))
    as [[e | [rs d']] fs] eqn:E.
  - destruct (next_fault w); destruct e; simpl; apply P_refl.
  - destruct (next_fault w); simpl; try apply P_refl;
      eapply run_statements_stable; eauto.
Qed.

Lemma stable_try_except {A} (m : M A) (handler : exn -> option (M A)) :
  stable P m -> (forall e h, handler e = Some h -> stable P h) ->
  stable P (try_except m handler).
Proof.
  intros Hm Hh w. unfold try_except. specialize (Hm w).
  destruct (m w) as [[e | a] w1]; simpl in *; [| exact Hm].
  destruct (handler e) as [h |] eqn:E; simpl; [| exact Hm].
  eapply P_trans; [exact Hm | eapply Hh, E].
Qed.

Lemma stable_for_each {A} (items : list A) (body : A -> M unit) :
  (forall x, stable P (body x)) -> stable P (for_each items body).
Proof.
  intros Hbody. induction items as [| x items IH]; simpl.
  - apply stable_ret.
  - apply stable_bind; [apply Hbody | intros _; exact IH].
Qed.

Lemma stable_route (s : Z) (valid : bool) (handler : M Content) :
  stable P handler -> forall w, P (db w) (db (snd (route s valid handler w))).
Proof.
  intros H w. unfold route. destruct valid; [| apply P_refl].
  specialize (H w). destruct (handler w) as [[e | c] w1]; exact H.
Qed.

End Frames.

(** Decomposes a goal [stable P handler] along the text of the handler;
    what is left are the statements that write. *)
Ltac frame Hrefl Htrans :=
  repeat
    match goal with
    | |- stable _ (bind _ _) => apply (stable_bind _ Htrans); [| intros ?]
    | |- stable _ (ret _) => apply (stable_ret _ Hrefl)
    | |- stable _ (raise _) => apply (stable_raise _ Hrefl)
    | |- stable _ (execute_query (query _)) =>
        apply (stable_execute_query _ Hrefl), (stmt_stable_query _ Hrefl)
    | |- stable _ (execute_query (select_book_id _)) =>
        apply (stable_execute_query _ Hrefl), (stmt_stable_query _ Hrefl)
    | |- stable _ (execute_query (select_member_id _)) =>
        apply (stable_execute_query _ Hrefl), (stmt_stable_query _ Hrefl)
    | |- stable _ (execute_query select_last_insert_id) =>
        apply (stable_execute_query _ Hrefl), (stmt_stable_query _ Hrefl)
    | |- stable _ (execute_query (count_active_loans_of_member _)) =>
        apply (stable_execute_query _ Hrefl), (stmt_stable_query _ Hrefl)
    | |- stable _ (execute_query (count_active_loans_of_book _)) =>
        apply (stable_execute_query _ Hrefl), (stmt_stable_query _ Hrefl)
    | |- stable _ (execute_query (select_active_loan _)) =>
        apply (stable_execute_query _ Hrefl), (stmt_stable_query _ Hrefl)
    | |- stable _ (execute_query _) => apply (stable_execute_query _ Hrefl)
    | |- stable _ (for_each _ _) => apply (stable_for_each _ Hrefl Htrans); intros ?
    | |- stable _ (insert_author_links _ _) => unfold insert_author_links
    | |- stable _ (try_except _ _) =>
        apply (stable_try_except _ Htrans);
        [| intros [] ? ?; try discriminate;
           match goal with H : Some _ = Some _ |- _ => inversion H; subst; clear H end]
    | |- stable _ (execute_transaction _) =>
        apply (stable_execute_transaction _ Hrefl Htrans); intros ? [<- | []]
    | |- stable _ (match ?x with _ => _ end) => destruct x
    | |- stable _ (if ?x then _ else _) => destruct x
    end.

(** ** Updates write the supplied fields only *)

Lemma Forall2_same {A} (R : A -> A -> Prop) (l : list A) :
  (forall x, R x x) -> Forall2 R l l.
Proof. intros H. induction l; constructor; auto. Qed.

Lemma Forall2_compose {A} (R : A -> A -> Prop) :
  (forall x y z, R x y -> R y z -> R x z) ->
  forall l1 l2 l3, Forall2 R l1 l2 -> Forall2 R l2 l3 -> Forall2 R l1 l3.
Proof.
  intros HR l1 l2 l3 H12. revert l3.
  induction H12; intros l3 H23; inversion H23; subst; constructor; eauto.
Qed.

Lemma Forall2_map_r {A} (R : A -> A -> Prop) (f : A -> A) (l : list A) :
  (forall x, R x (f x)) -> Forall2 R l (map f l).
Proof. intros H. induction l; simpl; constructor; auto. Qed.

Lemma written_unsupplied {A} (f : Field A) (old : A) :
  supplied f = false -> written f old = old.
Proof. destruct f; simpl; congruence. Qed.

Lemma written_nullable_unsupplied {A} (f : Field A) (old : option A) :
  supplied f = false -> written_nullable f old = old.
Proof. destruct f; simpl; congruence. Qed.

Lemma written_nullable_none {A} (f : Field A) (old : option A) :
  written_nullable f old = None -> old = None.
Proof. destruct f; simpl; congruence. Qed.

Lemma placeholder_unsupplied {A} (column : string) (f : Field A) :
  supplied f = false -> placeholder column f = [].
Proof. unfold placeholder. now intros ->. Qed.

Lemma cell_of_null {A} (inj : A -> Cell) (o : option A) :
  (forall v, inj v <> CNull) -> cell_of inj o = CNull -> o = None.
Proof. destruct o; simpl; [intros H E; now apply H in E | reflexivity]. Qed.

Lemma book_row_patched_refl (book : BookUpdate) (b : Book) :
  book_row_patched book b b.
Proof. repeat split; auto. Qed.

Lemma book_row_patched_trans (book : BookUpdate) (b1 b2 b3 : Book) :
  book_row_patched book b1 b2 -> book_row_patched book b2 b3 ->
  book_row_patched book b1 b3.
Proof.
  intros (I1 & U1 & N1) (I2 & U2 & N2). repeat split.
  - congruence.
  - intros col H. rewrite (U2 col H). now apply U1.
  - intros col H. apply N1, N2, H.
Qed.

Lemma set_book_fields_patched (book : BookUpdate) (c : Clock) (b : Book) :
  book_row_patched book b (set_book_fields book c b).
Proof.
  repeat split.
  - intros col H. destruct col; simpl in *;
      rewrite ?written_unsupplied, ?written_nullable_unsupplied by exact H;
      reflexivity.
  - intros col H. destruct col; simpl in *; try discriminate;
      apply cell_of_null in H; try discriminate;
      apply written_nullable_none in H; now rewrite H.
Qed.

Lemma member_row_patched_refl (member : MemberUpdate) (m : Member) :
  member_row_patched member m m.
Proof. repeat split; auto. Qed.

Lemma member_row_patched_trans (member : MemberUpdate) (m1 m2 m3 : Member) :
  member_row_patched member m1 m2 -> member_row_patched member m2 m3 ->
  member_row_patched member m1 m3.
Proof.
  intros (I1 & U1 & N1) (I2 & U2 & N2). repeat split.
  - congruence.
  - intros col H. rewrite (U2 col H). now apply U1.
  - intros col H. apply N1, N2, H.
Qed.

Lemma set_member_fields_patched (member : MemberUpdate) (c : Clock) (m : Member) :
  member_row_patched member m (set_member_fields member c m).
Proof.
  repeat split.
  - intros col H. destruct col; simpl in *;
      rewrite ?written_unsupplied, ?written_nullable_unsupplied by exact H;
      reflexivity.
  - intros col H. destruct col; simpl in *; try discriminate;
      apply cell_of_null in H; try discriminate;
      apply written_nullable_none in H; now rewrite H.
Qed.

Lemma update_book_patches (book_id : Z) (book : BookUpdate) :
  stable (fun d d' => Forall2 (book_row_patched book) (books d) (books d'))
         (update_book book_id book).
Proof.
  set (P := fun d d' => Forall2 (book_row_patched book) (books d) (books d')).
  assert (Hrefl : forall d, P d d).
  { intros d. apply Forall2_same, book_row_patched_refl. }
  assert (Htrans : forall d1 d2 d3, P d1 d2 -> P d2 d3 -> P d1 d3).
  { intros d1 d2 d3. apply Forall2_compose, book_row_patched_trans. }
  unfold update_book. frame Hrefl Htrans.
  all: intros c d r d' H.
  all: try (inversion H; subst; match goal with |- _ ?x _ => exact (Hrefl x) end).
  unfold update_books_set in H.
  destruct (match bu_isbn book with SetTo _ => _ | _ => false end);
    inversion H; subst.
  unfold P; simpl. apply Forall2_map_r. intros b.
  destruct (b_book_id b =? book_id);
    [apply set_book_fields_patched | apply book_row_patched_refl].
Qed.

Lemma book_update_fields_empty (book : BookUpdate) :
  (forall col, book_field_supplied col book = false) ->
  book_update_fields book = [].
Proof.
  intros H. unfold book_update_fields.
  rewrite (placeholder_unsupplied _ _ (H BookColumn.isbn)),
    (placeholder_unsupplied _ _ (H BookColumn.title)),
    (placeholder_unsupplied _ _ (H BookColumn.subtitle)),
    (placeholder_unsupplied _ _ (H BookColumn.publication_date)),
    (placeholder_unsupplied _ _ (H BookColumn.edition)),
    (placeholder_unsupplied _ _ (H BookColumn.pages)),
    (placeholder_unsupplied _ _ (H BookColumn.language)),
    (placeholder_unsupplied _ _ (H BookColumn.book_condition)),
    (placeholder_unsupplied _ _ (H BookColumn.location_shelf)),
    (placeholder_unsupplied _ _ (H BookColumn.total_copies)),
    (placeholder_unsupplied _ _ (H BookColumn.available_copies)),
    (placeholder_unsupplied _ _ (H BookColumn.price)),
    (placeholder_unsupplied _ _ (H BookColumn.publisher_id)),
    (placeholder_unsupplied _ _ (H BookColumn.category_id)).
  reflexivity.
Qed.

Lemma member_update_fields_empty (member : MemberUpdate) :
  (forall col, member_field_supplied col member = false) ->
  member_update_fields member = [].
Proof.
  intros H. unfold member_update_fields.
  rewrite (placeholder_unsupplied _ _ (H MemberColumn.membership_number)),
    (placeholder_unsupplied _ _ (H MemberColumn.first_name)),
    (placeholder_unsupplied _ _ (H MemberColumn.last_name)),
    (placeholder_unsupplied _ _ (H MemberColumn.date_of_birth)),
    (placeholder_unsupplied _ _ (H MemberColumn.gender)),
    (placeholder_unsupplied _ _ (H MemberColumn.email)),
    (placeholder_unsupplied _ _ (H MemberColumn.phone_number)),
    (placeholder_unsupplied _ _ (H MemberColumn.address)),
    (placeholder_unsupplied _ _ (H MemberColumn.city)),
    (placeholder_unsupplied _ _ (H MemberColumn.postal_code)),
    (placeholder_unsupplied _ _ (H MemberColumn.membership_type)),
    (placeholder_unsupplied _ _ (H MemberColumn.membership_start_date)),
    (placeholder_unsupplied _ _ (H MemberColumn.membership_expiry_date)),
    (placeholder_unsupplied _ _ (H MemberColumn.is_active)),
    (placeholder_unsupplied _ _ (H MemberColumn.max_books_allowed)).
  reflexivity.
Qed.

Lemma update_book_without_values (book_id : Z) (book : BookUpdate) :
  (forall col, book_field_supplied col book = false) ->
  stable (fun d d' => books d' = books d) (update_book book_id book).
Proof.
  intros Hnone.
  set (P := fun d d' : DB => books d' = books d).
  assert (Hrefl : forall d, P d d) by reflexivity.
  assert (Htrans : forall d1 d2 d3, P d1 d2 -> P d2 d3 -> P d1 d3)
    by (unfold P; intros; congruence).
  unfold update_book. rewrite (book_update_fields_empty book Hnone).
  cbv beta iota. frame Hrefl Htrans.
  all: intros c d r d' H; inversion H; subst; reflexivity.
Qed.

Lemma update_member_patches (member_id : Z) (member : MemberUpdate) :
  stable (fun d d' => Forall2 (member_row_patched member) (members d) (members d'))
         (update_member member_id member).
Proof.
  set (P := fun d d' =>
              Forall2 (member_row_patched member) (members d) (members d')).
  assert (Hrefl : forall d, P d d).
  { intros d. apply Forall2_same, member_row_patched_refl. }
  assert (Htrans : forall d1 d2 d3, P d1 d2 -> P d2 d3 -> P d1 d3).
  { intros d1 d2 d3. apply Forall2_compose, member_row_patched_trans. }
  unfold update_member. frame Hrefl Htrans.
  intros c d r d' H. unfold update_members_set in H.
  destruct (match mu_membership_number member with SetTo _ => _ | _ => false end);
    [discriminate |].
  destruct (match mu_email member with SetTo _ => _ | _ => false end);
    inversion H; subst.
  unfold P; simpl. apply Forall2_map_r. intros m.
  destruct (m_member_id m =? member_id);
    [apply set_member_fields_patched | apply member_row_patched_refl].
Qed.

Lemma update_member_without_values (member_id : Z) (member : MemberUpdate) :
  (forall col, member_field_supplied col member = false) ->
  stable (fun d d' => d' = d) (update_member member_id member).
Proof.
  intros Hnone.
  set (P := fun d d' : DB => d' = d).
  assert (Hrefl : forall d, P d d) by reflexivity.
  assert (Htrans : forall d1 d2 d3, P d1 d2 -> P d2 d3 -> P d1 d3)
    by (unfold P; intros; congruence).
  unfold update_member. rewrite (member_update_fields_empty member Hnone).
  cbv beta iota. frame Hrefl Htrans.
Qed.

Lemma update_book_keeps_authors (book_id : Z) (book : BookUpdate) :
  supplied (bu_authors book) = false ->
  stable (fun d d' => book_authors d' = book_authors d) (update_book book_id book).
Proof.
  intros Hnone.
  set (P := fun d d' : DB => book_authors d' = book_authors d).
  assert (Hrefl : forall d, P d d) by reflexivity.
  assert (Htrans : forall d1 d2 d3, P d1 d2 -> P d2 d3 -> P d1 d3)
    by (unfold P; intros; congruence).
  unfold update_book.
  destruct (bu_authors book); try discriminate; frame Hrefl Htrans.
  all: intros c d r d' H; unfold update_books_set in H.
  all: destruct (match bu_isbn book with SetTo _ => _ | _ => false end);
    inversion H; subst; reflexivity.
Qed.

(** C10.  [update_book] and [update_member] relate every stored row to the
    row they leave in its place as follows: the key is kept, a column whose
    field is null or omitted in the body keeps its value, and no column that
    held a value is NULL afterwards; with [authors] null or omitted the
    author links stay as they were.  When every field of the body is null
    or omitted, the rows of the table -- [updated_at] included -- are the
    ones that were there; for a member the whole database is. *)
Theorem update_leaves_null_and_omitted_fields (w : World) :
  (forall book_id book,
      Forall2 (book_row_patched book) (books (db w))
              (books (db (snd (update_book book_id book w))))
      /\ (supplied (bu_authors book) = false ->
          book_authors (db (snd (update_book book_id book w)))
          = book_authors (db w))
      /\ ((forall col, book_field_supplied col book = false) ->
          books (db (snd (update_book book_id book w))) = books (db w)))
  /\ (forall member_id member,
      Forall2 (member_row_patched member) (members (db w))
              (members (db (snd (update_member member_id member w))))
      /\ ((forall col, member_field_supplied col member = false) ->
          db (snd (update_member member_id member w)) = db w)).
Proof.
  split.
  - intros book_id book. split; [| split].
    + apply (update_book_patches book_id book w).
    + intros H. apply (update_book_keeps_authors book_id book H w).
    + intros H. apply (update_book_without_values book_id book H w).
  - intros member_id member. split.
    + apply (update_member_patches member_id member w).
    + intros H. apply (update_member_without_values member_id member H w).
Qed.

(** ** The loan limit over runs of calls *)

Lemma lending_invariant_same (d d' : DB) :
  same_members_and_loans d d' -> keeps_lending_invariant d d'.
Proof.
  intros [Hm [Hl _]] [HL HB]. split.
  - intros id m. unfold find_member, active_loans_of_member. rewrite Hm, Hl.
    apply HL.
  - intros l. unfold find_member. rewrite Hm, Hl. apply HB.
Qed.

Lemma same_members_and_loans_refl (d : DB) : same_members_and_loans d d.
Proof. repeat split. Qed.

Lemma same_members_and_loans_trans (d1 d2 d3 : DB) :
  same_members_and_loans d1 d2 -> same_members_and_loans d2 d3 ->
  same_members_and_loans d1 d3.
Proof. intros (A & B & C) (D & E & F). repeat split; congruence. Qed.

Lemma keeps_lending_invariant_refl (d : DB) : keeps_lending_invariant d d.
Proof. intros H; exact H. Qed.

Lemma keeps_lending_invariant_trans (d1 d2 d3 : DB) :
  keeps_lending_invariant d1 d2 -> keeps_lending_invariant d2 d3 ->
  keeps_lending_invariant d1 d3.
Proof. unfold keeps_lending_invariant. auto. Qed.

Lemma create_book_frame (book : BookCreate) :
  stable same_members_and_loans (create_book book).
Proof.
  unfold create_book. cbv zeta.
  frame same_members_and_loans_refl same_members_and_loans_trans.
  all: intros c d r d' H.
  all: try solve [inversion H; subst; repeat split].
  unfold insert_book in H.
  destruct (bc_edition book), (bc_language book), (bc_book_condition book);
    try discriminate.
  destruct (existsb _ _); inversion H; subst. repeat split.
Qed.

Lemma update_book_frame (book_id : Z) (book : BookUpdate) :
  stable same_members_and_loans (update_book book_id book).
Proof.
  unfold update_book.
  frame same_members_and_loans_refl same_members_and_loans_trans.
  all: intros c d r d' H.
  all: try solve [inversion H; subst; repeat split].
  unfold update_books_set in H.
  destruct (match bu_isbn book with SetTo _ => _ | _ => false end);
    inversion H; subst. repeat split.
Qed.

Lemma delete_book_frame (book_id : Z) :
  stable same_members_and_loans (delete_book book_id).
Proof.
  unfold delete_book.
  frame same_members_and_loans_refl same_members_and_loans_trans.
  intros c d r d' H. inversion H; subst. repeat split.
Qed.

Lemma get_books_frame (like title_le : string -> string -> bool) (page limit : Z)
    (search category : option string) (available : option bool) :
  stable same_members_and_loans
         (get_books like title_le page limit search category available).
Proof.
  unfold get_books. cbv zeta.
  frame same_members_and_loans_refl same_members_and_loans_trans.
  all: apply stmt_stable_query, same_members_and_loans_refl.
Qed.

Lemma count_rows_app {A} (p : A -> bool) (l1 l2 : list A) :
  count_rows p (l1 ++ l2) = count_rows p l1 + count_rows p l2.
Proof. unfold count_rows. rewrite filter_app, length_app. lia. Qed.

Lemma count_rows_none {A} (p : A -> bool) (l : list A) :
  (forall x, In x l -> p x = false) -> count_rows p l = 0.
Proof.
  unfold count_rows. induction l as [| a l IH]; intros H; simpl; [reflexivity |].
  rewrite (H a (or_introl eq_refl)). apply IH. intros x Hx. apply H. now right.
Qed.

Lemma find_map_same_key {A} (key : A -> Z) (f : A -> A) (id : Z) (l : list A) :
  (forall x, key (f x) = key x) ->
  find (fun x => key x =? id) (map f l)
  = option_map f (find (fun x => key x =? id) l).
Proof.
  intros Hk. induction l as [| a l IH]; simpl; [reflexivity |].
  rewrite Hk. destruct (key a =? id); [reflexivity | exact IH].
Qed.

Lemma mark_returned_active (c : Clock) (tid : Z) (l : Loan) :
  loan_is_active (mark_returned c tid l) = true ->
  mark_returned c tid l = l.
Proof.
  unfold mark_returned. destruct (lt_transaction_id l =? tid); [| reflexivity].
  discriminate.
Qed.

Lemma mark_returned_member (c : Clock) (tid : Z) (l : Loan) :
  lt_member_id (mark_returned c tid l) = lt_member_id l.
Proof. unfold mark_returned. now destruct (lt_transaction_id l =? tid). Qed.

Lemma count_active_mark_returned (c : Clock) (tid id : Z) (ls : list Loan) :
  count_rows (active_loan_of_member id) (map (mark_returned c tid) ls)
  <= count_rows (active_loan_of_member id) ls.
Proof.
  unfold count_rows. induction ls as [| l ls IH]; simpl; [lia |].
  assert (Hle : active_loan_of_member id (mark_returned c tid l) = true ->
                active_loan_of_member id l = true).
  { unfold active_loan_of_member. rewrite mark_returned_member.
    intros H. apply andb_true_iff in H as [H1 H2].
    pose proof (mark_returned_active c tid l H2) as Hm. rewrite Hm in H2.
    now rewrite H1, H2. }
  destruct (active_loan_of_member id (mark_returned c tid l)).
  - rewrite (Hle eq_refl). cbn [List.length]. rewrite !Nat2Z.inj_succ. lia.
  - destruct (active_loan_of_member id l); cbn [List.length];
      [rewrite Nat2Z.inj_succ |]; lia.
Qed.

Lemma update_loan_returned_keeps (tid : Z) :
  stmt_stable keeps_lending_invariant (update_loan_returned tid).
Proof.
  intros c d r d' H [HL HB]. inversion H; subst; clear H. split.
  - intros id m Hm. unfold find_member in Hm. simpl in Hm.
    specialize (HL id m Hm). unfold active_loans_of_member in *; simpl.
    pose proof (count_active_mark_returned c tid id (loan_transactions d)). lia.
  - intros l Hl Ha. simpl in Hl. apply in_map_iff in Hl as (l0 & <- & Hl0).
    pose proof (mark_returned_active c tid l0 Ha) as Hm.
    rewrite Hm in Ha |- *. simpl. exact (HB l0 Hl0 Ha).
Qed.

Lemma increment_available_copies_keeps (book_id : Z) :
  stmt_stable keeps_lending_invariant (increment_available_copies book_id).
Proof.
  intros c d r d' H. inversion H; subst.
  apply lending_invariant_same. repeat split.
Qed.

Lemma return_book_keeps (tid : Z) :
  stable keeps_lending_invariant (return_book tid).
Proof.
  unfold return_book.
  frame keeps_lending_invariant_refl keeps_lending_invariant_trans.
  - apply update_loan_returned_keeps.
  - apply increment_available_copies_keeps.
Qed.

Lemma deactivate_keeps (member_id : Z) :
  stmt_stable keeps_lending_invariant (update_members_deactivate member_id).
Proof.
  intros c d r d' H [HL HB]. inversion H; subst; clear H.
  assert (Hfind : forall id,
             find_member id (with_members d (map (deactivate c member_id) (members d)))
             = option_map (deactivate c member_id) (find_member id d)).
  { intros id. unfold find_member; simpl. apply find_map_same_key.
    intros m. unfold deactivate. now destruct (m_member_id m =? member_id). }
  split.
  - intros id m Hm. rewrite Hfind in Hm.
    destruct (find_member id d) as [m0 |] eqn:E; [| discriminate].
    inversion Hm; subst. specialize (HL id m0 E).
    unfold active_loans_of_member in *; simpl.
    unfold deactivate. now destruct (m_member_id m0 =? member_id).
  - intros l Hl Ha. rewrite Hfind. specialize (HB l Hl Ha).
    now destruct (find_member (lt_member_id l) d).
Qed.

Lemma delete_member_keeps (member_id : Z) :
  stable keeps_lending_invariant (delete_member member_id).
Proof.
  unfold delete_member.
  frame keeps_lending_invariant_refl keeps_lending_invariant_trans.
  apply deactivate_keeps.
Qed.

Lemma insert_member_keeps (member : MemberCreate) :
  optional (fun n => 0 <? n) (mc_max_books_allowed member) = true ->
  stmt_stable keeps_lending_invariant (insert_member member).
Proof.
  intros Hvalid c d r d' H [HL HB]. unfold insert_member in H.
  destruct (mc_membership_type member) as [mt |]; [| discriminate].
  destruct (mc_max_books_allowed member) as [mx |]; [| discriminate].
  destruct (existsb _ _); [discriminate |].
  destruct (match mc_email member with Some _ => _ | None => false end);
    [discriminate |].
  inversion H; subst; clear H. simpl in Hvalid. apply Z.ltb_lt in Hvalid.
  split.
  - intros id m Hm. unfold find_member in Hm; simpl in Hm.
    rewrite find_app_l in Hm. unfold active_loans_of_member; simpl.
    destruct (find _ (members d)) as [m0 |] eqn:E.
    + inversion Hm; subst. exact (HL id m E).
    + simpl in Hm. destruct (next_member_id d =? id); [| discriminate].
      inversion Hm; subst; simpl.
      rewrite count_rows_none; [lia |].
      intros l Hl. unfold active_loan_of_member.
      destruct (lt_member_id l =? id) eqn:Eid; [| reflexivity].
      apply Z.eqb_eq in Eid. subst id. simpl.
      destruct (loan_is_active l) eqn:Ea; [| reflexivity].
      exfalso. exact (HB l Hl Ea E).
  - intros l Hl Ha. unfold find_member; simpl. rewrite find_app_l.
    specialize (HB l Hl Ha). unfold find_member in HB.
    now destruct (find _ (members d)).
Qed.

Lemma create_member_keeps (member : MemberCreate) :
  optional (fun n => 0 <? n) (mc_max_books_allowed member) = true ->
  stable keeps_lending_invariant (create_member member).
Proof.
  intros Hvalid. unfold create_member.
  frame keeps_lending_invariant_refl keeps_lending_invariant_trans.
  now apply insert_member_keeps.
Qed.

Lemma update_members_set_keeps (member_id : Z) (member : MemberUpdate) :
  stmt_stable (keeps_lending_invariant_under member_id member)
              (update_members_set member member_id).
Proof.
  intros c d r d' H [[HL HB] HG]. unfold update_members_set in H.
  destruct (match mu_membership_number member with SetTo _ => _ | _ => false end);
    [discriminate |].
  destruct (match mu_email member with SetTo _ => _ | _ => false end);
    inversion H; subst; clear H.
  set (f := fun m => if m_member_id m =? member_id
                     then set_member_fields member c m else m).
  assert (Hfind : forall id,
             find_member id (with_members d (map f (members d)))
             = option_map f (find_member id d)).
  { intros id. unfold find_member; simpl. apply find_map_same_key.
    intros m. unfold f. now destruct (m_member_id m =? member_id). }
  repeat split.
  - intros id m Hm. rewrite Hfind in Hm.
    destruct (find_member id d) as [m0 |] eqn:E; [| discriminate].
    inversion Hm; subst; clear Hm. specialize (HL id m0 E).
    unfold active_loans_of_member in *; simpl. unfold f.
    destruct (m_member_id m0 =? member_id) eqn:Ehit; [| exact HL].
    assert (id = member_id); [| subst id].
    { unfold find_member in E. apply find_some in E as [_ E].
      apply Z.eqb_eq in E, Ehit. congruence. }
    unfold limit_covers_loans, active_loans_of_member in HG. simpl.
    destruct (mu_max_books_allowed member); simpl; assumption.
  - intros l Hl Ha. rewrite Hfind. specialize (HB l Hl Ha).
    now destruct (find_member (lt_member_id l) d).
  - exact HG.
Qed.

Lemma update_member_keeps (member_id : Z) (member : MemberUpdate) :
  stable (keeps_lending_invariant_under member_id member)
         (update_member member_id member).
Proof.
  set (P := keeps_lending_invariant_under member_id member).
  assert (Hrefl : forall d, P d d) by (intros d H; exact H).
  assert (Htrans : forall d1 d2 d3, P d1 d2 -> P d2 d3 -> P d1 d3)
    by (unfold P, keeps_lending_invariant_under; auto).
  unfold update_member. frame Hrefl Htrans.
  apply update_members_set_keeps.
Qed.

(** The databases a call of [create_loan] can leave: the one it found, or --
    after all checks passed -- that one with the loan row, with or without
    the copy taken off the book. *)
Lemma create_loan_outcomes (loan : LoanCreate) (w : World) :
  db (snd (create_loan loan w)) = db w
  \/ ((exists m, find_member (lc_member_id loan) (db w) = Some m
                 /\ active_loans_of_member (lc_member_id loan) (db w)
                    < m_max_books_allowed m)
      /\ (exists b, find_book (lc_book_id loan) (db w) = Some b
                    /\ 0 < b_available_copies b)
      /\ (db (snd (create_loan loan w)) = loan_inserted (clock w) loan (db w)
          \/ db (snd (create_loan loan w)) = borrowed (clock w) loan (db w))).
Proof.
  destruct (create_loan loan w) as [[e | r] w'] eqn:E; cbn [snd].
  2:{ apply create_loan_inr in E as (Hd & _ & Hb & (m & Hm & _ & Hc)).
      right. split; [exists m; auto | split; [exact Hb | right; exact Hd]]. }
  unfold create_loan in E.
  apply bind_inl in E as [H | (book & w1 & H1 & H)].
  { apply execute_query_inl in H as (-> & _). now left. }
  apply execute_query_inr in H1 as (d1 & H1 & ->).
  unfold select_available_copies, query in H1. inversion H1; subst; clear H1.
  destruct (find_book (lc_book_id loan) (db w)) as [b |] eqn:Eb; simpl in H.
  2:{ unfold raise in H. inversion H; subst. now left. }
  destruct (b_available_copies b <=? 0) eqn:Ea.
  { unfold raise in H. inversion H; subst. now left. }
  apply Z.leb_gt in Ea.
  apply bind_inl in H as [H | (member & w2 & H2 & H)].
  { apply execute_query_inl in H as (-> & _). now left. }
  apply execute_query_inr in H2 as (d2 & H2 & ->).
  unfold select_member_status, query in H2. simpl in H2.
  inversion H2; subst; clear H2.
  destruct (find_member (lc_member_id loan) (db w)) as [m |] eqn:Em; simpl in H.
  2:{ unfold raise in H. inversion H; subst. now left. }
  destruct (negb (m_is_active m)).
  { unfold raise in H. inversion H; subst. now left. }
  apply bind_inl in H as [H | (n & w3 & H3 & H)].
  { apply execute_query_inl in H as (-> & _). now left. }
  apply execute_query_inr in H3 as (d3 & H3 & ->).
  unfold count_active_loans_of_member, query in H3. simpl in H3.
  inversion H3; subst; clear H3.
  destruct (_ >=? _) eqn:Ec.
  { unfold raise in H. inversion H; subst. now left. }
  rewrite Z.geb_leb in Ec. apply Z.leb_gt in Ec.
  apply bind_inl in H as [H | (n1 & w4 & H4 & H)].
  { apply execute_query_inl in H as (-> & _). now left. }
  apply execute_query_inr in H4 as (d4 & H4 & ->).
  unfold insert_loan in H4. simpl in H4. inversion H4; subst; clear H4.
  right. split; [exists m; auto | split; [exists b; auto |]].
  apply bind_inl in H as [H | (n2 & w5 & H5 & H)].
  { apply execute_query_inl in H as (-> & _). now left. }
  discriminate.
Qed.

Lemma loan_inserted_keeps (c : Clock) (loan : LoanCreate) (d : DB) (m : Member) :
  find_member (lc_member_id loan) d = Some m ->
  active_loans_of_member (lc_member_id loan) d < m_max_books_allowed m ->
  keeps_lending_invariant d (loan_inserted c loan d).
Proof.
  intros Hm Hc [HL HB]. split.
  - intros id m' Hm'. unfold find_member in *; simpl in Hm'.
    specialize (HL id m' Hm').
    unfold active_loans_of_member in *; simpl. rewrite count_rows_app.
    unfold count_rows at 2; simpl. unfold active_loan_of_member at 2; simpl.
    destruct (lc_member_id loan =? id) eqn:Eid; simpl; [| lia].
    apply Z.eqb_eq in Eid. subst id.
    assert (m' = m) by congruence. subst m'. lia.
  - intros l Hl Ha. simpl in Hl. apply in_app_or in Hl as [Hl | [<- | []]].
    + exact (HB l Hl Ha).
    + simpl. unfold find_member in *; simpl. rewrite Hm. discriminate.
Qed.

Lemma create_loan_keeps (loan : LoanCreate) :
  stable keeps_lending_invariant (create_loan loan).
Proof.
  intros w. destruct (create_loan_outcomes loan w)
    as [-> | [(m & Hm & Hc) [_ [-> | ->]]]].
  - apply keeps_lending_invariant_refl.
  - now apply (loan_inserted_keeps _ _ _ m).
  - apply keeps_lending_invariant_trans
      with (d2 := loan_inserted (clock w) loan (db w)).
    + now apply (loan_inserted_keeps (clock w) loan (db w) m).
    + apply lending_invariant_same. repeat split.
Qed.

(** *** Transaction ids stay below the AUTO_INCREMENT counter *)

Lemma transaction_ids_fresh_same (d d' : DB) :
  same_loans d d' -> keeps_transaction_ids_fresh d d'.
Proof. intros [Hl Hn] H l. rewrite Hl, Hn. apply H. Qed.

Lemma same_books_and_loans_refl (d : DB) : same_books_and_loans d d.
Proof. repeat split. Qed.

Lemma same_books_and_loans_trans (d1 d2 d3 : DB) :
  same_books_and_loans d1 d2 -> same_books_and_loans d2 d3 ->
  same_books_and_loans d1 d3.
Proof.
  intros [[A B] [C D]] [[E F] [G H]]. repeat split; congruence.
Qed.

Lemma create_member_frame (member : MemberCreate) :
  stable same_books_and_loans (create_member member).
Proof.
  unfold create_member.
  frame same_books_and_loans_refl same_books_and_loans_trans.
  intros c d r d' H. unfold insert_member in H.
  destruct (mc_membership_type member), (mc_max_books_allowed member);
    try discriminate.
  destruct (existsb _ _); [discriminate |].
  destruct (match mc_email member with Some _ => _ | None => false end);
    inversion H; subst. repeat split.
Qed.

Lemma update_member_frame (member_id : Z) (member : MemberUpdate) :
  stable same_books_and_loans (update_member member_id member).
Proof.
  unfold update_member.
  frame same_books_and_loans_refl same_books_and_loans_trans.
  intros c d r d' H. unfold update_members_set in H.
  destruct (match mu_membership_number member with SetTo _ => _ | _ => false end);
    [discriminate |].
  destruct (match mu_email member with SetTo _ => _ | _ => false end);
    inversion H; subst. repeat split.
Qed.

Lemma delete_member_frame (member_id : Z) :
  stable same_books_and_loans (delete_member member_id).
Proof.
  unfold delete_member.
  frame same_books_and_loans_refl same_books_and_loans_trans.
  intros c d r d' H. inversion H; subst. repeat split.
Qed.

Lemma return_book_keeps_fresh (tid : Z) :
  stable keeps_transaction_ids_fresh (return_book tid).
Proof.
  unfold return_book.
  frame (fun (d : DB) (H : transaction_ids_fresh d) => H)
        (fun (d1 d2 d3 : DB) (H12 : keeps_transaction_ids_fresh d1 d2)
             (H23 : keeps_transaction_ids_fresh d2 d3)
             (H : transaction_ids_fresh d1) => H23 (H12 H)).
  - intros c d r d' H Hf. inversion H; subst; clear H.
    intros l1 Hl. simpl in *. apply in_map_iff in Hl as (l0 & <- & Hl0).
    specialize (Hf l0 Hl0). unfold mark_returned.
    now destruct (lt_transaction_id l0 =? tid).
  - intros c d r d' H. inversion H; subst.
    apply transaction_ids_fresh_same. split; reflexivity.
Qed.

Lemma create_loan_keeps_fresh (loan : LoanCreate) :
  stable keeps_transaction_ids_fresh (create_loan loan).
Proof.
  intros w Hf. destruct (create_loan_outcomes loan w) as [-> | [_ [_ [-> | ->]]]].
  - exact Hf.
  - apply (transaction_ids_fresh_borrowed (clock w) loan (db w)) in Hf.
    exact Hf.
  - now apply transaction_ids_fresh_borrowed.
Qed.

(** *** Available copies never go below zero *)

Lemma stock_invariant_same (d d' : DB) :
  same_books d d' -> keeps_stock_invariant d d'.
Proof.
  intros [Hb Hn] [HN [HU HI]]. repeat split.
  - intros b. rewrite Hb. apply HN.
  - now rewrite Hb.
  - intros b. rewrite Hb, Hn. apply HI.
Qed.

Lemma keeps_stock_invariant_refl (d : DB) : keeps_stock_invariant d d.
Proof. intros H; exact H. Qed.

Lemma keeps_stock_invariant_trans (d1 d2 d3 : DB) :
  keeps_stock_invariant d1 d2 -> keeps_stock_invariant d2 d3 ->
  keeps_stock_invariant d1 d3.
Proof. unfold keeps_stock_invariant. auto. Qed.

Lemma map_key_unchanged {A} (key : A -> Z) (f : A -> A) (l : list A) :
  (forall x, key (f x) = key x) -> map key (map f l) = map key l.
Proof.
  intros H. rewrite map_map. apply map_ext. exact H.
Qed.

Lemma NoDup_map_filter {A} (key : A -> Z) (p : A -> bool) (l : list A) :
  NoDup (map key l) -> NoDup (map key (filter p l)).
Proof.
  induction l as [| a l IH]; simpl; intros H; [constructor |].
  inversion H as [| ? ? Hnotin Hnd]; subst.
  destruct (p a); simpl; [| now apply IH].
  constructor; [| now apply IH].
  intros Hin. apply Hnotin. apply in_map_iff in Hin as (x & Hx & Hf).
  apply filter_In in Hf as [Hf _]. apply in_map_iff. eauto.
Qed.

Lemma unique_key {A} (key : A -> Z) (l : list A) (x y : A) :
  NoDup (map key l) -> In x l -> In y l -> key x = key y -> x = y.
Proof.
  induction l as [| a l IH]; simpl; intros Hnd Hx Hy Hk; [contradiction |].
  inversion Hnd as [| ? ? Hnotin Hnd']; subst.
  destruct Hx as [-> | Hx], Hy as [-> | Hy]; auto.
  - exfalso. apply Hnotin. rewrite Hk. now apply in_map.
  - exfalso. apply Hnotin. rewrite <- Hk. now apply in_map.
Qed.

Lemma insert_book_keeps_stock (book : BookCreate) (available_copies : Z) :
  0 <= available_copies ->
  stmt_stable keeps_stock_invariant (insert_book book available_copies).
Proof.
  intros Hn c d r d' H [HN [HU HI]]. unfold insert_book in H.
  destruct (bc_edition book), (bc_language book), (bc_book_condition book);
    try discriminate.
  destruct (existsb _ _); inversion H; subst; clear H. repeat split; simpl.
  - intros b Hb. apply in_app_or in Hb as [Hb | [<- | []]]; [now apply HN | exact Hn].
  - rewrite map_app. apply NoDup_app; [exact HU | repeat constructor; auto |].
    intros id Hin [<- | []]. apply in_map_iff in Hin as (b & Hid & Hb).
    specialize (HI b Hb). simpl in Hid. lia.
  - intros b Hb. apply in_app_or in Hb as [Hb | [<- | []]];
      [specialize (HI b Hb) | simpl]; lia.
Qed.

Lemma update_books_set_keeps_stock (book : BookUpdate) (book_id : Z) :
  field_ok (fun n => 0 <=? n) (bu_available_copies book) = true ->
  stmt_stable keeps_stock_invariant (update_books_set book book_id).
Proof.
  intros Hv c d r d' H [HN [HU HI]]. unfold update_books_set in H.
  destruct (match bu_isbn book with SetTo _ => _ | _ => false end);
    inversion H; subst; clear H.
  set (f := fun b => if b_book_id b =? book_id
                     then set_book_fields book c b else b).
  assert (Hid : forall b, b_book_id (f b) = b_book_id b).
  { intros b. unfold f. now destruct (b_book_id b =? book_id). }
  repeat split; simpl.
  - intros b' Hb'. apply in_map_iff in Hb' as (b & <- & Hb).
    specialize (HN b Hb). unfold f. destruct (b_book_id b =? book_id); [| exact HN].
    simpl. destruct (bu_available_copies book); simpl in *;
      try exact HN. now apply Z.leb_le.
  - fold f. now rewrite (map_key_unchanged b_book_id f).
  - intros b' Hb'. apply in_map_iff in Hb' as (b & <- & Hb).
    rewrite Hid. now apply HI.
Qed.

Lemma delete_from_books_keeps_stock (book_id : Z) :
  stmt_stable keeps_stock_invariant (delete_from_books book_id).
Proof.
  intros c d r d' H [HN [HU HI]]. inversion H; subst; clear H.
  repeat split; simpl.
  - intros b Hb. apply filter_In in Hb as [Hb _]. now apply HN.
  - now apply NoDup_map_filter.
  - intros b Hb. apply filter_In in Hb as [Hb _]. now apply HI.
Qed.

Lemma create_book_keeps_stock (book : BookCreate) :
  BookCreate_valid book = true ->
  stable keeps_stock_invariant (create_book book).
Proof.
  intros V. unfold BookCreate_valid in V.
  repeat (apply andb_true_iff in V as [V ?]).
  assert (Havail : 0 <= match bc_available_copies book with
                       | Some n => n
                       | None => bc_total_copies book
                       end).
  { destruct (bc_available_copies book); simpl in *; lia. }
  unfold create_book. cbv zeta.
  frame keeps_stock_invariant_refl keeps_stock_invariant_trans.
  all: try (now apply insert_book_keeps_stock).
  all: intros c d r d' Hq; inversion Hq; subst;
    apply stock_invariant_same; split; reflexivity.
Qed.

Lemma update_book_keeps_stock (book_id : Z) (book : BookUpdate) :
  BookUpdate_valid book = true ->
  stable keeps_stock_invariant (update_book book_id book).
Proof.
  intros V. unfold BookUpdate_valid in V.
  repeat (apply andb_true_iff in V as [V ?]).
  unfold update_book.
  frame keeps_stock_invariant_refl keeps_stock_invariant_trans.
  all: try (now apply update_books_set_keeps_stock).
  all: intros c d r d' Hq; inversion Hq; subst;
    apply stock_invariant_same; split; reflexivity.
Qed.

Lemma delete_book_keeps_stock (book_id : Z) :
  stable keeps_stock_invariant (delete_book book_id).
Proof.
  unfold delete_book.
  frame keeps_stock_invariant_refl keeps_stock_invariant_trans.
  apply delete_from_books_keeps_stock.
Qed.

Lemma add_available_copies_keeps_ids (delta book_id : Z) (bs : list Book) :
  map b_book_id (map (add_available_copies delta book_id) bs) = map b_book_id bs.
Proof.
  apply map_key_unchanged. intros b. unfold add_available_copies.
  now destruct (b_book_id b =? book_id).
Qed.

Lemma return_book_keeps_stock (tid : Z) :
  stable keeps_stock_invariant (return_book tid).
Proof.
  unfold return_book.
  frame keeps_stock_invariant_refl keeps_stock_invariant_trans.
  - intros c d r d' H. inversion H; subst.
    apply stock_invariant_same. split; reflexivity.
  - intros c d r d' H [HN [HU HI]]. inversion H; subst; clear H.
    repeat split; simpl.
    + intros b' Hb'. apply in_map_iff in Hb' as (b & <- & Hb).
      specialize (HN b Hb). unfold add_available_copies.
      destruct (b_book_id b =? lt_book_id l); simpl; lia.
    + now rewrite add_available_copies_keeps_ids.
    + intros b' Hb'. apply in_map_iff in Hb' as (b & <- & Hb).
      specialize (HI b Hb). unfold add_available_copies.
      now destruct (b_book_id b =? lt_book_id l).
Qed.

Lemma create_loan_keeps_stock (loan : LoanCreate) :
  stable keeps_stock_invariant (create_loan loan).
Proof.
  intros w Hs.
  destruct (create_loan_outcomes loan w) as [-> | [_ [(b0 & Hb0 & Ha) [-> | ->]]]].
  - exact Hs.
  - revert Hs. apply stock_invariant_same. split; reflexivity.
  - destruct Hs as [HN [HU HI]]. repeat split; simpl.
    + intros b' Hb'. apply in_map_iff in Hb' as (b & <- & Hb).
      specialize (HN b Hb). unfold add_available_copies.
      destruct (b_book_id b =? lc_book_id loan) eqn:E; [| exact HN].
      unfold find_book in Hb0. apply find_some in Hb0 as [Hin Hid].
      assert (b = b0); [| subst b; simpl; lia].
      apply (unique_key b_book_id (books (db w))); auto.
      apply Z.eqb_eq in E, Hid. congruence.
    + now rewrite add_available_copies_keeps_ids.
    + intros b' Hb'. apply in_map_iff in Hb' as (b & <- & Hb).
      specialize (HI b Hb). unfold add_available_copies.
      now destruct (b_book_id b =? lc_book_id loan).
Qed.

Section Runs.

Variable email_str : string -> bool.
Variable like : string -> string -> bool.
Variable title_le : string -> string -> bool.

Lemma serve_keeps_lending_invariant (r : Request) (w : World) :
  keeps_limit r (db w) = true ->
  lending_invariant (db w) ->
  lending_invariant (db (snd (serve email_str like title_le r w))).
Proof.
  intros Hk Hinv. destruct r; cbn [serve].
  - apply (lending_invariant_same (db w)); [| exact Hinv].
    apply (stable_route same_members_and_loans same_members_and_loans_refl).
    apply get_books_frame.
  - apply (lending_invariant_same (db w)); [| exact Hinv].
    apply (stable_route same_members_and_loans same_members_and_loans_refl).
    apply create_book_frame.
  - apply (lending_invariant_same (db w)); [| exact Hinv].
    apply (stable_route same_members_and_loans same_members_and_loans_refl).
    apply update_book_frame.
  - apply (lending_invariant_same (db w)); [| exact Hinv].
    apply (stable_route same_members_and_loans same_members_and_loans_refl).
    apply delete_book_frame.
  - destruct (MemberCreate_valid email_str (today (clock w)) member) eqn:V;
      [| exact Hinv].
    unfold MemberCreate_valid in V. apply andb_true_iff in V as [_ V].
    apply (stable_route keeps_lending_invariant keeps_lending_invariant_refl
             201 true _ (create_member_keeps member V) w Hinv).
  - apply (stable_route (keeps_lending_invariant_under member_id member)
             (fun d H => H) 200 _ _ (update_member_keeps member_id member) w).
    split; [exact Hinv |].
    unfold limit_covers_loans, active_loans_of_member.
    simpl in Hk. destruct (mu_max_books_allowed member); try exact I.
    now apply Z.leb_le.
  - apply (stable_route keeps_lending_invariant keeps_lending_invariant_refl
             200 true _ (delete_member_keeps member_id) w Hinv).
  - apply (stable_route keeps_lending_invariant keeps_lending_invariant_refl
             201 _ _ (create_loan_keeps loan) w Hinv).
  - apply (stable_route keeps_lending_invariant keeps_lending_invariant_refl
             200 true _ (return_book_keeps transaction_id) w Hinv).
Qed.

Lemma run_keeps_lending_invariant (calls : list Call) :
  forall d, lending_invariant d ->
            keep_limits email_str like title_le calls d ->
            lending_invariant (run email_str like title_le calls d).
Proof.
  induction calls as [| c calls IH]; intros d Hinv Hk; [exact Hinv |].
  destruct Hk as [Hk Hrest]. cbn [run]. apply IH; [| exact Hrest].
  unfold step.
  pose proof (serve_keeps_lending_invariant (call_request c)
                (mkWorld d (call_clock c) (call_faults c)) Hk Hinv) as H.
  destruct (serve _ _ _ _ _) as [r w']. exact H.
Qed.

Lemma serve_keeps_transaction_ids_fresh (r : Request) (w : World) :
  transaction_ids_fresh (db w) ->
  transaction_ids_fresh (db (snd (serve email_str like title_le r w))).
Proof.
  intros Hf.
  assert (Hrefl : forall d, keeps_transaction_ids_fresh d d) by (intros d H; exact H).
  assert (Hsame : forall d', same_loans (db w) d' -> transaction_ids_fresh d')
    by (intros d' H; exact (transaction_ids_fresh_same _ _ H Hf)).
  assert (Hmembers : forall d', same_books_and_loans (db w) d' ->
                                transaction_ids_fresh d')
    by (intros d' [_ H]; exact (Hsame d' H)).
  destruct r; cbn [serve].
  - apply Hsame, (stable_route same_members_and_loans same_members_and_loans_refl).
    apply get_books_frame.
  - apply Hsame, (stable_route same_members_and_loans same_members_and_loans_refl).
    apply create_book_frame.
  - apply Hsame, (stable_route same_members_and_loans same_members_and_loans_refl).
    apply update_book_frame.
  - apply Hsame, (stable_route same_members_and_loans same_members_and_loans_refl).
    apply delete_book_frame.
  - apply Hmembers,
      (stable_route same_books_and_loans same_books_and_loans_refl).
    apply create_member_frame.
  - apply Hmembers,
      (stable_route same_books_and_loans same_books_and_loans_refl).
    apply update_member_frame.
  - apply Hmembers,
      (stable_route same_books_and_loans same_books_and_loans_refl).
    apply delete_member_frame.
  - apply (stable_route keeps_transaction_ids_fresh Hrefl 201 _ _
             (create_loan_keeps_fresh loan) w Hf).
  - apply (stable_route keeps_transaction_ids_fresh Hrefl 200 true _
             (return_book_keeps_fresh transaction_id) w Hf).
Qed.

Lemma serve_keeps_stock_invariant (r : Request) (w : World) :
  stock_invariant (db w) ->
  stock_invariant (db (snd (serve email_str like title_le r w))).
Proof.
  intros Hs.
  assert (Hsame : forall d', same_books (db w) d' -> stock_invariant d')
    by (intros d' H; exact (stock_invariant_same _ _ H Hs)).
  assert (Hmembers : forall d', same_books_and_loans (db w) d' ->
                                stock_invariant d')
    by (intros d' [H _]; exact (Hsame d' H)).
  destruct r; cbn [serve].
  - apply (stable_route keeps_stock_invariant keeps_stock_invariant_refl
             200 _ (get_books like title_le page limit search category available));
      [| exact Hs].
    unfold get_books. cbv zeta.
    frame keeps_stock_invariant_refl keeps_stock_invariant_trans.
    all: apply stmt_stable_query, keeps_stock_invariant_refl.
  - destruct (BookCreate_valid book) eqn:V; [| exact Hs].
    apply (stable_route keeps_stock_invariant keeps_stock_invariant_refl
             201 true _ (create_book_keeps_stock book V) w Hs).
  - destruct (BookUpdate_valid book) eqn:V; [| exact Hs].
    apply (stable_route keeps_stock_invariant keeps_stock_invariant_refl
             200 true _ (update_book_keeps_stock book_id book V) w Hs).
  - apply (stable_route keeps_stock_invariant keeps_stock_invariant_refl
             200 true _ (delete_book_keeps_stock book_id) w Hs).
  - apply Hmembers,
      (stable_route same_books_and_loans same_books_and_loans_refl).
    apply create_member_frame.
  - apply Hmembers,
      (stable_route same_books_and_loans same_books_and_loans_refl).
    apply update_member_frame.
  - apply Hmembers,
      (stable_route same_books_and_loans same_books_and_loans_refl).
    apply delete_member_frame.
  - apply (stable_route keeps_stock_invariant keeps_stock_invariant_refl
             201 _ _ (create_loan_keeps_stock loan) w Hs).
  - apply (stable_route keeps_stock_invariant keeps_stock_invariant_refl
             200 true _ (return_book_keeps_stock transaction_id) w Hs).
Qed.

(** Whatever the calls and their faults, no run makes [available_copies]
    negative. *)
Lemma run_keeps_copies_nonnegative (calls : list Call) :
  forall d, stock_invariant d ->
            stock_invariant (run email_str like title_le calls d).
Proof.
  induction calls as [| c calls IH]; intros d Hs; [exact Hs |].
  cbn [run]. apply IH. unfold step.
  pose proof (serve_keeps_stock_invariant (call_request c)
                (mkWorld d (call_clock c) (call_faults c)) Hs) as H.
  destruct (serve _ _ _ _ _) as [r w']. exact H.
Qed.

(** Every database a run reaches from the empty one satisfies what the
    statements about runs and about borrowing assume of their start. *)
Lemma reachable_databases (calls : list Call) :
  transaction_ids_fresh (run email_str like title_le calls empty_db)
  /\ copies_nonnegative (run email_str like title_le calls empty_db)
  /\ (keep_limits email_str like title_le calls empty_db ->
      lending_invariant (run email_str like title_le calls empty_db)).
Proof.
  split; [| split].
  - assert (H : transaction_ids_fresh empty_db) by (intros l []).
    revert H. generalize empty_db.
    induction calls as [| c calls IH]; intros d Hf; [exact Hf |].
    cbn [run]. apply IH. unfold step.
    pose proof (serve_keeps_transaction_ids_fresh (call_request c)
                  (mkWorld d (call_clock c) (call_faults c)) Hf) as H.
    destruct (serve _ _ _ _ _) as [r w']. exact H.
  - apply run_keeps_copies_nonnegative.
    repeat split; [intros b [] | constructor | intros b []].
  - apply run_keeps_lending_invariant.
    split; [intros id m H; discriminate | intros l []].
Qed.

End Runs.

(** At the limit nothing is lent, whatever faults the call meets. *)
Lemma post_loans_at_limit (loan : LoanCreate) (w : World) (m : Member) :
  find_member (lc_member_id loan) (db w) = Some m ->
  m_max_books_allowed m <= active_loans_of_member (lc_member_id loan) (db w) ->
  status_code (fst (post_loans loan w)) <> 201
  /\ db (snd (post_loans loan w)) = db w.
Proof.
  intros Hm Hfull. split.
  - intros Hs. destruct (post_loans loan w) as [r w'] eqn:E. simpl in Hs.
    destruct (post_loans_201 loan w w' r E Hs) as (c & Hc & _).
    apply create_loan_inr in Hc as (_ & _ & _ & (m' & Hm' & _ & Hlt)).
    assert (m' = m) by congruence. subst. lia.
  - unfold post_loans, route. destruct (LoanCreate_valid loan); [| reflexivity].
    destruct (create_loan_outcomes loan w) as [H | [(m' & Hm' & Hlt) _]].
    + destruct (create_loan loan w) as [[e | c] w']; exact H.
    + assert (m' = m) by congruence. subst. lia.
Qed.

Lemma post_loans_limit_reached (loan : LoanCreate) (d : DB) (c : Clock)
    (b : Book) (m : Member) :
  LoanCreate_valid loan = true ->
  find_book (lc_book_id loan) d = Some b -> 0 < b_available_copies b ->
  find_member (lc_member_id loan) d = Some m -> m_is_active m = true ->
  m_max_books_allowed m <= active_loans_of_member (lc_member_id loan) d ->
  post_loans loan (mkWorld d c [])
  = (borrow_error_response LoanLimitExceeded, mkWorld d c []).
Proof.
  intros Hv Hb Ha Hm Hact Hfull.
  unfold post_loans, route. rewrite Hv.
  unfold find_book, find_member, active_loans_of_member in *.
  apply Z.leb_gt in Ha. apply Z.leb_le in Hfull. rewrite <- Z.geb_leb in Hfull.
  unfold create_loan, bind, execute_query, next_fault, select_available_copies,
    select_member_status, count_active_loans_of_member, query, commit,
    find_book, find_member; simpl.
  rewrite Hb; simpl. rewrite Ha; simpl. rewrite Hm; simpl.
  rewrite Hact; simpl. rewrite Hfull. reflexivity.
Qed.

(** C6 as stated fails: after this run member 1 has two Active loans and
    [max_books_allowed = 1]. *)
Lemma limit_lowered_below_active_loans :
  sample_trace limit_lowered_run empty_db = [201; 201; 201; 201; 200]
  /\ option_map m_max_books_allowed
       (find_member 1 (sample_run limit_lowered_run empty_db)) = Some 1
  /\ active_loans_of_member 1 (sample_run limit_lowered_run empty_db) = 2
  /\ ~ limits_hold (sample_run limit_lowered_run empty_db).
Proof.
  repeat split; try (vm_compute; reflexivity).
  intros H.
  destruct (find_member 1 (sample_run limit_lowered_run empty_db)) as [m |] eqn:E;
    [| vm_compute in E; discriminate].
  specialize (H 1 m E). vm_compute in E. inversion E; subst; clear E.
  vm_compute in H. apply H. reflexivity.
Qed.

(** C6, amended.  Start where no member is over the limit and every Active
    loan has its member.  After any run of calls in which no member update
    asks for a [max_books_allowed] below the number of loans that member has
    Active at that moment, no member has more Active loans than
    [max_books_allowed].  In the database so reached, a member who has
    [max_books_allowed] Active loans or more is lent nothing: no
    [POST /api/loans] for that member answers 201 or changes the database,
    whatever faults it meets, and with a valid body, an available book and
    an active member the answer is 400 "Member has reached maximum book loan
    limit". *)
Theorem loan_limit_kept (email_str : string -> bool)
    (like title_le : string -> string -> bool) (calls : list Call) (d : DB)
    (Hinv : lending_invariant d)
    (Hkeep : keep_limits email_str like title_le calls d) :
  let d' := run email_str like title_le calls d in
  limits_hold d'
  /\ forall (loan : LoanCreate) (m : Member) (c : Clock),
       find_member (lc_member_id loan) d' = Some m ->
       m_max_books_allowed m <= active_loans_of_member (lc_member_id loan) d' ->
       (forall fs, status_code (fst (post_loans loan (mkWorld d' c fs))) <> 201
                   /\ db (snd (post_loans loan (mkWorld d' c fs))) = d')
       /\ (LoanCreate_valid loan = true ->
           (exists b, find_book (lc_book_id loan) d' = Some b
                      /\ 0 < b_available_copies b) ->
           m_is_active m = true ->
           post_loans loan (mkWorld d' c [])
           = (borrow_error_response LoanLimitExceeded, mkWorld d' c [])).
Proof.
  intros d'. split.
  - apply (run_keeps_lending_invariant email_str like title_le calls d Hinv Hkeep).
  - intros loan m c Hm Hfull. split.
    + intros fs. apply (post_loans_at_limit loan (mkWorld d' c fs) m Hm Hfull).
    + intros Hv (b & Hb & Ha) Hact.
      now apply (post_loans_limit_reached loan d' c b m).
Qed.

(** ** Copies of a book *)

(** C1 fails on the code: [BookUpdate] has no counterpart of
    [BookBase.validate_available_copies], and [update_book] writes whatever
    it is given.  A book created with three copies is updated with
    [{"available_copies": 5}]; both calls succeed and the stored row has
    [available_copies = 5] over [total_copies = 3]. *)
Theorem update_book_raises_available_above_total :
  sample_trace copies_raised_run empty_db = [201; 200]
  /\ option_map (fun b => (b_total_copies b, b_available_copies b))
       (find_book 1 (sample_run copies_raised_run empty_db)) = Some (3, 5).
Proof. vm_compute. split; reflexivity. Qed.

(** ** Unique keys *)

Lemma execute_transaction_inl {A} (qs : list (Stmt A)) (w w' : World) (e : exn) :
  execute_transaction qs w = (inl e, w') ->
  db w' = db w /\ exists detail, e = HTTPException 500 detail.
Proof.
  unfold execute_transaction, internal_server_error, database_error.
  destruct (run_statements qs (clock w) (faults w) (db w)) as [[e0 | [rs d']] fs].
  - destruct (next_fault w); destruct e0; intros H; inversion H; subst;
      split; eauto.
  - destruct (next_fault w); intros H; inversion H; subst; split; eauto.
Qed.

Lemma insert_author_links_inl (book_id : Z) (refs : list AuthorRef) :
  forall w w' e,
    insert_author_links book_id refs w = (inl e, w') ->
    (exists detail, e = HTTPException 500 detail) \/ (exists k, e = KeyError k).
Proof.
  unfold insert_author_links.
  induction refs as [| a refs IH]; intros w w' e H; simpl in H; [discriminate |].
  apply bind_inl in H as [H | (u & w1 & _ & H)]; [| eapply IH, H].
  destruct (ar_author_id a).
  - apply bind_inl in H as [H | (n & w1 & _ & H)]; [| discriminate].
    apply execute_query_inl in H as (_ & detail & ->). eauto.
  - unfold raise in H. inversion H; subst. eauto.
Qed.

Lemma try_except_inl {A} (m : M A) (handler : exn -> option (M A))
    (w w' : World) (e : exn) :
  (forall e0 w0, m w = (inl e0, w0) -> handler e0 = None) ->
  try_except m handler w = (inl e, w') -> m w = (inl e, w').
Proof.
  intros Hnone. unfold try_except.
  destruct (m w) as [[e0 | a] w0] eqn:E; [| discriminate].
  rewrite (Hnone e0 w0 eq_refl). auto.
Qed.

Lemma create_book_inl (book : BookCreate) (w w' : World) (e : exn) :
  create_book book w = (inl e, w') ->
  (exists detail, e = HTTPException 500 detail) \/ (exists k, e = KeyError k).
Proof.
  unfold create_book. cbv zeta.
  set (body := bind _ _).
  assert (Hbody : forall e0 w0, body w = (inl e0, w0) ->
            (exists detail, e0 = HTTPException 500 detail)
            \/ (exists k, e0 = KeyError k)).
  { intros e0 w0 H. unfold body in H.
    apply bind_inl in H as [H | (rs & w1 & _ & H)].
    { apply execute_transaction_inl in H as (_ & detail & ->). eauto. }
    apply bind_inl in H as [H | (id & w2 & _ & H)].
    { apply execute_query_inl in H as (_ & detail & ->). eauto. }
    apply bind_inl in H as [H | (u & w3 & _ & H)]; [| discriminate].
    destruct (bc_authors book) as [[| a rest] |]; try discriminate.
    eapply insert_author_links_inl, H. }
  intros H. apply try_except_inl in H; [eapply Hbody, H |].
  intros e0 w0 H0. destruct (Hbody e0 w0 H0) as [(detail & ->) | (k & ->)];
    reflexivity.
Qed.

Lemma create_member_inl (member : MemberCreate) (w w' : World) (e : exn) :
  create_member member w = (inl e, w') ->
  exists detail, e = HTTPException 500 detail.
Proof.
  unfold create_member.
  set (body := bind _ _).
  assert (Hbody : forall e0 w0, body w = (inl e0, w0) ->
            exists detail, e0 = HTTPException 500 detail).
  { intros e0 w0 H. unfold body in H.
    apply bind_inl in H as [H | (rs & w1 & _ & H)].
    { apply execute_query_inl in H as (_ & detail & ->). eauto. }
    apply bind_inl in H as [H | (id & w2 & _ & H)]; [| discriminate].
    apply execute_query_inl in H as (_ & detail & ->). eauto. }
  intros H. apply try_except_inl in H; [eapply Hbody, H |].
  intros e0 w0 H0. destruct (Hbody e0 w0 H0) as (detail & ->). reflexivity.
Qed.

(** C8 fails on the code: [execute_query] and [execute_transaction] turn
    every [mysql.connector.Error] into [HTTPException(500)] before the
    [except mysql.connector.IntegrityError] of [create_book] and
    [create_member] can see it.  Neither route ever answers 409; posting the
    ISBN, or the membership number, of a stored row is answered 500
    "Database error: 1062 ..." (and inserts nothing). *)
Theorem duplicate_key_answers_500 :
  (forall valid book w,
      status_code (fst (route 201 valid (create_book book) w)) <> 409)
  /\ (forall valid member w,
      status_code (fst (route 201 valid (create_member member) w)) <> 409)
  /\ sample_serve (PostBooks sample_book_create)
                  (mkWorld sample_db sample_clock [])
     = (mkResponse 500
          (ErrorContent
             "Database error: 1062 (23000): Duplicate entry '978-0-123456-78-9' for key 'isbn'"),
        mkWorld sample_db sample_clock [])
  /\ sample_serve (PostMembers sample_member_create)
                  (mkWorld sample_db sample_clock [])
     = (mkResponse 500
          (ErrorContent
             "Database error: 1062 (23000): Duplicate entry 'TEST2024001' for key 'membership_number'"),
        mkWorld sample_db sample_clock []).
Proof.
  repeat split; try (vm_compute; reflexivity).
  - intros valid book w. unfold route. destruct valid; [| discriminate].
    destruct (create_book book w) as [[e | c] w'] eqn:E; [| discriminate].
    apply create_book_inl in E as [(detail & ->) | (k & ->)]; discriminate.
  - intros valid member w. unfold route. destruct valid; [| discriminate].
    destruct (create_member member w) as [[e | c] w'] eqn:E; [| discriminate].
    apply create_member_inl in E as (detail & ->). discriminate.
Qed.

(** ** Paging *)

Section Paging.

Variable email_str : string -> bool.
Variable like : string -> string -> bool.
Variable title_le : string -> string -> bool.

Lemma length_insert_by_title (r : BookResponse) (rows : list BookResponse) :
  List.length (insert_by_title title_le r rows) = S (List.length rows).
Proof.
  induction rows as [| x rows IH]; simpl; [reflexivity |].
  destruct (title_le _ _); simpl; [reflexivity | now rewrite IH].
Qed.

Lemma length_order_by_title (rows : list BookResponse) :
  List.length (order_by_title title_le rows) = List.length rows.
Proof.
  induction rows as [| r rows IH]; simpl; [reflexivity |].
  now rewrite length_insert_by_title, IH.
Qed.

Lemma pages_is_ceiling (total limit : Z) :
  0 < limit ->
  let pages := (total + limit - 1) / limit in
  (pages - 1) * limit < total <= pages * limit.
Proof.
  intros Hl pages.
  pose proof (Z.div_mod (total + limit - 1) limit ltac:(lia)) as Hdm.
  pose proof (Z.mod_pos_bound (total + limit - 1) limit Hl) as Hr.
  fold pages in Hdm. nia.
Qed.

(** C9.  For [page >= 1] and [1 <= limit <= 100], a [GET /api/books] that
    meets no fault answers 200 with the rows of the ordered match list
    from offset [(page - 1) * limit] on, at most [limit] of them, and with
    [pages] the least integer with [pages * limit >= total], where
    [total] counts all matches.  With [limit = 10] and [total = 95] this
    gives [pages = 10], and page 10 has 5 rows. *)
Theorem get_books_pages (d : DB) (c : Clock) (page limit : Z)
    (search category : option string) (available : option bool)
    (Hpage : 1 <= page) (Hlimit : 1 <= limit <= 100) :
  let rows :=
    order_by_title title_le (matching_books like search category available d) in
  let total := Z.of_nat (List.length rows) in
  let page_rows :=
    firstn (Z.to_nat limit) (skipn (Z.to_nat ((page - 1) * limit)) rows) in
  exists pages,
    serve email_str like title_le
          (GetBooks page limit search category available) (mkWorld d c [])
    = (mkResponse 200
         (BookListResponse page_rows (mkPagination page limit total pages)),
       mkWorld d c [])
    /\ (pages - 1) * limit < total <= pages * limit
    /\ (limit = 10 -> total = 95 ->
        pages = 10 /\ (page = 10 -> List.length page_rows = 5%nat)).
Proof.
  intros rows total page_rows.
  exists ((total + limit - 1) / limit). split; [| split].
  - cbn [serve]. unfold route, paging_valid.
    replace (1 <=? page) with true by (symmetry; apply Z.leb_le; lia).
    replace (1 <=? limit) with true by (symmetry; apply Z.leb_le; lia).
    replace (limit <=? 100) with true by (symmetry; apply Z.leb_le; lia).
    cbn [andb].
    unfold get_books, bind, execute_query, next_fault, select_books,
      select_books_count, query, commit, ret; cbn.
    unfold total, rows. rewrite length_order_by_title. reflexivity.
  - apply pages_is_ceiling. lia.
  - intros -> Htotal. rewrite Htotal. split; [reflexivity |].
    intros ->. unfold page_rows. rewrite length_firstn, length_skipn.
    assert (Hlen : List.length rows = 95%nat) by (unfold total in Htotal; lia).
    rewrite Hlen. reflexivity.
Qed.

End Paging.

(** ** The theorems at the sample data *)

Lemma get_books_pages_witness :
  exists rows pages,
    fst (sample_serve (GetBooks 10 10 None None None)
           (mkWorld ninety_five_books sample_clock []))
    = mkResponse 200 (BookListResponse rows (mkPagination 10 10 95 pages))
    /\ pages = 10 /\ List.length rows = 5%nat.
Proof.
  destruct (get_books_pages sample_email_str sample_like sample_title_le
              ninety_five_books sample_clock 10 10 None None None
              ltac:(lia) ltac:(lia)) as (pages & Heq & _ & Hsp).
  destruct (Hsp eq_refl ltac:(vm_compute; reflexivity)) as [Hp Hl].
  eexists _, pages. unfold sample_serve. rewrite Heq.
  split; [reflexivity | split; [exact Hp | exact (Hl eq_refl)]].
Defined.

Lemma borrow_then_return_restores_copies_witness :
  available_copies_of 1 (snd (serve_all post_loans sample_borrows sample_db))
  = Some 1
  /\ available_copies_of 1
       (snd (serve_all put_loans_return (quiet sample_returns)
               (snd (serve_all post_loans sample_borrows sample_db))))
     = Some 3.
Proof.
  assert (Hfresh : transaction_ids_fresh sample_db) by (intros l []).
  assert (Hsame : Forall (fun call => lc_book_id (snd call) = 1) sample_borrows)
    by (repeat constructor).
  assert (Hok : Forall (fun r => status_code r = 201)
                       (fst (serve_all post_loans sample_borrows sample_db)))
    by (vm_compute; repeat constructor).
  assert (Hperm : Permutation (map snd sample_returns)
                    (map lt_transaction_id
                       (loans_added sample_db
                          (snd (serve_all post_loans sample_borrows sample_db)))))
    by (vm_compute; apply perm_swap).
  destruct (borrow_then_return_restores_copies sample_db 1 sample_book
              sample_borrows sample_returns Hfresh eq_refl Hsame Hok Hperm)
    as (H1 & _ & H2).
  split; [exact H1 | exact H2].
Defined.

Lemma loan_limit_kept_witness :
  limits_hold (sample_run borrowed_twice_run empty_db)
  /\ post_loans sample_loan
       (mkWorld (sample_run borrowed_twice_run empty_db) sample_clock [])
     = (borrow_error_response LoanLimitExceeded,
        mkWorld (sample_run borrowed_twice_run empty_db) sample_clock []).
Proof.
  assert (Hinv : lending_invariant empty_db).
  { split; [intros id m H; discriminate | intros l []]. }
  assert (Hkeep : keep_limits sample_email_str sample_like sample_title_le
                    borrowed_twice_run empty_db)
    by (vm_compute; repeat split).
  destruct (loan_limit_kept sample_email_str sample_like sample_title_le
              borrowed_twice_run empty_db Hinv Hkeep) as [HL Hfull].
  split; [exact HL |].
  destruct (Hfull sample_loan sample_member sample_clock
              ltac:(vm_compute; reflexivity) ltac:(vm_compute; discriminate))
    as [_ Hresp].
  apply Hresp; [reflexivity | | reflexivity].
  eexists. split; [vm_compute; reflexivity | reflexivity].
Defined.

Lemma update_leaves_null_and_omitted_fields_witness :
  books (db (snd (update_book 1 null_subtitle_and_price
                    (mkWorld sample_db sample_clock []))))
  = [sample_book].
Proof.
  apply (proj2 (proj2 (proj1 (update_leaves_null_and_omitted_fields
                                (mkWorld sample_db sample_clock []))
                             1 null_subtitle_and_price))).
  intros []; reflexivity.
Defined.

(** * Further properties of the handlers *)

(** ** Status codes *)

Lemma raises_within_ret {A} (codes : list Z) (a : A) : raises_within codes (ret a).
Proof. intros w e w' H. discriminate. Qed.

Lemma raises_within_raise {A} (codes : list Z) (s : Z) (detail : string) :
  In s codes -> raises_within codes (@raise A (HTTPException s detail)).
Proof. intros Hs w e w' H. inversion H; subst. exact Hs. Qed.

Lemma raises_within_bind {A B} (codes : list Z) (m : M A) (k : A -> M B) :
  raises_within codes m -> (forall a, raises_within codes (k a)) ->
  raises_within codes (bind m k).
Proof.
  intros Hm Hk w e w' H. apply bind_inl in H as [H | (a & w1 & _ & H)].
  - eapply Hm, H.
  - eapply Hk, H.
Qed.

Lemma raises_within_execute_query {A} (codes : list Z) (q : Stmt A) :
  In 500 codes -> raises_within codes (execute_query q).
Proof.
  intros H5 w e w' H. apply execute_query_inl in H as (_ & detail & ->).
  exact H5.
Qed.

Lemma raises_within_for_each {A} (codes : list Z) (items : list A)
    (body : A -> M unit) :
  (forall x, raises_within codes (body x)) ->
  raises_within codes (for_each items body).
Proof.
  intros Hb. induction items as [| x items IH]; simpl.
  - apply raises_within_ret.
  - apply raises_within_bind; [apply Hb | intros _; exact IH].
Qed.



(** Decomposes [raises_within codes handler] along the handler's text. *)
Ltac statuses :=
  repeat
    match goal with
    | |- raises_within _ (bind _ _) => apply raises_within_bind; [| intros ?]
    | |- raises_within _ (ret _) => apply raises_within_ret
    | |- raises_within _ (raise (HTTPException _ _)) =>
        apply raises_within_raise; simpl; tauto
    | |- raises_within _ (raise (KeyError _)) =>
        intros ? ? ? H; inversion H; subst; simpl; tauto
    | |- raises_within _ (execute_query _) =>
        apply raises_within_execute_query; simpl; tauto
    | |- raises_within _ (for_each _ _) => apply raises_within_for_each; intros ?
    | |- raises_within _ (insert_author_links _ _) => unfold insert_author_links
    | |- raises_within _ (match ?x with _ => _ end) => destruct x
    | |- raises_within _ (if ?x then _ else _) => destruct x
    end.



(** ** Deleting *)

Lemma fails_cleanly_execute_query {A} (q : Stmt A) : fails_cleanly (execute_query q).
Proof. intros w e w' H. now apply execute_query_inl in H as (-> & _). Qed.

Lemma read_only_query {A} (f : DB -> A) : read_only (execute_query (query f)).
Proof.
  intros w a w' H. apply execute_query_inr in H as (d' & H & ->).
  inversion H; subst. reflexivity.
Qed.

Lemma fails_cleanly_raise {A} (e : exn) : fails_cleanly (@raise A e).
Proof. intros w e0 w' H. now inversion H. Qed.

Lemma fails_cleanly_ret {A} (a : A) : fails_cleanly (ret a).
Proof. intros w e w' H. discriminate. Qed.

Lemma fails_cleanly_bind {A B} (m : M A) (k : A -> M B) :
  fails_cleanly m -> read_only m -> (forall a, fails_cleanly (k a)) ->
  fails_cleanly (bind m k).
Proof.
  intros Hm Hr Hk w e w' H. apply bind_inl in H as [H | (a & w1 & H1 & H)].
  - eapply Hm, H.
  - rewrite (Hk a w1 e w' H). eapply Hr, H1.
Qed.

Lemma fails_cleanly_then_ret {A B} (m : M A) (b : B) :
  fails_cleanly m -> fails_cleanly (bind m (fun _ => ret b)).
Proof.
  intros Hm w e w' H. apply bind_inl in H as [H | (a & w1 & _ & H)].
  - eapply Hm, H.
  - discriminate.
Qed.

Lemma count_rows_pos {A} (p : A -> bool) (l : list A) (x : A) :
  In x l -> p x = true -> 0 < count_rows p l.
Proof.
  intros Hin Hp. unfold count_rows.
  assert (In x (filter p l)) as Hf by (apply filter_In; auto).
  destruct (filter p l); [contradiction | simpl; lia].
Qed.

Lemma count_rows_zero_none {A} (p : A -> bool) (l : list A) :
  count_rows p l <= 0 -> forall x, In x l -> p x = false.
Proof.
  intros H x Hin. destruct (p x) eqn:E; [| reflexivity].
  pose proof (count_rows_pos p l x Hin E). lia.
Qed.

Lemma delete_book_fails_cleanly (book_id : Z) : fails_cleanly (delete_book book_id).
Proof.
  unfold delete_book.
  apply fails_cleanly_bind;
    [apply fails_cleanly_execute_query | apply read_only_query |].
  intros [x |]; [| apply fails_cleanly_raise].
  apply fails_cleanly_bind;
    [apply fails_cleanly_execute_query | apply read_only_query |].
  intros n. destruct (n >? 0); [apply fails_cleanly_raise |].
  apply fails_cleanly_then_ret, fails_cleanly_execute_query.
Qed.

Lemma find_filter_other {A} (key : A -> Z) (id id' : Z) (l : list A) :
  id' <> id ->
  find (fun x => key x =? id') (filter (fun x => negb (key x =? id)) l)
  = find (fun x => key x =? id') l.
Proof.
  intros Hne. induction l as [| a l IH]; simpl; [reflexivity |].
  destruct (key a =? id) eqn:E; simpl.
  - apply Z.eqb_eq in E.
    assert ((key a =? id') = false) as F by (apply Z.eqb_neq; lia).
    now rewrite F.
  - destruct (key a =? id'); [reflexivity | exact IH].
Qed.

Lemma find_filter_same {A} (key : A -> Z) (id : Z) (l : list A) :
  find (fun x => key x =? id) (filter (fun x => negb (key x =? id)) l) = None.
Proof.
  apply find_none_iff. intros x Hx. apply filter_In in Hx as [_ Hx].
  now destruct (key x =? id).
Qed.

(** X2.  [DELETE /api/books/{id}] is guarded and all-or-nothing.  Whatever
    faults the call meets, an answer other than 200 leaves the database as
    it was, and while a loan of the book is Active the answer is never 200.
    In a call that meets no fault: a missing book answers 404; a book on
    loan answers 400 "Cannot delete book with active loans"; otherwise the
    answer is 200, the book and its author links are gone, every other book
    is found as before, and members and loans -- the book's returned loans
    among them -- are untouched. *)
Theorem delete_book_guarded (d : DB) (c : Clock) (book_id : Z) :
  (forall fs,
      status_code (fst (route 200 true (delete_book book_id) (mkWorld d c fs))) <> 200 ->
      db (snd (route 200 true (delete_book book_id) (mkWorld d c fs))) = d)
  /\ (book_on_loan book_id d ->
      forall fs,
        status_code (fst (route 200 true (delete_book book_id) (mkWorld d c fs)))
        <> 200)
  /\ (find_book book_id d = None ->
      route 200 true (delete_book book_id) (mkWorld d c [])
      = (mkResponse 404 (ErrorContent "Book not found"), mkWorld d c []))
  /\ (find_book book_id d <> None -> book_on_loan book_id d ->
      route 200 true (delete_book book_id) (mkWorld d c [])
      = (mkResponse 400 (ErrorContent "Cannot delete book with active loans"),
         mkWorld d c []))
  /\ (find_book book_id d <> None -> ~ book_on_loan book_id d ->
      let result := route 200 true (delete_book book_id) (mkWorld d c []) in
      fst result = mkResponse 200 (StandardResponse "Book deleted successfully" None)
      /\ find_book book_id (db (snd result)) = None
      /\ (forall id, id <> book_id ->
                     find_book id (db (snd result)) = find_book id d)
      /\ (forall ba, In ba (book_authors (db (snd result))) <->
                     In ba (book_authors d) /\ ba_book_id ba <> book_id)
      /\ members (db (snd result)) = members d
      /\ loan_transactions (db (snd result)) = loan_transactions d).
Proof.
  assert (Hcount : book_on_loan book_id d ->
                   (count_rows (active_loan_of_book book_id) (loan_transactions d)
                    >? 0) = true).
  { intros (l & Hl & Hb & Ha). apply Z.gtb_lt.
    apply (count_rows_pos _ _ l Hl). unfold active_loan_of_book.
    rewrite Hb, Z.eqb_refl. simpl. now apply loan_is_active_true. }
  assert (Hnone : ~ book_on_loan book_id d ->
                  (count_rows (active_loan_of_book book_id) (loan_transactions d)
                   >? 0) = false).
  { intros Hn. destruct (_ >? 0) eqn:E; [| reflexivity]. exfalso. apply Hn.
    apply Z.gtb_lt in E. unfold count_rows in E.
    destruct (filter _ _) as [| l ls] eqn:F; [simpl in E; lia |].
    assert (In l (filter (active_loan_of_book book_id) (loan_transactions d)))
      as Hin by (rewrite F; now left).
    apply filter_In in Hin as [Hin Hp]. unfold active_loan_of_book in Hp.
    apply andb_true_iff in Hp as [Hb Ha]. exists l. repeat split; auto.
    - now apply Z.eqb_eq.
    - now apply loan_is_active_true. }
  split; [| split; [| split; [| split]]].
  - intros fs Hs. unfold route in *.
    destruct (delete_book book_id (mkWorld d c fs)) as [[e | r] w'] eqn:E.
    + exact (delete_book_fails_cleanly book_id _ e w' E).
    + simpl in Hs. contradiction.
  - intros Hloan fs Hs. unfold route in Hs.
    destruct (delete_book book_id (mkWorld d c fs)) as [[e | r] w'] eqn:E.
    + unfold delete_book in E.
      apply bind_inl in E as [E | (x & w1 & _ & E)];
        [apply execute_query_inl in E as (_ & detail & ->); discriminate |].
      destruct x; [| inversion E; subst; discriminate].
      apply bind_inl in E as [E | (n & w2 & _ & E)];
        [apply execute_query_inl in E as (_ & detail & ->); discriminate |].
      destruct (n >? 0); [inversion E; subst; discriminate |].
      apply bind_inl in E as [E | (k & w3 & _ & E)]; [| discriminate].
      apply execute_query_inl in E as (_ & detail & ->). discriminate.
    + clear Hs. unfold delete_book in E.
      apply bind_inr in E as (x & w1 & E1 & E).
      apply execute_query_inr in E1 as (d1 & E1 & ->).
      inversion E1; subst; clear E1.
      destruct (option_map _ _); [| discriminate].
      apply bind_inr in E as (n & w2 & E2 & E).
      apply execute_query_inr in E2 as (d2 & E2 & ->).
      inversion E2; subst; clear E2. simpl in E.
      rewrite (Hcount Hloan) in E. discriminate.
  - intros Hf. unfold route, delete_book, bind, execute_query, next_fault,
      select_book_id, query, commit; simpl. now rewrite Hf.
  - intros Hf Hloan. unfold route, delete_book, bind, execute_query, next_fault,
      select_book_id, count_active_loans_of_book, query, commit; simpl.
    destruct (find_book book_id d); [| contradiction]. simpl.
    now rewrite (Hcount Hloan).
  - intros Hf Hloan. cbv zeta.
    assert (Hres : route 200 true (delete_book book_id) (mkWorld d c [])
                   = (mkResponse 200 (StandardResponse "Book deleted successfully" None),
                      mkWorld
                        (with_book_authors
                           (with_books d
                              (filter (fun b => negb (b_book_id b =? book_id)) (books d)))
                           (filter (fun ba => negb (ba_book_id ba =? book_id))
                                   (book_authors d))) c [])).
    { unfold route, delete_book, bind, execute_query, next_fault,
        select_book_id, count_active_loans_of_book, delete_from_books, query,
        commit; simpl.
      destruct (find_book book_id d); [| contradiction]. simpl.
      now rewrite (Hnone Hloan). }
    rewrite Hres. cbn [fst snd db].
    split; [reflexivity | split; [| split; [| split; [| split; reflexivity]]]].
    + unfold find_book; simpl. apply (find_filter_same b_book_id).
    + intros id Hid. unfold find_book; simpl.
      now apply (find_filter_other b_book_id).
    + intros ba. simpl. rewrite filter_In, negb_true_iff, Z.eqb_neq. tauto.
Qed.

Lemma delete_member_fails_cleanly (member_id : Z) :
  fails_cleanly (delete_member member_id).
Proof.
  unfold delete_member.
  apply fails_cleanly_bind;
    [apply fails_cleanly_execute_query | apply read_only_query |].
  intros [x |]; [| apply fails_cleanly_raise].
  apply fails_cleanly_bind;
    [apply fails_cleanly_execute_query | apply read_only_query |].
  intros n. destruct (n >? 0); [apply fails_cleanly_raise |].
  apply fails_cleanly_then_ret, fails_cleanly_execute_query.
Qed.

Lemma delete_member_raises (member_id : Z) :
  raises_within [400; 404; 500] (delete_member member_id).
Proof. unfold delete_member. statuses. Qed.

Lemma member_has_loan_count (member_id : Z) (d : DB) :
  member_has_loan member_id d <->
  (count_rows (active_loan_of_member member_id) (loan_transactions d) >? 0) = true.
Proof.
  split.
  - intros (l & Hl & Hm & Ha). apply Z.gtb_lt.
    apply (count_rows_pos _ _ l Hl). unfold active_loan_of_member.
    rewrite Hm, Z.eqb_refl. simpl. now apply loan_is_active_true.
  - intros E. apply Z.gtb_lt in E. unfold count_rows in E.
    destruct (filter _ _) as [| l ls] eqn:F; [simpl in E; lia |].
    assert (In l (filter (active_loan_of_member member_id) (loan_transactions d)))
      as Hin by (rewrite F; now left).
    apply filter_In in Hin as [Hin Hp]. unfold active_loan_of_member in Hp.
    apply andb_true_iff in Hp as [Hb Ha]. exists l. repeat split; auto.
    + now apply Z.eqb_eq.
    + now apply loan_is_active_true.
Qed.

Lemma delete_member_inr (member_id : Z) (w w' : World) (r : Content) :
  delete_member member_id w = (inr r, w') ->
  ~ member_has_loan member_id (db w)
  /\ find_member member_id (db w) <> None
  /\ db w' = with_members (db w)
               (map (deactivate (clock w) member_id) (members (db w)))
  /\ r = StandardResponse "Member deactivated successfully" None.
Proof.
  unfold delete_member. intros E.
  apply bind_inr in E as (x & w1 & E1 & E).
  apply execute_query_inr in E1 as (d1 & E1 & ->).
  inversion E1; subst; clear E1.
  destruct (find_member member_id (db w)) as [m |] eqn:Em; simpl in E;
    [| discriminate].
  apply bind_inr in E as (n & w2 & E2 & E).
  apply execute_query_inr in E2 as (d2 & E2 & ->).
  inversion E2; subst; clear E2. simpl in E.
  destruct (_ >? 0) eqn:Ec; [discriminate |].
  apply bind_inr in E as (k & w3 & E3 & E).
  apply execute_query_inr in E3 as (d3 & E3 & ->).
  inversion E3; subst; clear E3. inversion E; subst; clear E.
  repeat split; try discriminate.
  intros Hl. apply member_has_loan_count in Hl. congruence.
Qed.

Lemma find_member_deactivated (c : Clock) (member_id id : Z) (d : DB) :
  find_member id (with_members d (map (deactivate c member_id) (members d)))
  = option_map (deactivate c member_id) (find_member id d).
Proof.
  unfold find_member; simpl. apply find_map_same_key.
  intros m. unfold deactivate. now destruct (m_member_id m =? member_id).
Qed.

(** X3.  [DELETE /api/members/{id}] is a guarded soft delete.  Whatever
    faults the call meets, an answer other than 200 leaves the database as
    it was and a member with an Active loan is never answered 200.  In a
    call that meets no fault a member without Active loans is answered 200;
    afterwards the row is still there with [is_active] false, [updated_at]
    the time of the call and every other column as before, the other
    members are found as before, and books and loans are untouched.  The
    handler does not look at [is_active]: deleting the member again is
    answered 200 again. *)
Theorem delete_member_deactivates (d : DB) (c : Clock) (member_id : Z) :
  (forall fs,
      status_code (fst (route 200 true (delete_member member_id) (mkWorld d c fs)))
      <> 200 ->
      db (snd (route 200 true (delete_member member_id) (mkWorld d c fs))) = d)
  /\ (member_has_loan member_id d ->
      forall fs,
        status_code (fst (route 200 true (delete_member member_id) (mkWorld d c fs)))
        <> 200)
  /\ (forall m, find_member member_id d = Some m ->
                ~ member_has_loan member_id d ->
      let result := route 200 true (delete_member member_id) (mkWorld d c []) in
      let d' := db (snd result) in
      fst result
      = mkResponse 200 (StandardResponse "Member deactivated successfully" None)
      /\ (exists m', find_member member_id d' = Some m'
                     /\ m_is_active m' = false /\ m_updated_at m' = now c
                     /\ m_created_at m' = m_created_at m
                     /\ forall col, col <> MemberColumn.is_active ->
                                    member_cell col m' = member_cell col m)
      /\ (forall id, id <> member_id -> find_member id d' = find_member id d)
      /\ List.length (members d') = List.length (members d)
      /\ books d' = books d /\ loan_transactions d' = loan_transactions d
      /\ forall c2,
           fst (route 200 true (delete_member member_id) (mkWorld d' c2 []))
           = mkResponse 200
               (StandardResponse "Member deactivated successfully" None)).
Proof.
  split; [| split].
  - intros fs Hs. unfold route in *.
    destruct (delete_member member_id (mkWorld d c fs)) as [[e | r] w'] eqn:E.
    + exact (delete_member_fails_cleanly member_id _ e w' E).
    + simpl in Hs. contradiction.
  - intros Hloan fs Hs. unfold route in Hs.
    destruct (delete_member member_id (mkWorld d c fs)) as [[e | r] w'] eqn:E.
    + pose proof (delete_member_raises member_id _ e w' E) as Hin.
      unfold exn_status in Hin. simpl in Hs, Hin. intuition congruence.
    + apply delete_member_inr in E as (Hn & _). contradiction.
  - intros m Hm Hloan.
    assert (Hq : forall d0 c0,
               find_member member_id d0 <> None ->
               ~ member_has_loan member_id d0 ->
               route 200 true (delete_member member_id) (mkWorld d0 c0 [])
               = (mkResponse 200
                    (StandardResponse "Member deactivated successfully" None),
                  mkWorld (with_members d0
                             (map (deactivate c0 member_id) (members d0))) c0 [])).
    { intros d0 c0 Hf Hn.
      unfold route, delete_member, bind, execute_query, next_fault,
        select_member_id, count_active_loans_of_member,
        update_members_deactivate, query, commit; simpl.
      destruct (find_member member_id d0); [| contradiction]. simpl.
      destruct (_ >? 0) eqn:Ec; [| reflexivity].
      exfalso. apply Hn. now apply member_has_loan_count. }
    cbv zeta. rewrite (Hq d c); [| rewrite Hm; discriminate | exact Hloan].
    cbn [fst snd db].
    split; [reflexivity | split; [| split; [| split; [| split; [| split]]]]].
    + rewrite find_member_deactivated, Hm. simpl.
      assert (Hid : m_member_id m = member_id).
      { unfold find_member in Hm. apply find_some in Hm as [_ Hm].
        now apply Z.eqb_eq. }
      exists (deactivate c member_id m). unfold deactivate.
      rewrite Hid, Z.eqb_refl. simpl. repeat split.
      intros col Hcol. destruct col; try reflexivity. contradiction.
    + intros id Hid. rewrite find_member_deactivated.
      destruct (find_member id d) as [m0 |] eqn:E; [| reflexivity]. simpl.
      unfold find_member in E. apply find_some in E as [_ E].
      apply Z.eqb_eq in E. unfold deactivate.
      assert ((m_member_id m0 =? member_id) = false) as F
        by (apply Z.eqb_neq; lia).
      now rewrite F.
    + simpl. apply length_map.
    + reflexivity.
    + reflexivity.
    + intros c2. rewrite Hq; [reflexivity | |].
      * rewrite find_member_deactivated, Hm. discriminate.
      * intros (l & Hl & Hmem & Ha). apply Hloan. exists l. auto.
Qed.

(** ** Borrowing and returning, call by call *)

(** What [create_loan] can have written, and what it had read before. *)
Lemma create_loan_writes_when_allowed (loan : LoanCreate) (w : World) :
  db (snd (create_loan loan w)) = db w
  \/ (exists b m,
         find_book (lc_book_id loan) (db w) = Some b
         /\ 0 < b_available_copies b
         /\ find_member (lc_member_id loan) (db w) = Some m
         /\ m_is_active m = true
         /\ active_loans_of_member (lc_member_id loan) (db w)
            < m_max_books_allowed m
         /\ (db (snd (create_loan loan w)) = loan_inserted (clock w) loan (db w)
             \/ db (snd (create_loan loan w)) = borrowed (clock w) loan (db w))).
Proof.
  destruct (create_loan loan w) as [[e | r] w'] eqn:E; cbn [snd].
  2:{ apply create_loan_inr in E
        as (Hd & _ & (b & Hb & Ha) & (m & Hm & Hact & Hc)).
      right. exists b, m. repeat split; auto. }
  unfold create_loan in E.
  apply bind_inl in E as [H | (book & w1 & H1 & H)].
  { apply execute_query_inl in H as (-> & _). now left. }
  apply execute_query_inr in H1 as (d1 & H1 & ->).
  unfold select_available_copies, query in H1. inversion H1; subst; clear H1.
  destruct (find_book (lc_book_id loan) (db w)) as [b |] eqn:Eb; simpl in H.
  2:{ unfold raise in H. inversion H; subst. now left. }
  destruct (b_available_copies b <=? 0) eqn:Ea.
  { unfold raise in H. inversion H; subst. now left. }
  apply Z.leb_gt in Ea.
  apply bind_inl in H as [H | (member & w2 & H2 & H)].
  { apply execute_query_inl in H as (-> & _). now left. }
  apply execute_query_inr in H2 as (d2 & H2 & ->).
  unfold select_member_status, query in H2. simpl in H2.
  inversion H2; subst; clear H2.
  destruct (find_member (lc_member_id loan) (db w)) as [m |] eqn:Em; simpl in H.
  2:{ unfold raise in H. inversion H; subst. now left. }
  destruct (m_is_active m) eqn:Eact; simpl in H.
  2:{ unfold raise in H. inversion H; subst. now left. }
  apply bind_inl in H as [H | (n & w3 & H3 & H)].
  { apply execute_query_inl in H as (-> & _). now left. }
  apply execute_query_inr in H3 as (d3 & H3 & ->).
  unfold count_active_loans_of_member, query in H3. simpl in H3.
  inversion H3; subst; clear H3.
  destruct (_ >=? _) eqn:Ec.
  { unfold raise in H. inversion H; subst. now left. }
  rewrite Z.geb_leb in Ec. apply Z.leb_gt in Ec.
  apply bind_inl in H as [H | (n1 & w4 & H4 & H)].
  { apply execute_query_inl in H as (-> & _). now left. }
  apply execute_query_inr in H4 as (d4 & H4 & ->).
  unfold insert_loan in H4. simpl in H4. inversion H4; subst; clear H4.
  right. exists b, m. repeat split; auto.
  apply bind_inl in H as [H | (n2 & w5 & H5 & H)].
  { apply execute_query_inl in H as (-> & _). now left. }
  discriminate.
Qed.

Lemma loan_inserted_differs (c : Clock) (loan : LoanCreate) (d : DB) :
  loan_inserted c loan d <> d /\ borrowed c loan d <> d.
Proof.
  split; intros E.
  - apply (f_equal next_transaction_id) in E. simpl in E. lia.
  - apply (f_equal next_transaction_id) in E. simpl in E. lia.
Qed.

(** X4.  A member that [DELETE /api/members/{id}] has deactivated is lent
    nothing: on the database a successful delete leaves, no
    [POST /api/loans] for that member answers 201 or writes anything,
    whatever faults it meets; with a valid body and an available book the
    answer is 400 "Member account is not active". *)
Theorem deactivated_member_cannot_borrow (w w' : World) (r : Response)
    (member_id : Z)
    (Hdel : route 200 true (delete_member member_id) w = (r, w'))
    (Hok : status_code r = 200) :
  forall (loan : LoanCreate) (c : Clock),
    lc_member_id loan = member_id ->
    (forall fs,
        status_code (fst (post_loans loan (mkWorld (db w') c fs))) <> 201
        /\ db (snd (post_loans loan (mkWorld (db w') c fs))) = db w')
    /\ (LoanCreate_valid loan = true ->
        (exists b, find_book (lc_book_id loan) (db w') = Some b
                   /\ 0 < b_available_copies b) ->
        post_loans loan (mkWorld (db w') c [])
        = (borrow_error_response MemberInactive, mkWorld (db w') c [])).
Proof.
  intros loan c <-.
  assert (Hm : exists m, find_member (lc_member_id loan) (db w') = Some m
                         /\ m_is_active m = false).
  { unfold route in Hdel.
    destruct (delete_member (lc_member_id loan) w) as [[e | r0] w0] eqn:E;
      inversion Hdel; subst; clear Hdel.
    - pose proof (delete_member_raises _ _ e w' E) as Hin.
      unfold exn_status in Hin. simpl in Hin, Hok. intuition congruence.
    - apply delete_member_inr in E as (_ & Hf & -> & _).
      rewrite find_member_deactivated.
      destruct (find_member (lc_member_id loan) (db w)) as [m |] eqn:Em;
        [| contradiction].
      exists (deactivate (clock w) (lc_member_id loan) m). split; [reflexivity |].
      unfold find_member in Em. apply find_some in Em as [_ Em].
      unfold deactivate. now rewrite Em. }
  destruct Hm as (m & Hm & Hinactive). split.
  - intros fs.
    assert (Hd : db (snd (create_loan loan (mkWorld (db w') c fs))) = db w').
    { destruct (create_loan_writes_when_allowed loan (mkWorld (db w') c fs))
        as [H | (b & m' & _ & _ & Hm' & Hact & _)]; [exact H |].
      cbn [db] in Hm'. congruence. }
    split.
    + intros Hs. destruct (post_loans loan _) as [r1 w1] eqn:E. simpl in Hs.
      destruct (post_loans_201 loan _ w1 r1 E Hs) as (cnt & Hc & _).
      apply create_loan_inr in Hc as (_ & _ & _ & (m' & Hm' & Hact & _)).
      cbn [db] in Hm'. congruence.
    + unfold post_loans, route. destruct (LoanCreate_valid loan); [| reflexivity].
      destruct (create_loan loan _) as [[e | cnt] w1]; exact Hd.
  - intros Hv (b & Hb & Ha).
    unfold post_loans, route. rewrite Hv.
    unfold find_book, find_member in *. apply Z.leb_gt in Ha.
    unfold create_loan, bind, execute_query, next_fault, select_available_copies,
      select_member_status, query, commit, find_book, find_member; simpl.
    rewrite Hb; simpl. rewrite Ha; simpl. rewrite Hm; simpl.
    rewrite Hinactive; simpl. reflexivity.
Qed.

Lemma count_rows_last {A} (p : A -> bool) (l : list A) (x : A) :
  count_rows p (l ++ [x]) = count_rows p l + (if p x then 1 else 0).
Proof.
  rewrite count_rows_app. unfold count_rows at 2. simpl.
  destruct (p x); reflexivity.
Qed.

Lemma find_book_add_other (delta book_id id : Z) (bs : list Book) :
  id <> book_id ->
  find (fun b => b_book_id b =? id) (map (add_available_copies delta book_id) bs)
  = find (fun b => b_book_id b =? id) bs.
Proof.
  intros Hne. rewrite find_book_add_available_copies.
  destruct (find _ bs) as [b |] eqn:E; [| reflexivity]. simpl.
  apply find_some in E as [_ E]. apply Z.eqb_eq in E.
  unfold add_available_copies.
  assert ((b_book_id b =? book_id) = false) as F by (apply Z.eqb_neq; lia).
  now rewrite F.
Qed.

(** X5.  What [POST /api/loans] writes.  Whatever faults the call meets,
    the database is left as it was unless the book was found with a copy
    available, the member was found active, and the member had fewer Active
    loans than [max_books_allowed].  In a call that meets no fault and whose
    preconditions hold, the answer is 201 and exactly one row is added to
    [loan_transactions]: Active, not returned, with the next AUTO_INCREMENT
    id and the ids and dates of the body; the member has one Active loan
    more and the book one available copy less; the other members and books
    stand as before. *)
Theorem borrow_effect (d : DB) (c : Clock) (loan : LoanCreate) :
  (forall fs,
      db (snd (post_loans loan (mkWorld d c fs))) <> d ->
      exists b m,
        find_book (lc_book_id loan) d = Some b /\ 0 < b_available_copies b
        /\ find_member (lc_member_id loan) d = Some m /\ m_is_active m = true
        /\ active_loans_of_member (lc_member_id loan) d < m_max_books_allowed m)
  /\ (0 < lc_member_id loan -> 0 < lc_book_id loan ->
      BorrowBook_preconditions d loan = None ->
      let d' := db (snd (post_loans loan (mkWorld d c []))) in
      post_loans loan (mkWorld d c [])
      = (mkResponse 201 (StandardResponse "Book loan created successfully" None),
         mkWorld (borrowed c loan d) c [])
      /\ loan_transactions d'
         = loan_transactions d
           ++ [mkLoan (next_transaction_id d) (lc_member_id loan) (lc_book_id loan)
                      (lc_staff_id loan) (lc_loan_date loan) (lc_due_date loan)
                      None Active (lc_notes loan) (now c)]
      /\ (forall id, active_loans_of_member id d'
                     = active_loans_of_member id d
                       + (if lc_member_id loan =? id then 1 else 0))
      /\ available_copies_of (lc_book_id loan) d'
         = option_map (fun n => n - 1) (available_copies_of (lc_book_id loan) d)
      /\ (forall id, id <> lc_book_id loan ->
                     available_copies_of id d' = available_copies_of id d)
      /\ members d' = members d).
Proof.
  split.
  - intros fs Hd.
    assert (Hc : db (snd (create_loan loan (mkWorld d c fs))) <> d).
    { intros E. apply Hd. unfold post_loans, route.
      destruct (LoanCreate_valid loan); [| reflexivity].
      destruct (create_loan loan _) as [[e | r] w']; exact E. }
    destruct (create_loan_writes_when_allowed loan (mkWorld d c fs))
      as [H | (b & m & Hb & Ha & Hm & Hact & Hlim & _)]; [contradiction |].
    exists b, m. auto.
  - intros Hmid Hbid Hpre.
    assert (Hres : post_loans loan (mkWorld d c [])
                   = (mkResponse 201
                        (StandardResponse "Book loan created successfully" None),
                      mkWorld (borrowed c loan d) c [])).
    { unfold BorrowBook_preconditions in Hpre.
      unfold post_loans, route, LoanCreate_valid, validate_due_date.
      apply Z.ltb_lt in Hmid, Hbid. rewrite Hmid, Hbid. simpl andb.
      rewrite Z.gtb_ltb, <- Z.leb_antisym in Hpre.
      destruct (lc_due_date loan <=? lc_loan_date loan); simpl in *;
        [discriminate |].
      unfold create_loan, bind, execute_query, next_fault,
        select_available_copies, select_member_status,
        count_active_loans_of_member, insert_loan, decrement_available_copies,
        query, commit; simpl.
      destruct (find_book (lc_book_id loan) d) as [b |]; simpl in *;
        [| discriminate].
      rewrite Z.gtb_ltb, <- Z.leb_antisym in Hpre.
      destruct (b_available_copies b <=? 0); simpl in *; [discriminate |].
      destruct (find_member (lc_member_id loan) d) as [m |]; simpl in *;
        [| discriminate].
      destruct (m_is_active m); simpl in *; [| discriminate].
      rewrite Z.ltb_antisym, negb_involutive in Hpre. rewrite Z.geb_leb.
      destruct (m_max_books_allowed m <=? _); simpl in *; [discriminate |].
      reflexivity. }
    cbv zeta. rewrite Hres. cbn [fst snd db].
    split; [reflexivity | split; [reflexivity | split; [| split; [| split]]]].
    + intros id. unfold active_loans_of_member, borrowed; simpl.
      rewrite count_rows_last. f_equal.
      unfold active_loan_of_member, loan_row, loan_is_active; simpl.
      now rewrite andb_true_r.
    + apply available_copies_of_borrowed.
    + intros id Hid. unfold available_copies_of, find_book, borrowed; simpl.
      now rewrite find_book_add_other.
    + reflexivity.
Qed.

Lemma count_rows_cons {A} (p : A -> bool) (x : A) (l : list A) :
  count_rows p (x :: l) = (if p x then 1 else 0) + count_rows p l.
Proof.
  unfold count_rows. cbn [filter]. destruct (p x); [| lia].
  cbn [List.length]. lia.
Qed.

Lemma mark_returned_other (c : Clock) (tid : Z) (ls : list Loan) :
  ~ In tid (map lt_transaction_id ls) ->
  map (mark_returned c tid) ls = ls.
Proof.
  intros Hn. rewrite <- (map_id ls) at 2. apply map_ext_in.
  intros x Hx. unfold mark_returned.
  destruct (lt_transaction_id x =? tid) eqn:E; [| reflexivity].
  apply Z.eqb_eq in E. exfalso. apply Hn. rewrite <- E. now apply in_map.
Qed.

Lemma find_active_loan_in (tid : Z) (ls : list Loan) (l : Loan) :
  find (fun l => (lt_transaction_id l =? tid) && loan_is_active l) ls = Some l ->
  In l ls /\ lt_transaction_id l = tid /\ lt_loan_status l = Active.
Proof.
  intros H. apply find_some in H as [Hin H].
  apply andb_true_iff in H as [Hid Ha]. apply Z.eqb_eq in Hid.
  repeat split; auto.
  unfold loan_is_active in Ha. now destruct (lt_loan_status l).
Qed.

(** With unique ids a return takes exactly one row out of the Active ones. *)
Lemma count_rows_mark_returned (c : Clock) (tid id : Z) (ls : list Loan)
    (l : Loan) :
  NoDup (map lt_transaction_id ls) ->
  find (fun l => (lt_transaction_id l =? tid) && loan_is_active l) ls = Some l ->
  count_rows (active_loan_of_member id) (map (mark_returned c tid) ls)
  = count_rows (active_loan_of_member id) ls
    - (if lt_member_id l =? id then 1 else 0).
Proof.
  induction ls as [| x ls IH]; intros Hnd Hf; [discriminate |].
  cbn [map] in *. apply NoDup_cons_iff in Hnd as [Hx Hnd].
  rewrite !count_rows_cons. cbn [find] in Hf.
  destruct (lt_transaction_id x =? tid) eqn:E.
  - apply Z.eqb_eq in E. rewrite <- E in *.
    rewrite (mark_returned_other c _ ls Hx).
    destruct (loan_is_active x) eqn:Ea; simpl in Hf.
    + inversion Hf; subst l.
      unfold mark_returned, active_loan_of_member. rewrite Z.eqb_refl.
      cbn [lt_member_id lt_loan_status]. rewrite Ea.
      unfold loan_is_active at 1. cbn [lt_loan_status LoanStatus_eqb].
      rewrite andb_false_r, andb_true_r.
      destruct (lt_member_id x =? id); lia.
    + apply find_active_loan_in in Hf as (Hin & Hid & _).
      exfalso. apply Hx. rewrite <- Hid. now apply in_map.
  - simpl in Hf. rewrite (IH Hnd Hf).
    unfold mark_returned at 1. rewrite E.
    destruct (active_loan_of_member id x); lia.
Qed.

(** X6.  What a return that answers 200 has done, whatever faults the call
    met.  There was an Active row [l] with that id; its place is taken by
    the same row with [loan_status] Returned, [return_date] today and
    [updated_at] now, and every row with another id is as it was.  The book
    of the loan has one available copy more and no other book changed; the
    members are untouched.  With unique transaction ids the borrower has one
    Active loan less and every other member as many as before. *)
Theorem return_effect (w w' : World) (r : Response) (tid : Z)
    (Hret : put_loans_return tid w = (r, w'))
    (Hok : status_code r = 200) :
  exists l,
    In l (loan_transactions (db w))
    /\ lt_transaction_id l = tid /\ lt_loan_status l = Active
    /\ In (returned_row (clock w) l) (loan_transactions (db w'))
    /\ (forall x, lt_transaction_id x <> tid ->
                  (In x (loan_transactions (db w'))
                   <-> In x (loan_transactions (db w))))
    /\ not_active tid (db w')
    /\ available_copies_of (lt_book_id l) (db w')
       = option_map (fun n => n + 1) (available_copies_of (lt_book_id l) (db w))
    /\ (forall id, id <> lt_book_id l ->
                   available_copies_of id (db w') = available_copies_of id (db w))
    /\ members (db w') = members (db w)
    /\ (transaction_ids_unique (db w) ->
        forall id, active_loans_of_member id (db w')
                   = active_loans_of_member id (db w)
                     - (if lt_member_id l =? id then 1 else 0)).
Proof.
  destruct (put_loans_return_200 tid w w' r Hret Hok) as (l & Hl & Hd).
  exists l. destruct (find_active_loan_in _ _ _ Hl) as (Hin & Hid & Hact).
  rewrite Hd.
  split; [exact Hin | split; [exact Hid | split; [exact Hact |]]].
  split; [| split; [| split; [| split; [| split; [| split]]]]].
  - unfold returned; simpl. apply in_map_iff. exists l. split; [| exact Hin].
    unfold mark_returned, returned_row. rewrite Hid, Z.eqb_refl. reflexivity.
  - intros x Hx. unfold returned; simpl. rewrite in_map_iff. split.
    + intros (y & Hy & Hiny). unfold mark_returned in Hy.
      destruct (lt_transaction_id y =? tid) eqn:E.
      * apply Z.eqb_eq in E. subst x. simpl in Hx. contradiction.
      * now subst y.
    + intros Hinx. exists x. split; [| exact Hinx].
      unfold mark_returned.
      assert ((lt_transaction_id x =? tid) = false) as F
          by (now apply Z.eqb_neq).
      now rewrite F.
  - apply returned_not_active.
  - apply available_copies_of_returned.
  - intros id Hne. unfold available_copies_of, find_book, returned; simpl.
    now rewrite find_book_add_other.
  - reflexivity.
  - intros Hu id. unfold active_loans_of_member, returned; simpl.
    now apply count_rows_mark_returned.
Qed.

(** X7.  A return interrupted between its two statements.  When the call
    finds the Active loan, marks it Returned, and the UPDATE of the book then
    fails, the client is answered 500 "Database error: ..." while the loan
    row stays Returned and the books table is as before: the copy is not
    given back.  No later return of that loan repairs it: under every fault
    schedule it answers something other than 200 and leaves the database as
    it is. *)
Theorem return_interrupted_loses_copy (d : DB) (c : Clock) (tid : Z) (l : Loan)
    (msg : string)
    (Hl : find (fun l => (lt_transaction_id l =? tid) && loan_is_active l)
               (loan_transactions d) = Some l) :
  let out := put_loans_return tid
               (mkWorld d c [NoFault; NoFault; StatementFailed msg]) in
  fst out = mkResponse 500 (ErrorContent (String.append "Database error: " msg))
  /\ loan_transactions (db (snd out))
     = map (mark_returned c tid) (loan_transactions d)
  /\ In (returned_row c l) (loan_transactions (db (snd out)))
  /\ books (db (snd out)) = books d
  /\ forall c2 fs,
       status_code (fst (put_loans_return tid (mkWorld (db (snd out)) c2 fs)))
       <> 200
       /\ db (snd (put_loans_return tid (mkWorld (db (snd out)) c2 fs)))
          = db (snd out).
Proof.
  assert (E : put_loans_return tid
                (mkWorld d c [NoFault; NoFault; StatementFailed msg])
              = (mkResponse 500
                   (ErrorContent (String.append "Database error: " msg)),
                 mkWorld (with_loan_transactions d
                            (map (mark_returned c tid) (loan_transactions d)))
                         c [])).
  { unfold put_loans_return, route, return_book, bind, execute_query,
      next_fault, select_active_loan, query; simpl. rewrite Hl. reflexivity. }
  cbv zeta. rewrite E. clear E. cbn [fst snd db].
  destruct (find_active_loan_in _ _ _ Hl) as (Hin & Hid & Hact).
  assert (Hn : not_active tid
                 (with_loan_transactions d
                    (map (mark_returned c tid) (loan_transactions d)))).
  { exact (returned_not_active c tid 0 d). }
  split; [reflexivity | split; [reflexivity | split; [| split; [reflexivity |]]]].
  - simpl. apply in_map_iff. exists l. split; [| exact Hin].
    unfold mark_returned, returned_row. rewrite Hid, Z.eqb_refl. reflexivity.
  - intros c2 fs.
    pose proof (return_book_not_active_db tid (mkWorld _ c2 fs) Hn) as Hd.
    split.
    + intros Hs.
      destruct (put_loans_return tid _) as [r w1] eqn:Er. simpl in Hs.
      destruct (put_loans_return_200 tid _ w1 r Er Hs) as (l1 & Hl1 & _).
      apply find_active_loan_in in Hl1 as (Hin1 & Hid1 & Hact1).
      exact (Hn l1 Hin1 Hid1 Hact1).
    + unfold put_loans_return, route.
      destruct (return_book tid _) as [[e | r] w1]; exact Hd.
Qed.

(** ** The loan history *)

Lemma loan_steps_refl (ls : list Loan) : Forall2 loan_step ls ls.
Proof. induction ls; constructor; [now left | assumption]. Qed.

Lemma loan_step_trans (l1 l2 l3 : Loan) :
  loan_step l1 l2 -> loan_step l2 l3 -> loan_step l1 l3.
Proof.
  intros [-> | [c1 ->]] [-> | [c2 ->]].
  - now left.
  - right. now exists c2.
  - right. now exists c1.
  - right. now exists c2.
Qed.

Lemma loan_steps_trans (xs : list Loan) :
  forall ys zs, Forall2 loan_step xs ys -> Forall2 loan_step ys zs ->
                Forall2 loan_step xs zs.
Proof.
  induction xs as [| x xs IH]; intros ys zs H1 H2.
  - inversion H1; subst. inversion H2; subst. constructor.
  - inversion H1; subst. inversion H2; subst. constructor.
    + eapply loan_step_trans; eassumption.
    + eapply IH; eassumption.
Qed.

Lemma loan_steps_mark_returned (c : Clock) (tid : Z) (ls : list Loan) :
  Forall2 loan_step ls (map (mark_returned c tid) ls).
Proof.
  induction ls as [| l ls IH]; simpl; constructor; [| exact IH].
  unfold mark_returned. destruct (lt_transaction_id l =? tid).
  - right. now exists c.
  - now left.
Qed.

Lemma loan_history_extends_refl (d : DB) : loan_history_extends d d.
Proof.
  exists (loan_transactions d), []. split.
  - now rewrite app_nil_r.
  - apply loan_steps_refl.
Qed.

Lemma loan_history_extends_trans (d1 d2 d3 : DB) :
  loan_history_extends d1 d2 -> loan_history_extends d2 d3 ->
  loan_history_extends d1 d3.
Proof.
  intros (k1 & a1 & E1 & F1) (k2 & a2 & E2 & F2).
  rewrite E1 in F2. apply Forall2_app_inv_l in F2 as (k2a & k2b & Fa & Fb & ->).
  exists k2a, (k2b ++ a2). split.
  - now rewrite E2, app_assoc.
  - eapply loan_steps_trans; eassumption.
Qed.

Lemma loan_history_extends_same (d d' : DB) :
  same_loans d d' -> loan_history_extends d d'.
Proof.
  intros [E _]. exists (loan_transactions d), []. split.
  - now rewrite E, app_nil_r.
  - apply loan_steps_refl.
Qed.

Lemma create_loan_extends_history (loan : LoanCreate) :
  stable loan_history_extends (create_loan loan).
Proof.
  intros w. destruct (create_loan_outcomes loan w) as [-> | [_ [_ [-> | ->]]]].
  - apply loan_history_extends_refl.
  - exists (loan_transactions (db w)), [loan_row (clock w) loan (db w)].
    split; [reflexivity | apply loan_steps_refl].
  - exists (loan_transactions (db w)), [loan_row (clock w) loan (db w)].
    split; [reflexivity | apply loan_steps_refl].
Qed.

Lemma return_book_extends_history (tid : Z) :
  stable loan_history_extends (return_book tid).
Proof.
  unfold return_book.
  frame loan_history_extends_refl loan_history_extends_trans.
  - intros c d r d' H. inversion H; subst; clear H.
    exists (map (mark_returned c tid) (loan_transactions d)), []. split.
    + simpl. now rewrite app_nil_r.
    + apply loan_steps_mark_returned.
  - intros c d r d' H. inversion H; subst.
    apply loan_history_extends_same. split; reflexivity.
Qed.

Lemma loan_keys_same (d d' : DB) : same_loans d d' -> keeps_loan_keys d d'.
Proof.
  intros [Hl Hn] [Hu Hf]. split.
  - unfold transaction_ids_unique. now rewrite Hl.
  - exact (transaction_ids_fresh_same d d' (conj Hl Hn) Hf).
Qed.

Lemma map_id_mark_returned (c : Clock) (tid : Z) (ls : list Loan) :
  map lt_transaction_id (map (mark_returned c tid) ls)
  = map lt_transaction_id ls.
Proof.
  rewrite map_map. apply map_ext. intros l. unfold mark_returned.
  now destruct (lt_transaction_id l =? tid).
Qed.

Lemma loan_keys_inserted (c : Clock) (loan : LoanCreate) (d : DB) :
  loan_keys d -> loan_keys (loan_inserted c loan d).
Proof.
  intros [Hu Hf]. split.
  - unfold transaction_ids_unique, loan_inserted; simpl.
    rewrite map_app. simpl.
    apply NoDup_app; [exact Hu | repeat constructor; intros [] |].
    intros x Hx [<- | []].
    apply in_map_iff in Hx as (l & E & Hl). specialize (Hf l Hl). lia.
  - intros l Hl. unfold loan_inserted in *; simpl in *.
    apply in_app_iff in Hl as [Hl | [<- | []]].
    + specialize (Hf l Hl). lia.
    + simpl. lia.
Qed.

Lemma create_loan_keeps_keys (loan : LoanCreate) :
  stable keeps_loan_keys (create_loan loan).
Proof.
  intros w Hk. destruct (create_loan_outcomes loan w) as [-> | [_ [_ [-> | ->]]]].
  - exact Hk.
  - now apply loan_keys_inserted.
  - apply (loan_keys_inserted (clock w) loan) in Hk. exact Hk.
Qed.

Lemma return_book_keeps_keys (tid : Z) :
  stable keeps_loan_keys (return_book tid).
Proof.
  unfold return_book.
  frame (fun (d : DB) (H : loan_keys d) => H)
        (fun (d1 d2 d3 : DB) (H12 : keeps_loan_keys d1 d2)
             (H23 : keeps_loan_keys d2 d3)
             (H : loan_keys d1) => H23 (H12 H)).
  - intros c d r d' H [Hu Hf]. inversion H; subst; clear H. split.
    + unfold transaction_ids_unique; simpl. now rewrite map_id_mark_returned.
    + intros l1 Hl. simpl in *. apply in_map_iff in Hl as (l0 & <- & Hl0).
      specialize (Hf l0 Hl0). unfold mark_returned.
      now destruct (lt_transaction_id l0 =? tid).
  - intros c d r d' H. inversion H; subst.
    apply loan_keys_same. split; reflexivity.
Qed.

Lemma loan_steps_in (xs ys : list Loan) (x : Loan) :
  Forall2 loan_step xs ys -> In x xs -> exists y, In y ys /\ loan_step x y.
Proof.
  induction 1 as [| a b xs ys Hab _ IH]; intros Hin; [destruct Hin |].
  destruct Hin as [-> | Hin].
  - exists b. split; [now left | exact Hab].
  - destruct (IH Hin) as (y & Hy & Hs). exists y. split; [now right | exact Hs].
Qed.

Section History.

Variable email_str : string -> bool.
Variable like : string -> string -> bool.
Variable title_le : string -> string -> bool.

Lemma serve_extends_history (r : Request) (w : World) :
  loan_history_extends (db w) (db (snd (serve email_str like title_le r w))).
Proof.
  assert (Hsame : forall d', same_loans (db w) d' ->
                             loan_history_extends (db w) d')
    by (intros d'; apply loan_history_extends_same).
  assert (Hmembers : forall d', same_books_and_loans (db w) d' ->
                                loan_history_extends (db w) d')
    by (intros d' [_ H]; exact (Hsame d' H)).
  destruct r; cbn [serve].
  - apply Hsame, (stable_route same_members_and_loans same_members_and_loans_refl).
    apply get_books_frame.
  - apply Hsame, (stable_route same_members_and_loans same_members_and_loans_refl).
    apply create_book_frame.
  - apply Hsame, (stable_route same_members_and_loans same_members_and_loans_refl).
    apply update_book_frame.
  - apply Hsame, (stable_route same_members_and_loans same_members_and_loans_refl).
    apply delete_book_frame.
  - apply Hmembers,
      (stable_route same_books_and_loans same_books_and_loans_refl).
    apply create_member_frame.
  - apply Hmembers,
      (stable_route same_books_and_loans same_books_and_loans_refl).
    apply update_member_frame.
  - apply Hmembers,
      (stable_route same_books_and_loans same_books_and_loans_refl).
    apply delete_member_frame.
  - apply (stable_route loan_history_extends loan_history_extends_refl 201 _ _
             (create_loan_extends_history loan) w).
  - apply (stable_route loan_history_extends loan_history_extends_refl 200 true _
             (return_book_extends_history transaction_id) w).
Qed.

Lemma serve_keeps_loan_keys (r : Request) (w : World) :
  loan_keys (db w) ->
  loan_keys (db (snd (serve email_str like title_le r w))).
Proof.
  intros Hk.
  assert (Hrefl : forall d, keeps_loan_keys d d) by (intros d H; exact H).
  assert (Hsame : forall d', same_loans (db w) d' -> loan_keys d')
    by (intros d' H; exact (loan_keys_same _ _ H Hk)).
  assert (Hmembers : forall d', same_books_and_loans (db w) d' -> loan_keys d')
    by (intros d' [_ H]; exact (Hsame d' H)).
  destruct r; cbn [serve].
  - apply Hsame, (stable_route same_members_and_loans same_members_and_loans_refl).
    apply get_books_frame.
  - apply Hsame, (stable_route same_members_and_loans same_members_and_loans_refl).
    apply create_book_frame.
  - apply Hsame, (stable_route same_members_and_loans same_members_and_loans_refl).
    apply update_book_frame.
  - apply Hsame, (stable_route same_members_and_loans same_members_and_loans_refl).
    apply delete_book_frame.
  - apply Hmembers,
      (stable_route same_books_and_loans same_books_and_loans_refl).
    apply create_member_frame.
  - apply Hmembers,
      (stable_route same_books_and_loans same_books_and_loans_refl).
    apply update_member_frame.
  - apply Hmembers,
      (stable_route same_books_and_loans same_books_and_loans_refl).
    apply delete_member_frame.
  - apply (stable_route keeps_loan_keys Hrefl 201 _ _
             (create_loan_keeps_keys loan) w Hk).
  - apply (stable_route keeps_loan_keys Hrefl 200 true _
             (return_book_keeps_keys transaction_id) w Hk).
Qed.

Lemma run_extends_history (calls : list Call) :
  forall d, loan_history_extends d (run email_str like title_le calls d).
Proof.
  induction calls as [| c calls IH]; intros d;
    [apply loan_history_extends_refl |].
  cbn [run]. eapply loan_history_extends_trans; [| apply IH].
  unfold step.
  pose proof (serve_extends_history (call_request c)
                (mkWorld d (call_clock c) (call_faults c))) as H.
  destruct (serve _ _ _ _ _) as [r w']. exact H.
Qed.

Lemma run_keeps_loan_keys (calls : list Call) :
  forall d, loan_keys d -> loan_keys (run email_str like title_le calls d).
Proof.
  induction calls as [| c calls IH]; intros d Hk; [exact Hk |].
  cbn [run]. apply IH. unfold step.
  pose proof (serve_keeps_loan_keys (call_request c)
                (mkWorld d (call_clock c) (call_faults c)) Hk) as H.
  destruct (serve _ _ _ _ _) as [r w']. exact H.
Qed.

(** X8.  The loan history only grows.  Over any sequence of calls of the
    modelled routes, with any faults, no row of [loan_transactions] is
    deleted or moved: every loan the run started with is still there after
    it, under the same id, with the same member, book, loan date and due
    date, either untouched or marked Returned; the table is never shorter
    than before.  This holds although [DELETE /api/books/{id}] removes
    books: a returned loan outlives its book.  A run that starts from the
    empty database never holds two loans with the same id. *)
Theorem loan_history_only_grows (calls : list Call) (d : DB) :
  let d' := run email_str like title_le calls d in
  (forall l, In l (loan_transactions d) ->
             exists l', In l' (loan_transactions d')
                        /\ lt_transaction_id l' = lt_transaction_id l
                        /\ lt_member_id l' = lt_member_id l
                        /\ lt_book_id l' = lt_book_id l
                        /\ lt_loan_date l' = lt_loan_date l
                        /\ lt_due_date l' = lt_due_date l
                        /\ (l' = l \/ lt_loan_status l' = Returned))
  /\ (List.length (loan_transactions d) <= List.length (loan_transactions d'))%nat
  /\ transaction_ids_unique (run email_str like title_le calls empty_db).
Proof.
  cbv zeta.
  destruct (run_extends_history calls d) as (kept & added & E & F).
  split; [| split].
  - intros l Hl. destruct (loan_steps_in _ _ l F Hl) as (l' & Hin & Hs).
    exists l'. split; [rewrite E; apply in_app_iff; now left |].
    destruct Hs as [-> | [c ->]]; simpl; repeat split; auto.
  - rewrite E, length_app, <- (Forall2_length F). lia.
  - apply run_keeps_loan_keys. split; [constructor | intros l []].
Qed.

End History.

(** ** Creating books *)

Lemma insert_author_links_inr (book_id : Z) (refs : list AuthorRef) :
  forall w w' u,
    insert_author_links book_id refs w = (inr u, w') ->
    forallb has_author_id refs = true
    /\ books (db w') = books (db w)
    /\ members (db w') = members (db w)
    /\ loan_transactions (db w') = loan_transactions (db w)
    /\ book_authors (db w') = book_authors (db w) ++ author_links book_id refs
    /\ clock w' = clock w.
Proof.
  unfold insert_author_links.
  induction refs as [| a refs IH]; intros w w' u H; simpl in H.
  - unfold ret in H. inversion H; subst. simpl. rewrite app_nil_r. auto 6.
  - apply bind_inr in H as (u1 & w1 & H1 & H).
    apply IH in H as (Hall & Hb & Hm & Hl & Hba & Hc).
    unfold author_links, author_link, has_author_id in *. cbn [forallb flat_map].
    destruct (ar_author_id a) as [aid |]; [| discriminate].
    apply bind_inr in H1 as (n & w2 & H2 & H1).
    unfold ret in H1. inversion H1; subst w2; clear H1.
    apply execute_query_inr in H2 as (d1 & H2 & ->).
    unfold insert_book_author in H2. inversion H2; subst d1; clear H2.
    simpl in *. rewrite Hb, Hm, Hl, Hba, Hc, <- app_assoc. auto 6.
Qed.

Lemma execute_transaction_one_inr {A} (q : Stmt A) (w w' : World) (rs : list A) :
  execute_transaction [q] w = (inr rs, w') ->
  exists r d1, q (clock w) (db w) = inr (r, d1) /\ rs = [r]
               /\ db w' = d1 /\ clock w' = clock w.
Proof.
  unfold execute_transaction, run_statements, next_fault.
  destruct (faults w) as [| [| | msg] fs]; try discriminate;
    destruct (q (clock w) (db w)) as [[] | [r d1]]; intros H;
    inversion H; subst; simpl; exists r, d1; auto.
Qed.

Lemma create_book_inr (book : BookCreate) (w w' : World) (r : Content) :
  create_book book w = (inr r, w') ->
  exists n d1,
    insert_book book (match bc_available_copies book with
                      | Some n => n
                      | None => bc_total_copies book
                      end) (clock w) (db w) = inr (n, d1)
    /\ books (db w') = books d1
    /\ members (db w') = members d1
    /\ loan_transactions (db w') = loan_transactions d1.
Proof.
  unfold create_book, try_except. cbv zeta.
  destruct (bind _ _ w) as [[e | a] w1] eqn:E.
  { destruct e; try discriminate. destruct (contains _ _); discriminate. }
  intros H. inversion H; subst a w1; clear H.
  apply bind_inr in E as (rs & w1 & H1 & E).
  apply execute_transaction_one_inr in H1 as (n & d1 & Hq & _ & <- & Hc).
  exists n, (db w1). split; [exact Hq |].
  apply bind_inr in E as (id & w2 & H2 & E).
  apply execute_query_inr in H2 as (d2 & H2 & ->).
  unfold select_last_insert_id, query in H2. inversion H2; subst d2; clear H2.
  apply bind_inr in E as (u & w3 & H3 & E).
  unfold ret in E. inversion E; subst; clear E.
  destruct (bc_authors book) as [[| a rest] |].
  - unfold ret in H3. inversion H3; subst. simpl. auto.
  - apply insert_author_links_inr in H3 as (_ & Hb & Hm & Hl & _).
    simpl in *. rewrite Hb, Hm, Hl. auto.
  - unfold ret in H3. inversion H3; subst. simpl. auto.
Qed.

(** X9.  What [POST /api/books] has stored when it answers 201, whatever
    faults the call met.  Exactly one row is appended to [books]; it carries
    the next AUTO_INCREMENT id and the ISBN, title and copy counts of the
    body, with [available_copies] defaulting to [total_copies] when the body
    has none; its counts satisfy [1 <= total_copies] and
    [0 <= available_copies <= total_copies]; no row stored before had that
    ISBN; members and loans are as they were. *)
Theorem create_book_stores_row (book : BookCreate) (w w' : World) (r : Response)
    (Hc : route 201 (BookCreate_valid book) (create_book book) w = (r, w'))
    (Hok : status_code r = 201) :
  exists row,
    books (db w') = books (db w) ++ [row]
    /\ b_book_id row = next_book_id (db w)
    /\ b_isbn row = bc_isbn book
    /\ b_title row = bc_title book
    /\ b_total_copies row = bc_total_copies book
    /\ b_available_copies row = match bc_available_copies book with
                                | Some n => n
                                | None => bc_total_copies book
                                end
    /\ 1 <= b_total_copies row
    /\ 0 <= b_available_copies row <= b_total_copies row
    /\ (forall b, In b (books (db w)) -> b_isbn b <> bc_isbn book)
    /\ members (db w') = members (db w)
    /\ loan_transactions (db w') = loan_transactions (db w).
Proof.
  unfold route in Hc.
  destruct (BookCreate_valid book) eqn:V.
  2:{ inversion Hc; subst. discriminate. }
  destruct (create_book book w) as [[e | c] w1] eqn:E.
  { apply create_book_inl in E as [(detail & ->) | (k & ->)];
      inversion Hc; subst; discriminate. }
  inversion Hc; subst; clear Hc.
  apply create_book_inr in E as (n & d1 & Hq & Hb & Hm & Hl).
  unfold insert_book in Hq.
  destruct (bc_edition book) as [edition |]; [| discriminate].
  destruct (bc_language book) as [language |]; [| discriminate].
  destruct (bc_book_condition book) as [condition |]; [| discriminate].
  destruct (existsb _ _) eqn:Ex; [discriminate |].
  inversion Hq; subst n d1; clear Hq. simpl in Hb, Hm, Hl.
  unfold BookCreate_valid in V. repeat (apply andb_true_iff in V as [V ?]).
  unfold validate_available_copies in *.
  eexists. split; [exact Hb |]. cbn.
  assert (Ht : 1 <= bc_total_copies book) by (now apply Z.leb_le).
  repeat split; auto.
  - destruct (bc_available_copies book) as [a |]; simpl in *; [| lia].
    now apply Z.leb_le.
  - destruct (bc_available_copies book) as [a |]; simpl in *; [| lia].
    rewrite Z.gtb_ltb in *.
    match goal with H : negb (_ <? _) = true |- _ =>
      apply negb_true_iff, Z.ltb_ge in H; exact H end.
  - intros b Hin Heq.
    assert (existsb (fun b => String.eqb (b_isbn b) (bc_isbn book))
                    (books (db w)) = true) as F.
    { apply existsb_exists. exists b. split; [exact Hin |].
      now apply String.eqb_eq. }
    congruence.
Qed.




(** ** Updating books *)

Lemma book_update_fields_supplied (col : BookColumn.t) (book : BookUpdate) :
  book_field_supplied col book = true -> book_update_fields book <> [].
Proof.
  intros H E. apply (f_equal (@List.length string)) in E.
  unfold book_update_fields in E. rewrite !length_app in E.
  destruct col; simpl in H; unfold placeholder in E; rewrite H in E;
    simpl in E; lia.
Qed.

Lemma update_book_raises (book_id : Z) (book : BookUpdate) :
  raises_within [404; 500] (update_book book_id book).
Proof. unfold update_book. statuses. Qed.

Lemma update_book_inr (book_id : Z) (book : BookUpdate) (w w' : World)
    (r : Content) :
  update_book book_id book w = (inr r, w') ->
  find_book book_id (db w) <> None
  /\ exists d1,
       match book_update_fields book with
       | [] => d1 = db w
       | _ :: _ => exists n, update_books_set book book_id (clock w) (db w)
                             = inr (n, d1)
       end
       /\ match bu_authors book with
          | SetTo refs =>
              forallb has_author_id refs = true
              /\ books (db w') = books d1
              /\ book_authors (db w')
                 = filter (fun ba => negb (ba_book_id ba =? book_id))
                          (book_authors d1)
                   ++ author_links book_id refs
          | _ => db w' = d1
          end.
Proof.
  unfold update_book. intros H.
  apply bind_inr in H as (existing & w1 & H1 & H).
  apply execute_query_inr in H1 as (d0 & H1 & ->).
  unfold select_book_id, query in H1. inversion H1; subst; clear H1.
  destruct (find_book book_id (db w)) as [b |] eqn:Eb; simpl in H;
    [| discriminate].
  split; [discriminate |].
  apply bind_inr in H as (u & w2 & H2 & H).
  apply bind_inr in H as (u' & w3 & H3 & H).
  unfold ret in H. inversion H; subst w3 r; clear H.
  assert (Hd2 : exists d1,
             match book_update_fields book with
             | [] => d1 = db w
             | _ :: _ => exists n, update_books_set book book_id (clock w) (db w)
                                   = inr (n, d1)
             end /\ db w2 = d1 /\ clock w2 = clock w).
  { destruct (book_update_fields book).
    - unfold ret in H2. inversion H2; subst. exists (db w). auto.
    - apply bind_inr in H2 as (n & w4 & H4 & H2).
      unfold ret in H2. inversion H2; subst w4; clear H2.
      apply execute_query_inr in H4 as (d1 & H4 & ->).
      exists d1. split; [exists n; exact H4 | auto]. }
  destruct Hd2 as (d1 & Hf & Hd & Hc). exists d1. split; [exact Hf |].
  destruct (bu_authors book) as [| | refs].
  - unfold ret in H3. inversion H3 as [[Hu Hw]]. rewrite <- Hw. exact Hd.
  - unfold ret in H3. inversion H3 as [[Hu Hw]]. rewrite <- Hw. exact Hd.
  - apply bind_inr in H3 as (n & w4 & H4 & H3).
    apply execute_query_inr in H4 as (d3 & H4 & ->).
    unfold delete_book_authors in H4. inversion H4; subst n d3; clear H4.
    apply insert_author_links_inr in H3 as (Hall & Hb & _ & _ & Hba & _).
    simpl in Hb, Hba. rewrite Hd in Hb, Hba. auto.
Qed.

(** X11.  What [PUT /api/books/{id}] has written when it answers 200,
    whatever faults the call met.  The book existed; in its row every column
    for which the body carries a value now holds that value, and
    [updated_at] is the time of the call as soon as one column was written;
    rows of other books are the ones that were there.  When the body
    carries [authors], every entry had an [author_id], and the links of the
    book are exactly the ones of the body, in its order -- with the role
    "Primary Author" where an entry has no [role] key, NULL where its
    [role] is null, the role given otherwise -- after the links of the
    other books. *)
Theorem update_book_writes_supplied (book_id : Z) (book : BookUpdate)
    (w w' : World) (r : Response)
    (Hc : route 200 (BookUpdate_valid book) (update_book book_id book) w
          = (r, w'))
    (Hok : status_code r = 200) :
  find_book book_id (db w) <> None
  /\ (forall b', In b' (books (db w')) -> b_book_id b' = book_id ->
        (forall col, book_field_supplied col book = true ->
                     book_cell col b' = book_field_cell col book)
        /\ ((exists col, book_field_supplied col book = true) ->
            b_updated_at b' = now (clock w)))
  /\ (forall b, b_book_id b <> book_id ->
                (In b (books (db w')) <-> In b (books (db w))))
  /\ (forall refs, bu_authors book = SetTo refs ->
        forallb has_author_id refs = true
        /\ book_authors (db w')
           = filter (fun ba => negb (ba_book_id ba =? book_id))
                    (book_authors (db w))
             ++ author_links book_id refs).
Proof.
  unfold route in Hc.
  destruct (BookUpdate_valid book).
  2:{ inversion Hc; subst. discriminate. }
  destruct (update_book book_id book w) as [[e | c] w1] eqn:E.
  { apply update_book_raises in E. inversion Hc; subst.
    unfold exn_status in E. rewrite Hok in E. simpl in E.
    intuition discriminate. }
  inversion Hc; subst r w1; clear Hc.
  apply update_book_inr in E as (Hfound & d1 & Hf & Ha).
  split; [exact Hfound |].
  assert (Hbooks : books (db w') = books d1).
  { destruct (bu_authors book); [now rewrite Ha | now rewrite Ha | apply Ha]. }
  assert (Hd1 : (book_update_fields book = [] /\ d1 = db w)
                \/ (book_update_fields book <> []
                    /\ books d1
                       = map (fun b => if b_book_id b =? book_id
                                       then set_book_fields book (clock w) b
                                       else b) (books (db w))
                    /\ book_authors d1 = book_authors (db w))).
  { destruct (book_update_fields book) as [| f fs]; [left; auto | right].
    destruct Hf as (n & Hf). unfold update_books_set in Hf.
    destruct (match bu_isbn book with SetTo _ => _ | _ => false end);
      [discriminate |].
    inversion Hf; subst. split; [discriminate | split; reflexivity]. }
  split; [| split].
  - intros b' Hin Hid. rewrite Hbooks in Hin.
    destruct Hd1 as [[Hnil ->] | (Hne & Hmap & _)].
    + split.
      * intros col Hcol. now apply book_update_fields_supplied in Hcol.
      * intros [col Hcol]. now apply book_update_fields_supplied in Hcol.
    + rewrite Hmap in Hin. apply in_map_iff in Hin as (b & Hb & Hin).
      destruct (b_book_id b =? book_id) eqn:Eid.
      2:{ subst b'. apply Z.eqb_neq in Eid. contradiction. }
      subst b'. split; [| reflexivity].
      intros col Hcol.
      destruct col; simpl in Hcol |- *;
        match goal with
        | H : supplied ?f = true |- _ => destruct f; try discriminate
        end; reflexivity.
  - intros b Hne. rewrite Hbooks.
    destruct Hd1 as [[Hnil ->] | (_ & Hmap & _)]; [reflexivity |].
    rewrite Hmap, in_map_iff. split.
    + intros (x & Hx & Hin).
      destruct (b_book_id x =? book_id) eqn:Eid; [| now subst x].
      apply Z.eqb_eq in Eid. subst b. simpl in Hne. contradiction.
    + intros Hin. exists b. split; [| exact Hin].
      assert ((b_book_id b =? book_id) = false) as F by (now apply Z.eqb_neq).
      now rewrite F.
  - intros refs Hrefs. rewrite Hrefs in Ha. destruct Ha as (Hall & _ & Hba).
    split; [exact Hall |]. rewrite Hba.
    destruct Hd1 as [[_ ->] | (_ & _ & ->)]; reflexivity.
Qed.

(** ** Updating members *)

Lemma member_update_fields_supplied (col : MemberColumn.t) (member : MemberUpdate) :
  member_field_supplied col member = true -> member_update_fields member <> [].
Proof.
  intros H E. apply (f_equal (@List.length string)) in E.
  unfold member_update_fields in E. rewrite !length_app in E.
  destruct col; simpl in H; unfold placeholder in E; rewrite H in E;
    simpl in E; lia.
Qed.

Lemma update_member_raises (member_id : Z) (member : MemberUpdate) :
  raises_within [404; 500] (update_member member_id member).
Proof. unfold update_member. statuses. Qed.

Lemma update_member_inr (member_id : Z) (member : MemberUpdate) (w w' : World)
    (r : Content) :
  update_member member_id member w = (inr r, w') ->
  find_member member_id (db w) <> None
  /\ match member_update_fields member with
     | [] => db w' = db w
     | _ :: _ => exists n, update_members_set member member_id (clock w) (db w)
                           = inr (n, db w')
     end.
Proof.
  unfold update_member. intros H.
  apply bind_inr in H as (existing & w1 & H1 & H).
  apply execute_query_inr in H1 as (d0 & H1 & ->).
  unfold select_member_id, query in H1. inversion H1; subst; clear H1.
  destruct (find_member member_id (db w)) as [m |] eqn:Em; simpl in H;
    [| discriminate].
  split; [discriminate |].
  apply bind_inr in H as (u & w2 & H2 & H).
  unfold ret in H. inversion H; subst w2 r; clear H.
  destruct (member_update_fields member).
  - unfold ret in H2. inversion H2; subst. reflexivity.
  - apply bind_inr in H2 as (n & w4 & H4 & H2).
    unfold ret in H2. inversion H2; subst w4; clear H2.
    apply execute_query_inr in H4 as (d1 & H4 & ->).
    exists n. exact H4.
Qed.

Lemma existsb_false_forall {A} (p : A -> bool) (l : list A) :
  existsb p l = false -> forall x, In x l -> p x = false.
Proof.
  intros H x Hin. destruct (p x) eqn:E; [| reflexivity].
  assert (existsb p l = true) by (apply existsb_exists; eauto). congruence.
Qed.

(** X12.  What [PUT /api/members/{id}] has written when it answers 200,
    whatever faults the call met.  The member existed; in its row every
    column for which the body carries a value now holds that value -- so a
    body with [is_active: true] brings a deactivated member back -- and
    [updated_at] is the time of the call as soon as one column was written;
    the rows of the other members are the ones that were there, and none of
    them has the membership number or the e-mail address the body sets;
    books and loans are untouched. *)
Theorem update_member_writes_supplied (email_str : string -> bool)
    (member_id : Z) (member : MemberUpdate) (w w' : World) (r : Response)
    (Hc : route 200 (MemberUpdate_valid email_str member)
                (update_member member_id member) w = (r, w'))
    (Hok : status_code r = 200) :
  find_member member_id (db w) <> None
  /\ (forall m', In m' (members (db w')) -> m_member_id m' = member_id ->
        (forall col, member_field_supplied col member = true ->
                     member_cell col m' = member_field_cell col member)
        /\ ((exists col, member_field_supplied col member = true) ->
            m_updated_at m' = now (clock w)))
  /\ (forall m, m_member_id m <> member_id ->
        (In m (members (db w')) <-> In m (members (db w)))
        /\ (In m (members (db w)) ->
            (forall n, mu_membership_number member = SetTo n ->
                       m_membership_number m <> n)
            /\ (forall e, mu_email member = SetTo e -> m_email m <> Some e)))
  /\ books (db w') = books (db w)
  /\ loan_transactions (db w') = loan_transactions (db w).
Proof.
  unfold route in Hc.
  destruct (MemberUpdate_valid email_str member).
  2:{ inversion Hc; subst. discriminate. }
  destruct (update_member member_id member w) as [[e | c] w1] eqn:E.
  { apply update_member_raises in E. inversion Hc; subst.
    unfold exn_status in E. rewrite Hok in E. simpl in E.
    intuition discriminate. }
  inversion Hc; subst r w1; clear Hc.
  apply update_member_inr in E as (Hfound & Hf).
  split; [exact Hfound |].
  assert (Hhit : existsb (fun m => m_member_id m =? member_id) (members (db w))
                 = true).
  { unfold find_member in Hfound.
    destruct (find _ (members (db w))) as [m |] eqn:Em; [| contradiction].
    apply find_some in Em as [Hin Hid]. apply existsb_exists. eauto. }
  destruct (member_update_fields member) as [| f fs] eqn:Ef.
  - rewrite Hf. split; [| split; [| split; reflexivity]].
    + intros m' _ _. split.
      * intros col Hcol. apply member_update_fields_supplied in Hcol.
        congruence.
      * intros [col Hcol]. apply member_update_fields_supplied in Hcol.
        congruence.
    + intros m Hne. split; [reflexivity |]. intros Hin. split.
      * intros n Hn.
        assert (member_field_supplied MemberColumn.membership_number member
                = true) as Hs by (simpl; now rewrite Hn).
        apply member_update_fields_supplied in Hs. congruence.
      * intros e He.
        assert (member_field_supplied MemberColumn.email member = true)
          as Hs by (simpl; now rewrite He).
        apply member_update_fields_supplied in Hs. congruence.
  - destruct Hf as (n & Hf). unfold update_members_set in Hf.
    rewrite Hhit in Hf. cbn [andb] in Hf.
    destruct (match mu_membership_number member with
              | SetTo _ => _ | _ => false end) eqn:En; [discriminate |].
    destruct (match mu_email member with
              | SetTo _ => _ | _ => false end) eqn:Ee; [discriminate |].
    inversion Hf as [[Hn Hd]]. clear Hf. simpl.
    split; [| split; [| split; reflexivity]].
    + intros m' Hin Hid. apply in_map_iff in Hin as (m & Hm & Hin).
      destruct (m_member_id m =? member_id) eqn:Eid.
      2:{ subst m'. apply Z.eqb_neq in Eid. contradiction. }
      subst m'. split; [| reflexivity].
      intros col Hcol.
      destruct col; simpl in Hcol |- *;
        match goal with
        | H : supplied ?f = true |- _ => destruct f; try discriminate
        end; reflexivity.
    + intros m Hne. split.
      * rewrite in_map_iff. split.
        -- intros (x & Hx & Hin).
           destruct (m_member_id x =? member_id) eqn:Eid; [| now subst x].
           apply Z.eqb_eq in Eid. subst m. simpl in Hne. contradiction.
        -- intros Hin. exists m. split; [| exact Hin].
           assert ((m_member_id m =? member_id) = false) as F
               by (now apply Z.eqb_neq).
           now rewrite F.
      * intros Hin.
        assert (F : (m_member_id m =? member_id) = false)
          by (now apply Z.eqb_neq).
        split.
        -- intros k Hk Heq. rewrite Hk in En.
           apply existsb_false_forall with (x := m) in En; [| exact Hin].
           rewrite F in En. simpl in En.
           apply String.eqb_neq in En. contradiction.
        -- intros e He Heq. rewrite He in Ee.
           apply existsb_false_forall with (x := m) in Ee; [| exact Hin].
           rewrite F in Ee. simpl in Ee. unfold same_email in Ee.
           rewrite Heq in Ee. rewrite String.eqb_refl in Ee. discriminate.
Qed.

(** ** Creating members *)

Lemma create_member_inr (member : MemberCreate) (w w' : World) (r : Content) :
  create_member member w = (inr r, w') ->
  exists n d1,
    insert_member member (clock w) (db w) = inr (n, d1)
    /\ members (db w') = members d1
    /\ books (db w') = books d1
    /\ loan_transactions (db w') = loan_transactions d1.
Proof.
  unfold create_member, try_except.
  destruct (bind _ _ w) as [[e | a] w1] eqn:E.
  { destruct e; try discriminate. destruct (_ || _)%bool; discriminate. }
  intros H. inversion H; subst a w1; clear H.
  apply bind_inr in E as (n & w1 & H1 & E).
  apply execute_query_inr in H1 as (d1 & H1 & ->).
  exists n, d1. split; [exact H1 |].
  apply bind_inr in E as (id & w2 & H2 & E).
  apply execute_query_inr in H2 as (d2 & H2 & ->).
  unfold select_last_insert_id, query in H2. inversion H2; subst; clear H2.
  unfold ret in E. inversion E; subst; clear E. simpl. auto.
Qed.

(** X13.  What [POST /api/members] has stored when it answers 201, whatever
    faults the call met.  Exactly one row is appended to [members], with the
    next AUTO_INCREMENT id and the membership number, e-mail address, dates
    and limit of the body; the new member is active, the membership expires
    after it starts, the limit is positive and a date of birth is not in the
    future; no member stored before had that membership number or that
    e-mail address; books and loans are as they were, so the new member
    holds no loan. *)
Theorem create_member_stores_row (email_str : string -> bool)
    (member : MemberCreate) (w w' : World) (r : Response)
    (Hc : route 201 (MemberCreate_valid email_str (today (clock w)) member)
                (create_member member) w = (r, w'))
    (Hok : status_code r = 201) :
  exists row,
    members (db w') = members (db w) ++ [row]
    /\ m_member_id row = next_member_id (db w)
    /\ m_membership_number row = mc_membership_number member
    /\ m_email row = mc_email member
    /\ m_is_active row = true
    /\ m_membership_start_date row = mc_membership_start_date member
    /\ m_membership_expiry_date row = mc_membership_expiry_date member
    /\ m_membership_start_date row < m_membership_expiry_date row
    /\ mc_max_books_allowed member = Some (m_max_books_allowed row)
    /\ 0 < m_max_books_allowed row
    /\ (forall born, m_date_of_birth row = Some born -> born <= today (clock w))
    /\ (forall m, In m (members (db w)) ->
                  m_membership_number m <> mc_membership_number member
                  /\ (forall e, mc_email member = Some e -> m_email m <> Some e))
    /\ books (db w') = books (db w)
    /\ loan_transactions (db w') = loan_transactions (db w).
Proof.
  unfold route in Hc.
  destruct (MemberCreate_valid email_str (today (clock w)) member) eqn:V.
  2:{ inversion Hc; subst. discriminate. }
  destruct (create_member member w) as [[e | c] w1] eqn:E.
  { apply create_member_inl in E as (detail & ->).
    inversion Hc; subst; discriminate. }
  inversion Hc; subst; clear Hc.
  apply create_member_inr in E as (n & d1 & Hq & Hm & Hb & Hl).
  unfold insert_member in Hq.
  destruct (mc_membership_type member) as [membership_type |];
    [| discriminate].
  destruct (mc_max_books_allowed member) as [limit |] eqn:El; [| discriminate].
  destruct (existsb _ _) eqn:En; [discriminate |].
  destruct (match mc_email member with Some _ => _ | None => false end) eqn:Ee;
    [discriminate |].
  inversion Hq; subst n d1; clear Hq. simpl in Hm, Hb, Hl.
  unfold MemberCreate_valid in V. repeat (apply andb_true_iff in V as [V ?]).
  unfold validate_expiry_date, validate_birth_date in *.
  eexists. split; [exact Hm |]. cbn.
  repeat split; auto.
  - match goal with H : negb (_ <=? _) = true |- _ =>
      apply negb_true_iff, Z.leb_gt in H; exact H end.
  - match goal with
    | H : optional _ (mc_max_books_allowed member) = true |- _ =>
        rewrite El in H; simpl in H; now apply Z.ltb_lt in H
    end.
  - intros born Hborn.
    match goal with H : match mc_date_of_birth member with _ => _ end = true |- _ =>
      rewrite Hborn in H; rewrite Z.gtb_ltb in H;
      apply negb_true_iff, Z.ltb_ge in H; exact H end.
  - intros Heq.
    apply existsb_false_forall with (x := m) in En; [| assumption].
    apply String.eqb_neq in En. contradiction.
  - intros e He Heq. rewrite He in Ee.
    apply existsb_false_forall with (x := m) in Ee; [| assumption].
    unfold same_email in Ee. rewrite Heq, String.eqb_refl in Ee. discriminate.
Qed.

(** ** Listing books *)

Lemma in_firstn {A} (n : nat) (l : list A) (x : A) : In x (firstn n l) -> In x l.
Proof.
  intros H. rewrite <- (firstn_skipn n l). apply in_app_iff. now left.
Qed.

Lemma in_skipn {A} (n : nat) (l : list A) (x : A) : In x (skipn n l) -> In x l.
Proof.
  intros H. rewrite <- (firstn_skipn n l). apply in_app_iff. now right.
Qed.

Section Listing.

Variable email_str : string -> bool.
Variable like : string -> string -> bool.
Variable title_le : string -> string -> bool.

Lemma order_by_title_permutation (rows : list BookResponse) :
  Permutation (order_by_title title_le rows) rows.
Proof.
  induction rows as [| r rows IH]; simpl; [constructor |].
  transitivity (r :: order_by_title title_le rows); [| now constructor].
  generalize (order_by_title title_le rows). clear IH.
  intros l. induction l as [| x l IH]; simpl; [reflexivity |].
  destruct (title_le _ _); [reflexivity |].
  transitivity (x :: r :: l); [now constructor | constructor].
Qed.

Lemma joined_author_names_not_nil (d : DB) (b : Book) :
  joined_author_names d b <> [].
Proof.
  unfold joined_author_names.
  destruct (filter _ (book_authors d)) as [| ba links]; [discriminate |].
  cbn [flat_map].
  destruct (filter _ (authors d)) as [| a matched]; discriminate.
Qed.

Lemma matching_books_in (search category : option string)
    (available : option bool) (d : DB) (r : BookResponse) :
  In r (matching_books like search category available d) ->
  In (br_book r) (books d)
  /\ br_category_name r = joined_category_name d (br_book r)
  /\ exists name,
       books_where like search category available d (br_book r) name = true.
Proof.
  unfold matching_books. intros H.
  apply in_flat_map in H as (b & Hb & H).
  destruct (filter _ (joined_author_names d b)) as [| n group] eqn:E;
    [destruct H |].
  destruct H as [<- | []]. simpl.
  split; [exact Hb | split; [reflexivity |]].
  exists n.
  assert (In n (filter (books_where like search category available d b)
                       (joined_author_names d b))) as Hin
      by (rewrite E; now left).
  now apply filter_In in Hin.
Qed.

Lemma matching_books_books (search category : option string)
    (available : option bool) (d : DB) :
  map br_book (matching_books like search category available d)
  = filter (fun b =>
              match filter (books_where like search category available d b)
                           (joined_author_names d b) with
              | [] => false
              | _ => true
              end) (books d).
Proof.
  unfold matching_books.
  induction (books d) as [| b bs IH]; [reflexivity |].
  cbn [flat_map filter]. rewrite map_app, IH.
  destruct (filter _ (joined_author_names d b)); reflexivity.
Qed.

(** X14.  The filters of [GET /api/books], in a call that meets no fault.
    Every row of the answer is a stored book; with [available=true] it has
    a copy available, with [available=false] it has none, and with a
    category it carries that category name.  The total never exceeds the
    number of stored books, and with no search term, no category and no
    availability flag -- an empty string counts as none -- it is that
    number.  When the stored book ids differ, no book is listed twice on a
    page, however many authors it has. *)
Theorem get_books_filters (d : DB) (c : Clock) (page limit : Z)
    (search category : option string) (available : option bool)
    (Hpage : 1 <= page) (Hlimit : 1 <= limit <= 100) :
  exists rows pg,
    fst (serve email_str like title_le
           (GetBooks page limit search category available) (mkWorld d c []))
    = mkResponse 200 (BookListResponse rows pg)
    /\ (forall r, In r rows ->
          In (br_book r) (books d)
          /\ (available = Some true -> 0 < b_available_copies (br_book r))
          /\ (available = Some false -> b_available_copies (br_book r) = 0)
          /\ (forall name, truthy category = Some name ->
                           br_category_name r = Some name))
    /\ 0 <= pg_total pg <= Z.of_nat (List.length (books d))
    /\ (truthy search = None -> truthy category = None -> available = None ->
        pg_total pg = Z.of_nat (List.length (books d)))
    /\ (NoDup (map b_book_id (books d)) ->
        NoDup (map (fun r => b_book_id (br_book r)) rows)).
Proof.
  set (matches := matching_books like search category available d).
  set (rows := firstn (Z.to_nat limit)
                 (skipn (Z.to_nat ((page - 1) * limit))
                    (order_by_title title_le matches))).
  exists rows,
    (mkPagination page limit (Z.of_nat (List.length matches))
       ((Z.of_nat (List.length matches) + limit - 1) / limit)).
  assert (Hsub : forall r, In r rows -> In r matches).
  { intros r Hr. unfold rows in Hr.
    apply in_firstn, in_skipn in Hr.
    eapply Permutation_in; [apply order_by_title_permutation | exact Hr]. }
  assert (Hlen : List.length matches
                 = List.length (map br_book matches))
    by (now rewrite length_map).
  split; [| split; [| split; [| split]]].
  - cbn [serve]. unfold route, paging_valid.
    replace (1 <=? page) with true by (symmetry; apply Z.leb_le; lia).
    replace (1 <=? limit) with true by (symmetry; apply Z.leb_le; lia).
    replace (limit <=? 100) with true by (symmetry; apply Z.leb_le; lia).
    reflexivity.
  - intros r Hr. apply Hsub in Hr.
    apply matching_books_in in Hr as (Hin & Hcat & name & Hw).
    unfold books_where in Hw.
    apply andb_true_iff in Hw as [Hw Ha].
    apply andb_true_iff in Hw as [_ Hc].
    split; [exact Hin | split; [| split]].
    + intros ->. rewrite Z.gtb_ltb in Ha. now apply Z.ltb_lt.
    + intros ->. now apply Z.eqb_eq.
    + intros name' Hn. rewrite Hn in Hc. rewrite Hcat.
      destruct (joined_category_name d (br_book r)) as [cn |];
        [| discriminate].
      apply String.eqb_eq in Hc. now subst.
  - cbn [pg_total]. rewrite Hlen. unfold matches.
    rewrite matching_books_books.
    pose proof (filter_length_le
                  (fun b =>
                     match filter (books_where like search category available d b)
                                  (joined_author_names d b) with
                     | [] => false
                     | _ => true
                     end) (books d)).
    lia.
  - intros Hs Hc Ha. cbn [pg_total]. rewrite Hlen. unfold matches.
    rewrite matching_books_books. f_equal. f_equal.
    rewrite <- (filter_true (books d)) at 2.
    apply filter_ext. intros b.
    unfold books_where. rewrite Hs, Hc, Ha. simpl.
    rewrite filter_true.
    pose proof (joined_author_names_not_nil d b).
    now destruct (joined_author_names d b).
  - intros Hnd.
    assert (Hall : NoDup (map (fun r => b_book_id (br_book r)) matches)).
    { rewrite <- (map_map br_book b_book_id). unfold matches.
      rewrite matching_books_books. now apply NoDup_map_filter. }
    assert (Hsorted : NoDup (map (fun r => b_book_id (br_book r))
                               (order_by_title title_le matches))).
    { eapply Permutation_NoDup; [| exact Hall].
      apply Permutation_map, Permutation_sym, order_by_title_permutation. }
    unfold rows.
    set (l := order_by_title title_le matches) in *.
    rewrite <- (firstn_skipn (Z.to_nat ((page - 1) * limit)) l) in Hsorted.
    rewrite map_app in Hsorted. apply NoDup_app_remove_l in Hsorted.
    set (l2 := skipn _ l) in *.
    rewrite <- (firstn_skipn (Z.to_nat limit) l2) in Hsorted.
    rewrite map_app in Hsorted. now apply NoDup_app_remove_r in Hsorted.
Qed.

End Listing.


Section Pages.

Variable email_str : string -> bool.
Variable like : string -> string -> bool.
Variable title_le : string -> string -> bool.



End Pages.

(** ** Listing loans *)

Lemma joined_loans_in (d : DB) (l : Loan) (m : Member) (b : Book) :
  In (l, m, b) (joined_loans d)
  <-> In l (loan_transactions d) /\ In m (members d) /\ In b (books d)
      /\ m_member_id m = lt_member_id l /\ b_book_id b = lt_book_id l.
Proof.
  unfold joined_loans. rewrite in_flat_map. split.
  - intros (l0 & Hl & H). apply in_flat_map in H as (m0 & Hm & H).
    apply in_map_iff in H as (b0 & E & Hb). inversion E; subst.
    apply filter_In in Hm as [Hm Em]. apply filter_In in Hb as [Hb Eb].
    apply Z.eqb_eq in Em, Eb. auto.
  - intros (Hl & Hm & Hb & Em & Eb). exists l. split; [exact Hl |].
    apply in_flat_map. exists m. split.
    + apply filter_In. split; [exact Hm | now apply Z.eqb_eq].
    + apply in_map_iff. exists b. split; [reflexivity |].
      apply filter_In. split; [exact Hb | now apply Z.eqb_eq].
Qed.

Lemma order_by_loan_date_desc_permutation (rows : list (Loan * Member * Book)) :
  Permutation (order_by_loan_date_desc rows) rows.
Proof.
  induction rows as [| r rows IH]; simpl; [constructor |].
  transitivity (r :: order_by_loan_date_desc rows); [| now constructor].
  generalize (order_by_loan_date_desc rows). clear IH.
  intros l. induction l as [| x l IH]; simpl; [reflexivity |].
  destruct (_ <=? _); [reflexivity |].
  transitivity (x :: r :: l); [now constructor | constructor].
Qed.

Lemma get_loans_quiet (d : DB) (c : Clock) (page limit : Z)
    (member_id : option Z) (status : option string) :
  get_loans page limit member_id status (mkWorld d c [])
  = (inr (mkLoanListResponse "Loans retrieved successfully"
            (map (loan_list_row c)
               (firstn (Z.to_nat limit)
                  (skipn (Z.to_nat ((page - 1) * limit))
                     (order_by_loan_date_desc
                        (matching_loans member_id status d)))))
            (mkPagination page limit
               (Z.of_nat (List.length (matching_loans member_id status d)))
               ((Z.of_nat (List.length (matching_loans member_id status d))
                 + limit - 1) / limit))),
     mkWorld d c []).
Proof. reflexivity. Qed.

Lemma get_loans_read_only (page limit : Z) (member_id : option Z)
    (status : option string) :
  stable (fun d d' => d' = d) (get_loans page limit member_id status).
Proof.
  set (P := fun d d' : DB => d' = d).
  assert (Hrefl : forall d, P d d) by reflexivity.
  assert (Htrans : forall d1 d2 d3, P d1 d2 -> P d2 d3 -> P d1 d3)
    by (unfold P; intros; congruence).
  unfold get_loans. cbv zeta. frame Hrefl Htrans.
  - intros c d r d' H. unfold select_loans in H. now inversion H.
  - apply stmt_stable_query, Hrefl.
Qed.

(** X16.  What [GET /api/loans] lists.  The call never writes, whatever
    faults it meets.  In a call that meets no fault every listed row is a
    stored loan joined with a stored member and a stored book of the ids
    the loan names -- a loan whose book or member row is gone is not listed
    and not counted -- and the loan passes the filters: its member is the
    [member_id] asked for and its stored status the [status] asked for.
    [member_id=0] is no filter at all: the call answers as if the parameter
    were absent.  The total is the number of joined rows that pass the
    filters, whatever the page. *)
Theorem get_loans_lists_joined_rows (d : DB) (c : Clock) (page limit : Z)
    (member_id : option Z) (status : option string) :
  (forall fs,
      db (snd (get_loans page limit member_id status (mkWorld d c fs))) = d)
  /\ (exists rows pages,
        get_loans page limit member_id status (mkWorld d c [])
        = (inr (mkLoanListResponse "Loans retrieved successfully" rows
                  (mkPagination page limit
                     (Z.of_nat (List.length (matching_loans member_id status d)))
                     pages)),
           mkWorld d c [])
        /\ forall row, In row rows ->
             exists l m b,
               row = loan_list_row c (l, m, b)
               /\ In l (loan_transactions d)
               /\ In m (members d) /\ m_member_id m = lt_member_id l
               /\ In b (books d) /\ b_book_id b = lt_book_id l
               /\ (forall id, member_id = Some id -> id <> 0 ->
                              lt_member_id l = id)
               /\ (forall s, truthy status = Some s ->
                             LoanStatus_name (lt_loan_status l) = s))
  /\ get_loans page limit (Some 0) status (mkWorld d c [])
     = get_loans page limit None status (mkWorld d c []).
Proof.
  split; [| split].
  - intros fs. apply (get_loans_read_only page limit member_id status
                        (mkWorld d c fs)).
  - eexists _, _. split; [apply get_loans_quiet |].
    intros row Hrow. apply in_map_iff in Hrow as ([[l m] b] & <- & Hin).
    apply in_firstn, in_skipn in Hin.
    apply (Permutation_in _ (order_by_loan_date_desc_permutation _)) in Hin.
    apply filter_In in Hin as [Hj Hw]. apply joined_loans_in in Hj.
    destruct Hj as (Hl & Hm & Hb & Em & Eb).
    exists l, m, b. simpl in Hw. unfold loans_where in Hw.
    apply andb_true_iff in Hw as [Hid Hst].
    repeat split; auto.
    + intros id -> Hne.
      assert ((id =? 0) = false) as F by (now apply Z.eqb_neq).
      rewrite F in Hid. now apply Z.eqb_eq.
    + intros s Hs. rewrite Hs in Hst. now apply String.eqb_eq.
  - reflexivity.
Qed.

Lemma delete_book_raises (book_id : Z) :
  raises_within [400; 404; 500] (delete_book book_id).
Proof. unfold delete_book. statuses. Qed.

Lemma delete_book_inr (book_id : Z) (w w' : World) (r : Content) :
  delete_book book_id w = (inr r, w') ->
  find_book book_id (db w) <> None
  /\ ~ book_on_loan book_id (db w)
  /\ books (db w')
     = filter (fun b => negb (b_book_id b =? book_id)) (books (db w))
  /\ book_authors (db w')
     = filter (fun ba => negb (ba_book_id ba =? book_id)) (book_authors (db w))
  /\ members (db w') = members (db w)
  /\ loan_transactions (db w') = loan_transactions (db w).
Proof.
  unfold delete_book. intros E.
  apply bind_inr in E as (x & w1 & E1 & E).
  apply execute_query_inr in E1 as (d1 & E1 & ->).
  inversion E1; subst; clear E1.
  destruct (find_book book_id (db w)) as [b |] eqn:Eb; simpl in E;
    [| discriminate].
  apply bind_inr in E as (n & w2 & E2 & E).
  apply execute_query_inr in E2 as (d2 & E2 & ->).
  inversion E2; subst; clear E2. simpl in E.
  destruct (_ >? 0) eqn:Ec; [discriminate |].
  apply bind_inr in E as (k & w3 & E3 & E).
  apply execute_query_inr in E3 as (d3 & E3 & ->).
  inversion E3; subst; clear E3. inversion E; subst; clear E. simpl.
  split; [discriminate | split; [| auto]].
  intros (l & Hl & Hb & Ha).
  assert (0 < count_rows (active_loan_of_book book_id) (loan_transactions (db w))).
  { apply (count_rows_pos _ _ l Hl). unfold active_loan_of_book.
    rewrite Hb, Z.eqb_refl. simpl. now apply loan_is_active_true. }
  apply Z.gtb_lt in H. unfold count_active_loans_of_book, query in Ec.
  congruence.
Qed.

Lemma filter_all {A} (p : A -> bool) (l : list A) :
  (forall x, In x l -> p x = true) -> filter p l = l.
Proof.
  induction l as [| a l IH]; intros H; simpl; [reflexivity |].
  rewrite (H a (or_introl eq_refl)), IH; [reflexivity |].
  intros x Hx. apply H. now right.
Qed.

Lemma filter_none {A} (p : A -> bool) (l : list A) :
  (forall x, In x l -> p x = false) -> filter p l = [].
Proof.
  induction l as [| a l IH]; intros H; simpl; [reflexivity |].
  rewrite (H a (or_introl eq_refl)). apply IH.
  intros x Hx. apply H. now right.
Qed.

Lemma filter_swap {A} (p q : A -> bool) (l : list A) :
  filter p (filter q l) = filter q (filter p l).
Proof.
  induction l as [| a l IH]; simpl; [reflexivity |].
  destruct (p a) eqn:Ep, (q a) eqn:Eq; simpl; rewrite ?Ep, ?Eq, IH; reflexivity.
Qed.

(** The join after the rows of one book have left [books]. *)
Lemma joined_loans_without_book (book_id : Z) (d d' : DB) :
  books d' = filter (fun b => negb (b_book_id b =? book_id)) (books d) ->
  members d' = members d ->
  loan_transactions d' = loan_transactions d ->
  joined_loans d'
  = filter (fun j => negb (lt_book_id (fst (fst j)) =? book_id)) (joined_loans d).
Proof.
  intros Hb Hm Hl. unfold joined_loans. rewrite Hb, Hm, Hl. clear Hb Hm Hl.
  induction (loan_transactions d) as [| l ls IH]; [reflexivity |].
  cbn [flat_map]. rewrite filter_app, IH. f_equal.
  destruct (lt_book_id l =? book_id) eqn:E.
  - apply Z.eqb_eq in E.
    rewrite (filter_none (fun b => b_book_id b =? lt_book_id l)).
    2:{ intros b Hin. apply filter_In in Hin as [_ Hne].
        apply negb_true_iff in Hne. now rewrite E. }
    rewrite (filter_none (fun j : Loan * Member * Book =>
                            negb (lt_book_id (fst (fst j)) =? book_id))).
    + generalize (filter (fun m => m_member_id m =? lt_member_id l) (members d)).
      intros ms. induction ms; simpl; auto.
    + intros [[l0 m0] b0] Hin. apply in_flat_map in Hin as (m & _ & Hin).
      apply in_map_iff in Hin as (b & Heq & _). inversion Heq; subst.
      simpl. apply negb_false_iff. now apply Z.eqb_eq.
  - apply Z.eqb_neq in E.
    rewrite (filter_swap (fun b => b_book_id b =? lt_book_id l)).
    rewrite (filter_all (fun b => negb (b_book_id b =? book_id))).
    2:{ intros b Hin. apply filter_In in Hin as [_ He].
        apply Z.eqb_eq in He. apply negb_true_iff, Z.eqb_neq. congruence. }
    rewrite (filter_all (fun j : Loan * Member * Book =>
                           negb (lt_book_id (fst (fst j)) =? book_id)));
      [reflexivity |].
    intros [[l0 m0] b0] Hin. apply in_flat_map in Hin as (m & _ & Hin).
    apply in_map_iff in Hin as (b & Heq & _). inversion Heq; subst.
    simpl. now apply negb_true_iff, Z.eqb_neq.
Qed.

(** X17.  A deleted book takes its loans out of the listing.  After a
    [DELETE /api/books/{id}] that answered 200 the loans of the book are
    still stored, but [GET /api/loans] no longer shows them: under every
    filter the total is the number of earlier matches that belong to other
    books, and every listed row belongs to a loan of another book.  (The
    schema not being among the sources, [loan_transactions] has no foreign
    key to [books] here.) *)
Theorem deleted_book_hides_its_loans (w w' : World) (r : Response) (book_id : Z)
    (Hdel : route 200 true (delete_book book_id) w = (r, w'))
    (Hok : status_code r = 200) :
  loan_transactions (db w') = loan_transactions (db w)
  /\ forall c page limit member_id status,
       exists rows pages,
         get_loans page limit member_id status (mkWorld (db w') c [])
         = (inr (mkLoanListResponse "Loans retrieved successfully" rows
                   (mkPagination page limit
                      (Z.of_nat
                         (List.length
                            (filter (fun j => negb (lt_book_id (fst (fst j))
                                                    =? book_id))
                                    (matching_loans member_id status (db w)))))
                      pages)),
            mkWorld (db w') c [])
         /\ forall row, In row rows ->
              exists l m b,
                row = loan_list_row c (l, m, b)
                /\ In l (loan_transactions (db w))
                /\ lt_book_id l <> book_id.
Proof.
  unfold route in Hdel.
  destruct (delete_book book_id w) as [[e | c0] w1] eqn:E.
  { apply delete_book_raises in E. inversion Hdel; subst.
    unfold exn_status in E. rewrite Hok in E. simpl in E.
    intuition discriminate. }
  inversion Hdel; subst r w1; clear Hdel.
  apply delete_book_inr in E as (_ & _ & Hb & _ & Hm & Hl).
  split; [exact Hl |].
  intros c page limit member_id status.
  assert (Hmatch : matching_loans member_id status (db w')
                   = filter (fun j => negb (lt_book_id (fst (fst j)) =? book_id))
                            (matching_loans member_id status (db w))).
  { unfold matching_loans.
    rewrite (joined_loans_without_book book_id (db w) (db w') Hb Hm Hl).
    apply filter_swap. }
  eexists _, _. split.
  - rewrite get_loans_quiet, Hmatch. reflexivity.
  - intros row Hrow. apply in_map_iff in Hrow as ([[l m] b] & <- & Hin).
    apply in_firstn, in_skipn in Hin.
    apply (Permutation_in _ (order_by_loan_date_desc_permutation _)) in Hin.
    apply filter_In in Hin as [Hin Hne]. apply filter_In in Hin as [Hj _].
    apply joined_loans_in in Hj as (Hin & _).
    exists l, m, b. split; [reflexivity | split; [exact Hin |]].
    simpl in Hne. now apply negb_true_iff, Z.eqb_neq in Hne.
Qed.

(** ** Stored status and displayed status *)

Lemma loans_active_or_returned_same (d d' : DB) :
  same_loans d d' -> keeps_loans_active_or_returned d d'.
Proof. intros [Hl _] H l. rewrite Hl. apply H. Qed.

Lemma create_loan_keeps_statuses (loan : LoanCreate) :
  stable keeps_loans_active_or_returned (create_loan loan).
Proof.
  intros w H.
  assert (Hins : loans_active_or_returned (loan_inserted (clock w) loan (db w))).
  { intros l Hl. unfold loan_inserted in Hl; simpl in Hl.
    apply in_app_iff in Hl as [Hl | [<- | []]]; [now apply H | now left]. }
  destruct (create_loan_outcomes loan w) as [-> | [_ [_ [-> | ->]]]];
    [exact H | exact Hins | exact Hins].
Qed.

Lemma return_book_keeps_statuses (tid : Z) :
  stable keeps_loans_active_or_returned (return_book tid).
Proof.
  unfold return_book.
  frame (fun (d : DB) (H : loans_active_or_returned d) => H)
        (fun (d1 d2 d3 : DB) (H12 : keeps_loans_active_or_returned d1 d2)
             (H23 : keeps_loans_active_or_returned d2 d3)
             (H : loans_active_or_returned d1) => H23 (H12 H)).
  - intros c d r d' H Hs. inversion H; subst; clear H.
    intros l1 Hl. simpl in Hl. apply in_map_iff in Hl as (l0 & <- & Hl0).
    unfold mark_returned.
    destruct (lt_transaction_id l0 =? tid); [now right | now apply Hs].
  - intros c d r d' H. inversion H; subst.
    apply loans_active_or_returned_same. split; reflexivity.
Qed.

Section Statuses.

Variable email_str : string -> bool.
Variable like : string -> string -> bool.
Variable title_le : string -> string -> bool.

Lemma serve_keeps_statuses (r : Request) (w : World) :
  loans_active_or_returned (db w) ->
  loans_active_or_returned (db (snd (serve email_str like title_le r w))).
Proof.
  intros Hk.
  assert (Hrefl : forall d, keeps_loans_active_or_returned d d)
    by (intros d H; exact H).
  assert (Hsame : forall d', same_loans (db w) d' -> loans_active_or_returned d')
    by (intros d' H; exact (loans_active_or_returned_same _ _ H Hk)).
  assert (Hmembers : forall d', same_books_and_loans (db w) d' ->
                                loans_active_or_returned d')
    by (intros d' [_ H]; exact (Hsame d' H)).
  destruct r; cbn [serve].
  - apply Hsame, (stable_route same_members_and_loans same_members_and_loans_refl).
    apply get_books_frame.
  - apply Hsame, (stable_route same_members_and_loans same_members_and_loans_refl).
    apply create_book_frame.
  - apply Hsame, (stable_route same_members_and_loans same_members_and_loans_refl).
    apply update_book_frame.
  - apply Hsame, (stable_route same_members_and_loans same_members_and_loans_refl).
    apply delete_book_frame.
  - apply Hmembers,
      (stable_route same_books_and_loans same_books_and_loans_refl).
    apply create_member_frame.
  - apply Hmembers,
      (stable_route same_books_and_loans same_books_and_loans_refl).
    apply update_member_frame.
  - apply Hmembers,
      (stable_route same_books_and_loans same_books_and_loans_refl).
    apply delete_member_frame.
  - apply (stable_route keeps_loans_active_or_returned Hrefl 201 _ _
             (create_loan_keeps_statuses loan) w Hk).
  - apply (stable_route keeps_loans_active_or_returned Hrefl 200 true _
             (return_book_keeps_statuses transaction_id) w Hk).
Qed.

Lemma run_keeps_statuses (calls : list Call) :
  forall d, loans_active_or_returned d ->
            loans_active_or_returned (run email_str like title_le calls d).
Proof.
  induction calls as [| c calls IH]; intros d Hk; [exact Hk |].
  cbn [run]. apply IH. unfold step.
  pose proof (serve_keeps_statuses (call_request c)
                (mkWorld d (call_clock c) (call_faults c)) Hk) as H.
  destruct (serve _ _ _ _ _) as [r w']. exact H.
Qed.

(** X18.  Overdue is something the listing shows, not something the routes
    store.  In a database reached from the empty one by calls of the
    modelled routes, with any faults, every loan is stored as Active or
    Returned.  So [GET /api/loans?status=Overdue] (or Lost, or Damaged)
    answers with no rows and total 0, whatever the dates; and a row is
    displayed as "Overdue" exactly when it is stored Active with its due
    date before today, as "Due Soon" exactly when it is stored Active and
    due today or within the next three days, while a Returned loan is
    displayed as "Returned" however late it came back. *)
Theorem overdue_is_displayed_not_stored (calls : list Call) :
  let d := run email_str like title_le calls empty_db in
  (forall l, In l (loan_transactions d) ->
             lt_loan_status l = Active \/ lt_loan_status l = Returned)
  /\ (forall c page limit member_id s,
        In s ["Overdue"; "Lost"; "Damaged"] ->
        get_loans page limit member_id (Some s) (mkWorld d c [])
        = (inr (mkLoanListResponse "Loans retrieved successfully" []
                  (mkPagination page limit 0 ((0 + limit - 1) / limit))),
           mkWorld d c []))
  /\ (forall c page limit member_id status row,
        In row (match fst (get_loans page limit member_id status
                             (mkWorld d c [])) with
                | inr answer => ll_loans answer
                | inl _ => []
                end) ->
        (lr_display_status row = "Overdue"
         <-> lr_loan_status row = "Active" /\ lr_due_date row < today c)
        /\ (lr_display_status row = "Due Soon"
            <-> lr_loan_status row = "Active"
                /\ today c <= lr_due_date row <= today c + 3)
        /\ (lr_loan_status row = "Returned" ->
            lr_display_status row = "Returned")).
Proof.
  intros d.
  assert (Hs : loans_active_or_returned d).
  { apply run_keeps_statuses. intros l []. }
  split; [exact Hs | split].
  - intros c page limit member_id s Hin.
    assert (Hnone : matching_loans member_id (Some s) d = []).
    { unfold matching_loans. apply filter_none.
      intros [[l m] b] Hj. apply joined_loans_in in Hj as (Hl & _).
      simpl. unfold loans_where.
      destruct (Hs l Hl) as [E | E]; rewrite E;
        destruct Hin as [<- | [<- | [<- | []]]]; simpl;
        apply andb_false_r. }
    rewrite get_loans_quiet, Hnone. cbn [order_by_loan_date_desc fold_right].
    rewrite skipn_nil, firstn_nil. reflexivity.
  - intros c page limit member_id status row Hrow.
    rewrite get_loans_quiet in Hrow. cbn [fst ll_loans] in Hrow.
    apply in_map_iff in Hrow as ([[l m] b] & <- & Hin).
    apply in_firstn, in_skipn in Hin.
    apply (Permutation_in _ (order_by_loan_date_desc_permutation _)) in Hin.
    apply filter_In in Hin as [Hj _]. apply joined_loans_in in Hj as (Hl & _).
    cbn [loan_list_row lr_display_status lr_loan_status lr_due_date].
    unfold display_status, loan_is_active.
    destruct (Hs l Hl) as [E | E]; rewrite E; cbn [LoanStatus_eqb LoanStatus_name].
    + rewrite !andb_true_r.
      destruct (lt_due_date l <? today c) eqn:E1.
      * apply Z.ltb_lt in E1.
        repeat split; auto; try discriminate; try lia;
          try (intros [_ H]; lia).
      * apply Z.ltb_ge in E1.
        destruct (lt_due_date l - today c <=? 3) eqn:E2.
        -- apply Z.leb_le in E2.
           repeat split; auto; try discriminate; try lia;
             try (intros [_ H]; lia).
        -- apply Z.leb_gt in E2.
           repeat split; auto; try discriminate; try lia;
             try (intros [_ H]; lia).
    + rewrite !andb_false_r.
      repeat split; auto; try discriminate;
        try (intros [H _]; discriminate).
Qed.

End Statuses.

(** ** The gateway *)

Lemma run_statements_inr {A} (qs : list (Stmt A)) (c : Clock) :
  forall fs d rs d' fs',
    run_statements qs c fs d = (inr (rs, d'), fs') ->
    run_statements qs c [] d = (inr (rs, d'), [])
    /\ List.length rs = List.length qs.
Proof.
  induction qs as [| q qs IH]; intros fs d rs d' fs' H.
  - simpl in H. inversion H; subst. split; reflexivity.
  - cbn [run_statements] in *.
    assert (Hq : match q c d with
                 | inl e => (inl e, tl fs)
                 | inr (r, d1) =>
                     match run_statements qs c (tl fs) d1 with
                     | (inr (rs, d2), fs2) => (inr (r :: rs, d2), fs2)
                     | (inl e, fs2) => (inl e, fs2)
                     end
                 end = (inr (rs, d'), fs')).
    { destruct fs as [| [| | msg] fs0]; try exact H. discriminate. }
    clear H. destruct (q c d) as [e | [r d1]]; [discriminate |].
    destruct (run_statements qs c (tl fs) d1) as [[e | [rs1 d2]] fs2] eqn:E;
      [discriminate |].
    inversion Hq; subst; clear Hq.
    destruct (IH _ _ _ _ _ E) as [Hrun Hlen].
    cbn [tl]. rewrite Hrun. split; [reflexivity | simpl; now rewrite Hlen].
Qed.

(** X19.  [execute_transaction] is all or nothing.  Whatever the statements
    and the faults, a call that raises leaves the database as it found it
    and raises [HTTPException] with status 500; a call that returns has run
    every statement, in order, each on the database the one before left:
    it returns one result per statement and leaves the database that the
    same statements leave when nothing goes wrong. *)
Theorem execute_transaction_all_or_nothing {A : Type} (qs : list (Stmt A))
    (w : World) :
  match execute_transaction qs w with
  | (inl e, w') =>
      db w' = db w /\ exists detail, e = HTTPException 500 detail
  | (inr results, w') =>
      List.length results = List.length qs
      /\ fst (run_statements qs (clock w) [] (db w)) = inr (results, db w')
  end.
Proof.
  destruct (execute_transaction qs w) as [[e | results] w'] eqn:E.
  - now apply execute_transaction_inl in E.
  - unfold execute_transaction in E.
    destruct (run_statements qs (clock w) (faults w) (db w))
      as [[e | [rs d']] fs] eqn:R.
    + destruct (next_fault w); destruct e; discriminate.
    + apply run_statements_inr in R as [Hrun Hlen].
      destruct (next_fault w); inversion E; subst; simpl;
        rewrite Hrun; split; auto.
Qed.

(** X20.  [GET /health] never fails.  Whatever the faults, the call raises
    nothing and writes nothing; the report says "healthy" when the probe
    statement ran and "unhealthy" when the pool gave no connection or the
    statement failed, with [status] and [database] always equal. *)
Theorem health_check_never_raises (w : World) :
  exists report,
    fst (health_check w) = inr report
    /\ db (snd (health_check w)) = db w
    /\ hr_status report = hr_database report
    /\ (hr_status report = "healthy" <-> next_fault w = NoFault)
    /\ (hr_status report = "unhealthy" <-> next_fault w <> NoFault).
Proof.
  unfold health_check, bind, try_except, execute_query, select_one, query, ret.
  destruct (next_fault w) eqn:F; simpl; eexists;
    (split; [reflexivity |]); simpl;
    repeat split; auto; try discriminate; try congruence.
Qed.

(** ** Listing members *)

Lemma length_left_join {A} (l : list A) :
  Z.of_nat (List.length (left_join l)) = Z.max 1 (Z.of_nat (List.length l)).
Proof.
  destruct l as [| a l]; [reflexivity |].
  unfold left_join. rewrite length_map. cbn [List.length]. lia.
Qed.

Lemma count_some_left_join {A} (l : list A) :
  count_rows (fun o : option A => match o with Some _ => true | None => false end)
             (left_join l)
  = Z.of_nat (List.length l).
Proof.
  destruct l as [| a l]; [reflexivity |].
  unfold left_join, count_rows. f_equal.
  rewrite filter_all, length_map; [reflexivity |].
  intros x Hx. apply in_map_iff in Hx as (y & <- & _). reflexivity.
Qed.

Lemma count_rows_map {A B} (f : A -> B) (p : B -> bool) (l : list A) :
  count_rows p (map f l) = count_rows (fun x => p (f x)) l.
Proof.
  induction l as [| a l IH]; [reflexivity |].
  cbn [map]. rewrite !count_rows_cons, IH. reflexivity.
Qed.

Lemma count_rows_const {A} (b : bool) (l : list A) :
  count_rows (fun _ => b) l = if b then Z.of_nat (List.length l) else 0.
Proof.
  induction l as [| a l IH]; [now destruct b |].
  rewrite count_rows_cons, IH. cbn [List.length]. destruct b; lia.
Qed.

Lemma count_rows_list_prod_fst {A B} (p : A -> bool) (xs : list A) (ys : list B) :
  count_rows (fun r => p (fst r)) (list_prod xs ys)
  = count_rows p xs * Z.of_nat (List.length ys).
Proof.
  induction xs as [| x xs IH]; [reflexivity |].
  cbn [list_prod]. rewrite count_rows_app, IH, count_rows_map, count_rows_cons.
  cbn [fst]. rewrite count_rows_const. destruct (p x); lia.
Qed.

Lemma sum_of_app {A} (f : A -> Z) (l1 l2 : list A) :
  sum_of f (l1 ++ l2) = sum_of f l1 + sum_of f l2.
Proof.
  induction l1 as [| a l1 IH]; [reflexivity |].
  cbn [app]. unfold sum_of in *. cbn [fold_right]. rewrite IH. lia.
Qed.

Lemma sum_of_map {A B} (g : A -> B) (f : B -> Z) (l : list A) :
  sum_of f (map g l) = sum_of (fun x => f (g x)) l.
Proof.
  induction l as [| a l IH]; [reflexivity |].
  unfold sum_of in *. cbn [map fold_right]. now rewrite IH.
Qed.

Lemma sum_of_list_prod_snd {A B} (g : B -> Z) (xs : list A) (ys : list B) :
  sum_of (fun r => g (snd r)) (list_prod xs ys)
  = Z.of_nat (List.length xs) * sum_of g ys.
Proof.
  induction xs as [| x xs IH]; [reflexivity |].
  cbn [list_prod]. rewrite sum_of_app, IH, sum_of_map.
  assert (E : sum_of (fun y : B => g (snd (x, y))) ys = sum_of g ys)
    by reflexivity.
  rewrite E. change (List.length (x :: xs)) with (S (List.length xs)).
  rewrite Nat2Z.inj_succ. generalize (sum_of g ys). intros z. nia.
Qed.

Lemma sum_of_ext_in {A} (f g : A -> Z) (l : list A) :
  (forall x, In x l -> f x = g x) -> sum_of f l = sum_of g l.
Proof.
  induction l as [| a l IH]; intros H; [reflexivity |].
  unfold sum_of in *. cbn [fold_right].
  rewrite (H a (or_introl eq_refl)), IH; [reflexivity |].
  intros x Hx. apply H. now right.
Qed.

Lemma sum_unpaid_left_join (fs : list Fine) :
  (forall f, In f fs -> is_unpaid f = true) ->
  sum_of (fun o : option Fine =>
            match o with
            | Some f => if is_unpaid f then f_amount f else 0
            | None => 0
            end) (left_join fs)
  = sum_of f_amount fs.
Proof.
  intros H. destruct fs as [| f fs]; [reflexivity |].
  unfold left_join. rewrite sum_of_map. apply sum_of_ext_in.
  intros x Hx. now rewrite (H x Hx).
Qed.

Section MemberListing.

Variable like : string -> string -> bool.
Variable text_eq : string -> string -> bool.
Variable name_le : string -> string -> bool.
Variable fines : list Fine.

Lemma order_by_name_permutation (rows : list MemberResponse) :
  Permutation (order_by_name name_le rows) rows.
Proof.
  induction rows as [| r rows IH]; simpl; [constructor |].
  transitivity (r :: order_by_name name_le rows); [| now constructor].
  generalize (order_by_name name_le rows). clear IH.
  intros l. induction l as [| x l IH]; simpl; [reflexivity |].
  destruct (member_le _ _ _); [reflexivity |].
  transitivity (x :: r :: l); [now constructor | constructor].
Qed.

(** X21.  The aggregates of [GET /api/members], in a call that meets no
    fault.  Every listed row is a stored member that passes the filters,
    and the total counts those members.  Because the query joins the
    member with its Active loans and with its unpaid fines before it
    aggregates, the two joins multiply: [active_loans] is the number of the
    member's Active loans times the number of the member's unpaid fines
    (times one when there is none), and [outstanding_fines] is the sum of
    the unpaid amounts times the number of Active loans (times one when
    there is none).  The figures are the plain count and the plain sum
    exactly when the member has at most one unpaid fine, respectively at
    most one Active loan. *)
Theorem get_members_aggregates (d : DB) (c : Clock) (page limit : Z)
    (search membership_type : option string) (is_active : option bool) :
  exists rows pages,
    get_members like text_eq name_le fines page limit search membership_type
                is_active (mkWorld d c [])
    = (inr (mkMemberListResponse rows
              (mkPagination page limit
                 (count_rows (members_where like text_eq search membership_type
                                            is_active) (members d))
                 pages)),
       mkWorld d c [])
    /\ forall row, In row rows ->
         let id := m_member_id (mr_member row) in
         let unpaid :=
           filter (fun f => (f_member_id f =? id) && is_unpaid f) fines in
         In (mr_member row) (members d)
         /\ members_where like text_eq search membership_type is_active
                          (mr_member row) = true
         /\ mr_active_loans row
            = active_loans_of_member id d
              * Z.max 1 (Z.of_nat (List.length unpaid))
         /\ mr_outstanding_fines row
            = Z.max 1 (active_loans_of_member id d) * sum_of f_amount unpaid
         /\ ((List.length unpaid <= 1)%nat ->
             mr_active_loans row = active_loans_of_member id d)
         /\ (active_loans_of_member id d <= 1 ->
             mr_outstanding_fines row = sum_of f_amount unpaid).
Proof.
  eexists _, _. split; [reflexivity |].
  intros row Hrow. cbv zeta.
  apply in_firstn, in_skipn in Hrow.
  apply (Permutation_in _ (order_by_name_permutation _)) in Hrow.
  unfold matching_members in Hrow.
  apply in_map_iff in Hrow as (m & <- & Hm).
  apply filter_In in Hm as [Hin Hw]. cbn [mr_member mr_active_loans
                                           mr_outstanding_fines].
  set (unpaid := filter (fun f => (f_member_id f =? m_member_id m) && is_unpaid f)
                        fines).
  set (lent := filter (active_loan_of_member (m_member_id m))
                      (loan_transactions d)).
  assert (Hcount : count_transaction_ids (member_joined_rows fines d m)
                   = active_loans_of_member (m_member_id m) d
                     * Z.max 1 (Z.of_nat (List.length unpaid))).
  { unfold count_transaction_ids, member_joined_rows. fold unpaid lent.
    rewrite (count_rows_list_prod_fst
               (fun o : option Loan =>
                  match o with Some _ => true | None => false end)).
    rewrite count_some_left_join, length_left_join. reflexivity. }
  assert (Hsum : sum_unpaid_amounts (member_joined_rows fines d m)
                 = Z.max 1 (active_loans_of_member (m_member_id m) d)
                   * sum_of f_amount unpaid).
  { unfold sum_unpaid_amounts, member_joined_rows. fold unpaid lent.
    rewrite (sum_of_list_prod_snd
               (fun o : option Fine =>
                  match o with
                  | Some f => if is_unpaid f then f_amount f else 0
                  | None => 0
                  end)).
    rewrite length_left_join, sum_unpaid_left_join; [reflexivity |].
    intros f Hf. apply filter_In in Hf as [_ Hf].
    now apply andb_true_iff in Hf as [_ Hf]. }
  assert (Hnonneg : 0 <= active_loans_of_member (m_member_id m) d).
  { unfold active_loans_of_member, count_rows. lia. }
  cbn [db]. rewrite Hcount, Hsum.
  split; [exact Hin | split; [exact Hw | split; [reflexivity |]]].
  split; [reflexivity | split].
  - intros Hle. replace (Z.max 1 (Z.of_nat (List.length unpaid))) with 1 by lia.
    lia.
  - intros Hle.
    replace (Z.max 1 (active_loans_of_member (m_member_id m) d)) with 1 by lia.
    lia.
Qed.

End MemberListing.

(** ** Statistics *)

Lemma sum_of_cons {A} (f : A -> Z) (a : A) (l : list A) :
  sum_of f (a :: l) = f a + sum_of f l.
Proof. reflexivity. Qed.

Lemma sum_available_copies_add (delta book_id : Z) (bs : list Book) (b : Book) :
  NoDup (map b_book_id bs) ->
  find (fun b => b_book_id b =? book_id) bs = Some b ->
  sum_of b_available_copies (map (add_available_copies delta book_id) bs)
  = sum_of b_available_copies bs + delta.
Proof.
  induction bs as [| x bs IH]; intros Hnd Hf; [discriminate |].
  cbn [map] in *. apply NoDup_cons_iff in Hnd as [Hx Hnd].
  rewrite !sum_of_cons. cbn [find] in Hf. unfold add_available_copies at 1.
  destruct (b_book_id x =? book_id) eqn:E.
  - apply Z.eqb_eq in E.
    assert (Hrest : map (add_available_copies delta book_id) bs = bs).
    { rewrite <- (map_id bs) at 2. apply map_ext_in. intros y Hy.
      unfold add_available_copies.
      destruct (b_book_id y =? book_id) eqn:Ey; [| reflexivity].
      apply Z.eqb_eq in Ey. exfalso. apply Hx. rewrite E, <- Ey.
      now apply in_map. }
    rewrite Hrest. simpl. lia.
  - rewrite (IH Hnd Hf). lia.
Qed.

Lemma sum_available_copies_missing (delta book_id : Z) (bs : list Book) :
  find (fun b => b_book_id b =? book_id) bs = None ->
  map (add_available_copies delta book_id) bs = bs.
Proof.
  intros Hf. rewrite <- (map_id bs) at 2. apply map_ext_in. intros y Hy.
  unfold add_available_copies.
  now rewrite (find_none _ _ Hf y Hy).
Qed.

Lemma count_all_active_mark_returned (c : Clock) (tid : Z) (ls : list Loan)
    (l : Loan) :
  NoDup (map lt_transaction_id ls) ->
  find (fun l => (lt_transaction_id l =? tid) && loan_is_active l) ls = Some l ->
  count_rows loan_is_active (map (mark_returned c tid) ls)
  = count_rows loan_is_active ls - 1.
Proof.
  induction ls as [| x ls IH]; intros Hnd Hf; [discriminate |].
  cbn [map] in *. apply NoDup_cons_iff in Hnd as [Hx Hnd].
  rewrite !count_rows_cons. cbn [find] in Hf.
  destruct (lt_transaction_id x =? tid) eqn:E.
  - apply Z.eqb_eq in E. rewrite <- E in *.
    rewrite (mark_returned_other c _ ls Hx).
    destruct (loan_is_active x) eqn:Ea; simpl in Hf.
    + unfold mark_returned. rewrite Z.eqb_refl.
      unfold loan_is_active at 1. cbn [lt_loan_status LoanStatus_eqb]. lia.
    + apply find_active_loan_in in Hf as (Hin & Hid & _).
      exfalso. apply Hx. rewrite <- Hid. now apply in_map.
  - simpl in Hf. rewrite (IH Hnd Hf).
    unfold mark_returned at 1. rewrite E.
    destruct (loan_is_active x); lia.
Qed.

Section Statistics.

Variable fines : list Fine.

Lemma get_dashboard_stats_quiet (d : DB) (c : Clock) :
  get_dashboard_stats fines (mkWorld d c [])
  = (inr (mkStats (Z.of_nat (List.length (books d)))
                  (sum_of b_available_copies (books d))
                  (count_rows m_is_active (members d))
                  (count_rows loan_is_active (loan_transactions d))
                  (count_rows (fun l => loan_is_active l
                                        && (lt_due_date l <? today c))
                              (loan_transactions d))
                  (sum_of (fun f => f_amount f - f_paid_amount f)
                          (filter is_unpaid fines))),
     mkWorld d c []).
Proof.
  unfold get_dashboard_stats, bind, execute_query, next_fault, count_books,
    sum_available_copies, count_active_members, count_active_loans,
    count_overdue_loans, sum_outstanding_fines, query, commit, ret; simpl.
  now destruct (books d).
Qed.

(** X22.  The dashboard follows the desk.  Take a database whose book ids
    and transaction ids differ.  After a [POST /api/loans] that answered
    201, [GET /api/stats] reports one Active loan more and one available
    copy less than before; after a [PUT /api/loans/{id}/return] that
    answered 200 it reports one Active loan less and, when the book of the
    loan is still stored, one available copy more.  The numbers of books
    and of active members and the outstanding fines are what they were. *)
Theorem stats_follow_loans (w w' : World) (r : Response) (c : Clock)
    (Hbooks : NoDup (map b_book_id (books (db w))))
    (Hloans : transaction_ids_unique (db w)) :
  exists before after,
    get_dashboard_stats fines (mkWorld (db w) c []) = (inr before, mkWorld (db w) c [])
    /\ get_dashboard_stats fines (mkWorld (db w') c [])
       = (inr after, mkWorld (db w') c [])
    /\ (forall loan,
          post_loans loan w = (r, w') -> status_code r = 201 ->
          active_loans after = active_loans before + 1
          /\ available_books after = available_books before - 1
          /\ total_books after = total_books before
          /\ total_members after = total_members before
          /\ outstanding_fines after = outstanding_fines before)
    /\ (forall tid,
          put_loans_return tid w = (r, w') -> status_code r = 200 ->
          active_loans after = active_loans before - 1
          /\ (exists l, In l (loan_transactions (db w))
                        /\ lt_transaction_id l = tid
                        /\ available_books after
                           = available_books before
                             + match find_book (lt_book_id l) (db w) with
                               | Some _ => 1
                               | None => 0
                               end)
          /\ total_books after = total_books before
          /\ total_members after = total_members before
          /\ outstanding_fines after = outstanding_fines before).
Proof.
  eexists _, _.
  split; [apply get_dashboard_stats_quiet |].
  split; [apply get_dashboard_stats_quiet |].
  cbn [active_loans available_books total_books total_members outstanding_fines].
  split.
  - intros loan Hpost Hok.
    destruct (post_loans_201 loan w w' r Hpost Hok) as (ct & Hc & _).
    apply create_loan_inr in Hc as (Hd & _ & (b & Hb & _) & _).
    rewrite Hd. unfold borrowed, loan_inserted; simpl.
    rewrite count_rows_last, length_map.
    rewrite (sum_available_copies_add (-1) (lc_book_id loan) _ b Hbooks Hb).
    repeat split; try reflexivity; try lia.
  - intros tid Hret Hok.
    destruct (put_loans_return_200 tid w w' r Hret Hok) as (l & Hl & Hd).
    rewrite Hd. unfold returned; simpl. rewrite length_map.
    rewrite (count_all_active_mark_returned (clock w) tid _ l Hloans Hl).
    destruct (find_active_loan_in _ _ _ Hl) as (Hin & Hid & _).
    split; [reflexivity | split; [| auto]].
    exists l. split; [exact Hin | split; [exact Hid |]].
    unfold find_book.
    destruct (find _ (books (db w))) as [b |] eqn:Eb.
    + now rewrite (sum_available_copies_add 1 (lt_book_id l) _ b Hbooks Eb).
    + rewrite (sum_available_copies_missing 1 (lt_book_id l) _ Eb). lia.
Qed.

End Statistics.

(** ** Available copies over runs *)

Section Stock.

Variable email_str : string -> bool.
Variable like : string -> string -> bool.
Variable title_le : string -> string -> bool.

(** X23.  No sequence of calls makes a count of available copies negative.
    From a database in which no book has a negative [available_copies] and
    the book ids differ and lie below the AUTO_INCREMENT counter, every run
    of calls of the modelled routes, with any faults -- interrupted borrows
    and returns included -- ends in a database of which the same holds. *)
Theorem available_copies_never_negative (calls : list Call) (d : DB)
    (Hcopies : forall b, In b (books d) -> 0 <= b_available_copies b)
    (Hids : NoDup (map b_book_id (books d)))
    (Hfresh : forall b, In b (books d) -> b_book_id b < next_book_id d) :
  let d' := run email_str like title_le calls d in
  (forall b, In b (books d') -> 0 <= b_available_copies b)
  /\ NoDup (map b_book_id (books d'))
  /\ (forall b, In b (books d') -> b_book_id b < next_book_id d').
Proof.
  exact (run_keeps_copies_nonnegative email_str like title_le calls d
           (conj Hcopies (conj Hids Hfresh))).
Qed.

End Stock.

(** ** The further properties at the sample data *)

Lemma delete_book_guarded_witness :
  route 200 true (delete_book 1) (mkWorld lent_db sample_clock [])
  = (mkResponse 400 (ErrorContent "Cannot delete book with active loans"),
     mkWorld lent_db sample_clock []).
Proof.
  apply (proj1 (proj2 (proj2 (proj2 (delete_book_guarded lent_db sample_clock 1))))).
  - vm_compute. discriminate.
  - exists sample_loan_row. vm_compute. auto.
Defined.

Lemma delete_member_deactivates_witness :
  db (snd (route 200 true (delete_member 1) (mkWorld lent_db sample_clock [])))
  = lent_db
  /\ status_code (fst (route 200 true (delete_member 1)
                             (mkWorld lent_db sample_clock []))) <> 200.
Proof.
  destruct (delete_member_deactivates lent_db sample_clock 1)
    as (Hclean & Hguard & _).
  split.
  - apply Hclean. vm_compute. discriminate.
  - apply Hguard. exists sample_loan_row. vm_compute. auto.
Defined.

Lemma deactivated_member_cannot_borrow_witness :
  status_code (fst (post_loans sample_loan
                      (mkWorld deactivated_db sample_clock []))) <> 201
  /\ db (snd (post_loans sample_loan (mkWorld deactivated_db sample_clock [])))
     = deactivated_db.
Proof.
  refine (proj1 (deactivated_member_cannot_borrow
                  (mkWorld sample_db sample_clock [])
                  (snd (route 200 true (delete_member 1)
                          (mkWorld sample_db sample_clock [])))
                  (fst (route 200 true (delete_member 1)
                          (mkWorld sample_db sample_clock [])))
                  1
                  ltac:(vm_compute; reflexivity) ltac:(vm_compute; reflexivity)
                  sample_loan sample_clock ltac:(reflexivity)) []).
Defined.

Lemma borrow_effect_witness :
  active_loans_of_member 1 lent_db = active_loans_of_member 1 sample_db + 1
  /\ available_copies_of 1 lent_db = Some 2.
Proof.
  destruct (proj2 (borrow_effect sample_db sample_clock sample_loan)
              ltac:(vm_compute; reflexivity) ltac:(vm_compute; reflexivity)
              ltac:(vm_compute; reflexivity))
    as (_ & _ & Hloans & Hcopies & _).
  split; [exact (Hloans 1) | exact Hcopies].
Defined.

Lemma return_effect_witness :
  exists l, In l (loan_transactions lent_db)
            /\ lt_transaction_id l = 1
            /\ available_copies_of (lt_book_id l) returned_db
               = option_map (fun n => n + 1)
                            (available_copies_of (lt_book_id l) lent_db).
Proof.
  destruct (return_effect
              (mkWorld lent_db (mkClock 12 1200) [])
              (snd (put_loans_return 1 (mkWorld lent_db (mkClock 12 1200) [])))
              (fst (put_loans_return 1 (mkWorld lent_db (mkClock 12 1200) [])))
              1 ltac:(vm_compute; reflexivity) ltac:(vm_compute; reflexivity))
    as (l & Hin & Hid & _ & _ & _ & _ & Hcopies & _).
  exists l. split; [exact Hin | split; [exact Hid | exact Hcopies]].
Defined.

Lemma return_interrupted_loses_copy_witness :
  fst (put_loans_return 1
         (mkWorld lent_db (mkClock 12 1200)
                  [NoFault; NoFault; StatementFailed "Lock wait timeout"]))
  = mkResponse 500 (ErrorContent "Database error: Lock wait timeout").
Proof.
  exact (proj1 (return_interrupted_loses_copy lent_db (mkClock 12 1200) 1
                  sample_loan_row "Lock wait timeout"
                  ltac:(vm_compute; reflexivity))).
Defined.

Lemma create_book_stores_row_witness :
  exists row,
    books (db (snd (route 201 (BookCreate_valid second_book_create)
                      (create_book second_book_create)
                      (mkWorld sample_db sample_clock []))))
    = books sample_db ++ [row]
    /\ b_book_id row = 2.
Proof.
  destruct (create_book_stores_row second_book_create
              (mkWorld sample_db sample_clock [])
              (snd (route 201 (BookCreate_valid second_book_create)
                      (create_book second_book_create)
                      (mkWorld sample_db sample_clock [])))
              (fst (route 201 (BookCreate_valid second_book_create)
                      (create_book second_book_create)
                      (mkWorld sample_db sample_clock [])))
              ltac:(vm_compute; reflexivity) ltac:(vm_compute; reflexivity))
    as (row & Hbooks & Hid & _).
  exists row. split; [exact Hbooks | exact Hid].
Defined.


Lemma update_book_writes_supplied_witness :
  book_authors (db (snd (route 200 (BookUpdate_valid retitled)
                           (update_book 1 retitled)
                           (mkWorld sample_db sample_clock []))))
  = filter (fun ba => negb (ba_book_id ba =? 1)) (book_authors sample_db)
    ++ [mkBookAuthor 1 7 (Some "Primary Author"); mkBookAuthor 1 8 None].
Proof.
  exact (proj2 (proj2 (proj2 (proj2
           (update_book_writes_supplied 1 retitled
              (mkWorld sample_db sample_clock [])
              (snd (route 200 (BookUpdate_valid retitled)
                      (update_book 1 retitled)
                      (mkWorld sample_db sample_clock [])))
              (fst (route 200 (BookUpdate_valid retitled)
                      (update_book 1 retitled)
                      (mkWorld sample_db sample_clock [])))
              ltac:(vm_compute; reflexivity) ltac:(vm_compute; reflexivity))))
           [mkAuthorRef (Some 7) Unset; mkAuthorRef (Some 8) Null]
           ltac:(reflexivity))).
Defined.

Lemma update_member_writes_supplied_witness :
  find_member 1 deactivated_db <> None
  /\ books (db (snd (route 200 (MemberUpdate_valid sample_email_str reactivated)
                       (update_member 1 reactivated)
                       (mkWorld deactivated_db sample_clock []))))
     = books deactivated_db.
Proof.
  destruct (update_member_writes_supplied sample_email_str 1 reactivated
              (mkWorld deactivated_db sample_clock [])
              (snd (route 200 (MemberUpdate_valid sample_email_str reactivated)
                      (update_member 1 reactivated)
                      (mkWorld deactivated_db sample_clock [])))
              (fst (route 200 (MemberUpdate_valid sample_email_str reactivated)
                      (update_member 1 reactivated)
                      (mkWorld deactivated_db sample_clock [])))
              ltac:(vm_compute; reflexivity) ltac:(vm_compute; reflexivity))
    as (Hfound & _ & _ & Hbooks & _).
  split; [exact Hfound | exact Hbooks].
Defined.

Lemma create_member_stores_row_witness :
  exists row,
    members (db (snd (route 201
                        (MemberCreate_valid sample_email_str 10
                                            second_member_create)
                        (create_member second_member_create)
                        (mkWorld sample_db sample_clock []))))
    = members sample_db ++ [row]
    /\ m_is_active row = true.
Proof.
  destruct (create_member_stores_row sample_email_str second_member_create
              (mkWorld sample_db sample_clock [])
              (snd (route 201
                      (MemberCreate_valid sample_email_str 10
                                          second_member_create)
                      (create_member second_member_create)
                      (mkWorld sample_db sample_clock [])))
              (fst (route 201
                      (MemberCreate_valid sample_email_str 10
                                          second_member_create)
                      (create_member second_member_create)
                      (mkWorld sample_db sample_clock [])))
              ltac:(vm_compute; reflexivity) ltac:(vm_compute; reflexivity))
    as (row & Hmembers & _ & _ & _ & Hactive & _).
  exists row. split; [exact Hmembers | exact Hactive].
Defined.

Lemma get_books_filters_witness :
  exists rows pg,
    fst (sample_serve (GetBooks 1 10 None None (Some true))
           (mkWorld sample_db sample_clock []))
    = mkResponse 200 (BookListResponse rows pg)
    /\ 0 <= pg_total pg <= 1.
Proof.
  destruct (get_books_filters sample_email_str sample_like sample_title_le
              sample_db sample_clock 1 10 None None (Some true)
              ltac:(lia) ltac:(lia))
    as (rows & pg & Heq & _ & Htotal & _).
  exists rows, pg. split; [exact Heq | exact Htotal].
Defined.


Lemma deleted_book_hides_its_loans_witness :
  loan_transactions
    (db (snd (route 200 true (delete_book 1)
                (mkWorld returned_db sample_clock []))))
  = loan_transactions returned_db.
Proof.
  exact (proj1 (deleted_book_hides_its_loans
                  (mkWorld returned_db sample_clock [])
                  (snd (route 200 true (delete_book 1)
                          (mkWorld returned_db sample_clock [])))
                  (fst (route 200 true (delete_book 1)
                          (mkWorld returned_db sample_clock [])))
                  1 ltac:(vm_compute; reflexivity)
                  ltac:(vm_compute; reflexivity))).
Defined.

Lemma stats_follow_loans_witness :
  exists before after,
    get_dashboard_stats [] (mkWorld sample_db sample_clock [])
    = (inr before, mkWorld sample_db sample_clock [])
    /\ get_dashboard_stats [] (mkWorld lent_db sample_clock [])
       = (inr after, mkWorld lent_db sample_clock [])
    /\ active_loans after = active_loans before + 1
    /\ available_books after = available_books before - 1.
Proof.
  destruct (stats_follow_loans []
              (mkWorld sample_db sample_clock [])
              (snd (post_loans sample_loan (mkWorld sample_db sample_clock [])))
              (fst (post_loans sample_loan (mkWorld sample_db sample_clock [])))
              sample_clock
              ltac:(repeat constructor; intros [])
              ltac:(constructor))
    as (before & after & Hb & Ha & Hborrow & _).
  destruct (Hborrow sample_loan ltac:(vm_compute; reflexivity)
              ltac:(vm_compute; reflexivity)) as (Hl & Hc & _).
  exists before, after. repeat split; assumption.
Defined.

Lemma available_copies_never_negative_witness :
  NoDup (map b_book_id (books (sample_run borrowed_twice_run empty_db)))
  /\ Forall (fun b => 0 <= b_available_copies b)
            (books (sample_run borrowed_twice_run empty_db)).
Proof.
  destruct (available_copies_never_negative sample_email_str sample_like
                  sample_title_le borrowed_twice_run empty_db
                  ltac:(intros b []) ltac:(constructor) ltac:(intros b []))
    as (Hcopies & Hids & _).
  split; [exact Hids | apply Forall_forall; exact Hcopies].
Defined.

(** ** Borrowing: request validation and the order of the checks *)

Lemma post_loans_allowed (d : DB) (c : Clock) (loan : LoanCreate) :
  0 < lc_member_id loan -> 0 < lc_book_id loan ->
  BorrowBook_preconditions d loan = None ->
  post_loans loan (mkWorld d c [])
  = (mkResponse 201 (StandardResponse "Book loan created successfully" None),
     mkWorld (borrowed c loan d) c []).
Proof.
  intros Hmid Hbid Hpre.
  unfold BorrowBook_preconditions in Hpre.
  unfold post_loans, route, LoanCreate_valid, validate_due_date.
  apply Z.ltb_lt in Hmid, Hbid. rewrite Hmid, Hbid. simpl andb.
  rewrite Z.gtb_ltb, <- Z.leb_antisym in Hpre.
  destruct (lc_due_date loan <=? lc_loan_date loan); simpl in *;
    [discriminate |].
  unfold create_loan, bind, execute_query, next_fault,
    select_available_copies, select_member_status,
    count_active_loans_of_member, insert_loan, decrement_available_copies,
    query, commit; simpl.
  destruct (find_book (lc_book_id loan) d) as [b |]; simpl in *;
    [| discriminate].
  rewrite Z.gtb_ltb, <- Z.leb_antisym in Hpre.
  destruct (b_available_copies b <=? 0); simpl in *; [discriminate |].
  destruct (find_member (lc_member_id loan) d) as [m |]; simpl in *;
    [| discriminate].
  destruct (m_is_active m); simpl in *; [| discriminate].
  rewrite Z.ltb_antisym, negb_involutive in Hpre. rewrite Z.geb_leb.
  destruct (m_max_books_allowed m <=? _); simpl in *; [discriminate |].
  reflexivity.
Qed.

(** A call whose checks fail writes nothing, whatever faults it meets. *)
Lemma post_loans_refused (d : DB) (c : Clock) (loan : LoanCreate)
    (e : BorrowError) :
  BorrowBook_checks d loan = Some e ->
  forall fs, db (snd (post_loans loan (mkWorld d c fs))) = d.
Proof.
  intros Hchk fs. unfold post_loans, route.
  destruct (LoanCreate_valid loan) eqn:V; [| reflexivity].
  destruct (create_loan_writes_when_allowed loan (mkWorld d c fs))
    as [H | (b & m & Hb & Ha & Hm & Hact & Hlim & _)].
  { destruct (create_loan loan (mkWorld d c fs)) as [[x | r] w']; exact H. }
  exfalso. cbn [db] in *.
  unfold LoanCreate_valid, validate_due_date in V.
  apply andb_true_iff in V as [V Hdue]. apply andb_true_iff in V as [Hmid Hbid].
  apply negb_true_iff in Hdue.
  unfold BorrowBook_checks in Hchk. rewrite Hmid, Hbid in Hchk. simpl in Hchk.
  unfold BorrowBook_preconditions in Hchk.
  rewrite Z.gtb_ltb, <- Z.leb_antisym, Hdue, Hb in Hchk. cbn [negb] in Hchk.
  rewrite Z.gtb_ltb in Hchk.
  apply Z.ltb_lt in Ha. rewrite Ha, Hm, Hact in Hchk. cbn [negb] in Hchk.
  unfold active_loans_of_member in Hlim. apply Z.ltb_lt in Hlim.
  rewrite Hlim in Hchk. discriminate.
Qed.

(** C4 as stated fails: the ids are validated before any precondition is
    looked at.  For a body with [member_id] 0, valid dates and an available
    book the specification's order gives MemberNotFound, and the code
    answers 422, as for InvalidInput. *)
Lemma borrow_order_skips_id_validation :
  BorrowBook_preconditions sample_db member_zero_loan = Some MemberNotFound
  /\ fst (post_loans member_zero_loan (mkWorld sample_db sample_clock []))
     = borrow_error_response InvalidInput
  /\ borrow_error_response InvalidInput <> borrow_error_response MemberNotFound.
Proof. vm_compute. repeat split; try reflexivity. discriminate. Qed.

(** C4, amended.  For every body, [POST /api/loans] validates the request
    first -- [member_id > 0], [book_id > 0], [dueDate > loanDate], else
    InvalidInput (422) -- and then checks the preconditions in the order of
    the specification, the first failure deciding the response.  In a call
    that meets no fault a failed check leaves the world as it was, and when
    every check passes the answer is 201 and the loan is made; whatever
    faults a call meets, a body that fails a check changes nothing in the
    database. *)
Theorem borrow_checks_in_order (d : DB) (c : Clock) (loan : LoanCreate) :
  match BorrowBook_checks d loan with
  | Some e =>
      post_loans loan (mkWorld d c []) = (borrow_error_response e, mkWorld d c [])
      /\ forall fs, db (snd (post_loans loan (mkWorld d c fs))) = d
  | None =>
      post_loans loan (mkWorld d c [])
      = (mkResponse 201 (StandardResponse "Book loan created successfully" None),
         mkWorld (borrowed c loan d) c [])
  end.
Proof.
  destruct (BorrowBook_checks d loan) as [e |] eqn:Hchk.
  - split; [| exact (post_loans_refused d c loan e Hchk)].
    unfold BorrowBook_checks in Hchk.
    destruct (0 <? lc_member_id loan) eqn:Hmid; simpl in Hchk.
    2:{ inversion Hchk; subst.
        unfold post_loans, route, LoanCreate_valid. now rewrite Hmid. }
    destruct (0 <? lc_book_id loan) eqn:Hbid; simpl in Hchk.
    2:{ inversion Hchk; subst.
        unfold post_loans, route, LoanCreate_valid. now rewrite Hmid, Hbid. }
    apply Z.ltb_lt in Hmid, Hbid.
    pose proof (borrow_preconditions_in_order d c loan Hmid Hbid) as H.
    now rewrite Hchk in H.
  - unfold BorrowBook_checks in Hchk.
    destruct (0 <? lc_member_id loan) eqn:Hmid; simpl in Hchk;
      [| discriminate].
    destruct (0 <? lc_book_id loan) eqn:Hbid; simpl in Hchk; [| discriminate].
    apply Z.ltb_lt in Hmid, Hbid. now apply post_loans_allowed.
Qed.

Lemma borrow_checks_in_order_witness :
  post_loans member_zero_loan (mkWorld sample_db sample_clock [])
  = (mkResponse 422 RequestValidationError, mkWorld sample_db sample_clock [])
  /\ post_loans missing_book_loan (mkWorld sample_db sample_clock [])
     = (mkResponse 400 (ErrorContent "Book is not available for loan"),
        mkWorld sample_db sample_clock [])
  /\ post_loans sample_loan (mkWorld deactivated_db sample_clock [])
     = (mkResponse 400 (ErrorContent "Member account is not active"),
        mkWorld deactivated_db sample_clock [])
  /\ post_loans sample_loan (mkWorld sample_db sample_clock [])
     = (mkResponse 201 (StandardResponse "Book loan created successfully" None),
        mkWorld (borrowed sample_clock sample_loan sample_db) sample_clock []).
Proof.
  split; [| split; [| split]].
  - exact (proj1 (borrow_checks_in_order sample_db sample_clock member_zero_loan)).
  - exact (proj1 (borrow_checks_in_order sample_db sample_clock missing_book_loan)).
  - exact (proj1 (borrow_checks_in_order deactivated_db sample_clock sample_loan)).
  - exact (borrow_checks_in_order sample_db sample_clock sample_loan).
Defined.
